(** * squads-go: the transaction-message codec, the message compiler and the
    vote / execute orchestration, embedded in Rocq.

    Conventions of the embedding.
    - A Go [uintN] is a [Z] in [0, 2^N); every conversion [uintN(x)] of the
      source is written out as [x mod 2^N].  The int64 seconds of package
      time wrap around, or saturate, as that package has it.
    - A byte stream is a [list Z] (one element per byte).
    - A [solana.PublicKey] is the list of its 32 bytes.  The Go maps of the
      compiler are keyed by [pubkey.String()], the base58 text of the key,
      and read back with [PublicKeyFromBase58]; the two are mutually inverse,
      so the maps of the model are keyed by the key itself.
    - Ranging over a Go map visits every entry once in an order the language
      leaves unspecified: a function that ranges over a map takes the order
      of the visit as an argument, constrained to be a permutation of the
      entries of the map.
    - The orchestration functions run against an environment record that
      answers the calls to the collaborators (RPC node, clock, signer), and
      return their result together with the list of network events caused. *)

From Stdlib Require Import ZArith Lia.
From stdpp Require Import gmap strings list fin_maps.

#[local] Open Scope Z_scope.

Definition PublicKey : Type := list Z.

Definition uint8 (x : Z) : Z := x mod 256.
Definition uint16 (x : Z) : Z := x mod 65536.

(** [len(l)] as a Go [int]. *)
Definition len {A} (l : list A) : Z := Z.of_nat (length l).

(** ** The SmallVec codec of package squads_multisig_program *)
Module Codec.

(** Errors of the codec: the two errors of [io.ReadFull] / [binary.Read] on a
    short input, and the [default] branch of the type switches. *)
Inductive CodecError : Type :=
  | EOF
  | ErrUnexpectedEOF
  | ErrUnsupportedType (ty : string).

(** [Encoder] and [Decoder] wrap an [io.Writer] / [io.Reader]; both are used
    over a [bytes.Buffer].  A computation threads the buffer and may fail; the
    buffer survives a failure (bytes already written stay written). *)
Definition M (A : Type) : Type := list Z → (CodecError + A) * list Z.

Definition ret {A} (a : A) : M A := λ s, (inr a, s).
Definition fail {A} (e : CodecError) : M A := λ s, (inl e, s).
Definition bind {A B} (m : M A) (k : A → M B) : M B :=
  λ s, match m s with
       | (inr a, s') => k a s'
       | (inl e, s') => (inl e, s')
       end.

Notation "'let*' x ':=' m 'in' k" := (bind m (λ x, k))
  (at level 10, x name, m at level 100, k at level 200, only parsing).
Notation "m >> k" := (bind m (λ _, k))
  (at level 100, k at level 200, right associativity, only parsing).

(** [w.Write(p)] on a [bytes.Buffer]: appends, never fails. *)
Definition Write (p : list Z) : M unit := λ buf, (inr tt, buf ++ p).

(** [io.ReadFull(r, buf)] with [len(buf) = n] on a [bytes.Buffer]: nothing is
    read for [n = 0]; [EOF] when no byte is left, [ErrUnexpectedEOF] when
    fewer than [n] are (the reader is drained). *)
Definition ReadFull (n : nat) : M (list Z) :=
  λ s, match n with
       | O => (inr [], s)
       | _ => match s with
              | [] => (inl EOF, [])
              | _ => if decide (length s < n)%nat
                     then (inl ErrUnexpectedEOF, [])
                     else (inr (take n s), drop n s)
              end
       end.

(** Modelled from the spec: the declarations of the three message types are
    not among the sources; the fields are those of the Transaction Message of
    the data model, with the types the codec and its test use them at.  A
    [SmallVec[L, T]] is a struct with the single field [Data []T] and is
    modelled by the list. *)
Record CompiledInstruction : Type := {
  ProgramIdIndex : Z;            (* uint8 *)
  AccountIndexes : list Z;       (* SmallVec[uint8, uint8] *)
  Data : list Z                  (* SmallVec[uint16, uint8] *)
}.

Record MessageAddressTableLookup : Type := {
  AccountKey : PublicKey;
  WritableIndexes : list Z;      (* SmallVec[uint8, uint8] *)
  ReadonlyIndexes : list Z       (* SmallVec[uint8, uint8] *)
}.

Record TransactionMessage : Type := {
  NumSigners : Z;                (* uint8 *)
  NumWritableSigners : Z;        (* uint8 *)
  NumWritableNonSigners : Z;     (* uint8 *)
  AccountKeys : list PublicKey;  (* SmallVec[uint8, PublicKey] *)
  Instructions : list CompiledInstruction;
  AddressTableLookups : list MessageAddressTableLookup
}.

(** The leaf arguments [Encoder.Encode] is called with, by dynamic type. *)
Inductive EncArg : Type :=
  | AUint8 (v : Z)                (* uint8 *)
  | AUint8Ptr (v : Z)             (* *uint8 *)
  | AUint16 (v : Z)               (* uint16 *)
  | ABytes (p : list Z)           (* []uint8 *)
  | APublicKey (k : PublicKey)    (* solana.PublicKey *)
  | APublicKeyPtr (k : PublicKey) (* *solana.PublicKey *).

(** [Encoder.Encode] on a leaf: the cases of the type switch.  There is a case
    for [solana.PublicKey] and none for [*solana.PublicKey], which reaches
    [default]. *)
Definition Encode (v : EncArg) : M unit :=
  match v with
  | AUint8 x | AUint8Ptr x => Write [x]
  | AUint16 x => Write [x mod 256; (x / 256) mod 256]
  | ABytes p => Write p
  | APublicKey k => Write k
  | APublicKeyPtr _ => fail (ErrUnsupportedType "*solana.PublicKey")
  end.

(** [for _, item := range data { if err := f(item); err != nil { return err } }] *)
Fixpoint for_each {A} (f : A → M unit) (data : list A) : M unit :=
  match data with
  | [] => ret tt
  | item :: rest => f item >> for_each f rest
  end.

Definition CompiledInstruction_EncodeWith (ci : CompiledInstruction) : M unit :=
  Encode (AUint8 (ProgramIdIndex ci)) >>
  let accounts := AccountIndexes ci in
  Encode (AUint8 (uint8 (len accounts))) >>
  Encode (ABytes accounts) >>
  let data := Data ci in
  Encode (AUint16 (uint16 (len data))) >>
  Encode (ABytes (Data ci)).

Definition MessageAddressTableLookup_EncodeWith (m : MessageAddressTableLookup) : M unit :=
  Encode (APublicKeyPtr (AccountKey m)) >>
  let writableIndexes := WritableIndexes m in
  Encode (AUint8 (uint8 (len writableIndexes))) >>
  Encode (ABytes writableIndexes) >>
  let readonlyIndexes := ReadonlyIndexes m in
  Encode (AUint8 (uint8 (len readonlyIndexes))) >>
  Encode (ABytes readonlyIndexes).

(** The three [*SmallVec[uint8, T]] cases of [Encoder.Encode]. *)
Definition Encode_SmallVec_PublicKey (val : list PublicKey) : M unit :=
  Encode (AUint8 (uint8 (len val))) >>
  for_each (λ item, Encode (APublicKey item)) val.

Definition Encode_SmallVec_CompiledInstruction (val : list CompiledInstruction) : M unit :=
  Encode (AUint8 (uint8 (len val))) >>
  for_each CompiledInstruction_EncodeWith val.

Definition Encode_SmallVec_MessageAddressTableLookup
    (val : list MessageAddressTableLookup) : M unit :=
  Encode (AUint8 (uint8 (len val))) >>
  for_each MessageAddressTableLookup_EncodeWith val.

Definition TransactionMessage_EncodeWith (tm : TransactionMessage) : M unit :=
  Encode (AUint8 (NumSigners tm)) >>
  Encode (AUint8 (NumWritableSigners tm)) >>
  Encode (AUint8 (NumWritableNonSigners tm)) >>
  Encode_SmallVec_PublicKey (AccountKeys tm) >>
  Encode_SmallVec_CompiledInstruction (Instructions tm) >>
  Encode_SmallVec_MessageAddressTableLookup (AddressTableLookups tm).

(** [Decoder.Decode] on the leaf types. *)
Definition Decode_uint8 : M Z :=
  let* b := ReadFull 1 in ret (nth 0 b 0).

Definition Decode_uint16 : M Z :=
  let* b := ReadFull 2 in ret (nth 0 b 0 + 256 * nth 1 b 0).

(** [case []uint8] and [case *[]uint8]: fill a slice of the given length. *)
Definition Decode_bytes (n : Z) : M (list Z) := ReadFull (Z.to_nat n).

Definition Decode_PublicKey : M PublicKey := ReadFull 32.

(** [val.Data = make([]T, length); for i := range val.Data { Decode(&val.Data[i]) }] *)
Fixpoint decode_each {A} (d : M A) (n : nat) : M (list A) :=
  match n with
  | O => ret []
  | S n' => let* x := d in let* xs := decode_each d n' in ret (x :: xs)
  end.

Definition Decode_SmallVec {A} (d : M A) : M (list A) :=
  let* length := Decode_uint8 in decode_each d (Z.to_nat length).

Definition CompiledInstruction_DecodeWith : M CompiledInstruction :=
  let* programIdIndex := Decode_uint8 in
  let* accountsLen := Decode_uint8 in
  let* accountIndexes := Decode_bytes accountsLen in
  let* dataLen := Decode_uint16 in
  let* data := ReadFull (Z.to_nat dataLen) in
  ret {| ProgramIdIndex := programIdIndex;
         AccountIndexes := accountIndexes;
         Data := data |}.

Definition MessageAddressTableLookup_DecodeWith : M MessageAddressTableLookup :=
  let* accountKey := Decode_PublicKey in
  let* writableLen := Decode_uint8 in
  let* writableData := Decode_bytes writableLen in
  let* readonlyLen := Decode_uint8 in
  let* readonlyData := Decode_bytes readonlyLen in
  ret {| AccountKey := accountKey;
         WritableIndexes := writableData;
         ReadonlyIndexes := readonlyData |}.

Definition TransactionMessage_DecodeWith : M TransactionMessage :=
  let* numSigners := Decode_uint8 in
  let* numWritableSigners := Decode_uint8 in
  let* numWritableNonSigners := Decode_uint8 in
  let* accountKeys := Decode_SmallVec Decode_PublicKey in
  let* instructions := Decode_SmallVec CompiledInstruction_DecodeWith in
  let* addressTableLookups := Decode_SmallVec MessageAddressTableLookup_DecodeWith in
  ret {| NumSigners := numSigners;
         NumWritableSigners := numWritableSigners;
         NumWritableNonSigners := numWritableNonSigners;
         AccountKeys := accountKeys;
         Instructions := instructions;
         AddressTableLookups := addressTableLookups |}.

(** [msg.EncodeWith(NewEncoder(&buf))] on an empty buffer, and
    [msg.DecodeWith(NewDecoder(bytes.NewBuffer(b)))]. *)
Definition encode (tm : TransactionMessage) : (CodecError + unit) * list Z :=
  TransactionMessage_EncodeWith tm [].

Definition decode (b : list Z) : (CodecError + TransactionMessage) * list Z :=
  TransactionMessage_DecodeWith b.

(** What an encoder appends, what a decoder consumes, and decoders whose
    success does not depend on what follows the bytes they read. *)
Definition emits (e : M unit) (w : list Z) : Prop :=
  ∀ buf, e buf = (inr tt, buf ++ w).

Definition parses {A} (d : M A) (w : list Z) (a : A) : Prop :=
  ∀ rest, d (w ++ rest) = (inr a, rest).

Definition stable {A} (d : M A) : Prop :=
  ∀ s a r q, d s = (inr a, r) → d (s ++ q) = (inr a, r ++ q).

(** An encoder that stops with error [err] after appending [w]. *)
Definition fails_after (e : M unit) (err : CodecError) (w : list Z) : Prop :=
  ∀ buf, e buf = (inl err, buf ++ w).

(** A decoder that can only fail by running out of input, with the reader
    drained. *)
Definition short_only {A} (d : M A) : Prop :=
  ∀ s e r, d s = (inl e, r) → r = [] ∧ (e = EOF ∨ e = ErrUnexpectedEOF).

(** The bounds under which every length fits its prefix, and the typing
    invariant of [PublicKey] ([32]byte). *)
Definition instruction_fits (ci : CompiledInstruction) : Prop :=
  len (AccountIndexes ci) ≤ 255 ∧ len (Data ci) ≤ 65535.

Definition lookup_fits (l : MessageAddressTableLookup) : Prop :=
  length (AccountKey l) = 32%nat ∧
  len (WritableIndexes l) ≤ 255 ∧ len (ReadonlyIndexes l) ≤ 255.

Definition message_fits (tm : TransactionMessage) : Prop :=
  len (AccountKeys tm) ≤ 255 ∧
  len (Instructions tm) ≤ 255 ∧
  len (AddressTableLookups tm) ≤ 255 ∧
  Forall (λ k, length k = 32%nat) (AccountKeys tm) ∧
  Forall instruction_fits (Instructions tm) ∧
  Forall lookup_fits (AddressTableLookups tm).

(** The wire format: fixed-width integers little-endian, every list behind
    its length in one byte (two bytes for an instruction payload). *)
Definition uint16_le (x : Z) : list Z := [x mod 256; (x / 256) mod 256].

Definition instruction_bytes (ci : CompiledInstruction) : list Z :=
  [ProgramIdIndex ci] ++ [uint8 (len (AccountIndexes ci))] ++ AccountIndexes ci ++
  uint16_le (uint16 (len (Data ci))) ++ Data ci.

Definition lookup_bytes (l : MessageAddressTableLookup) : list Z :=
  AccountKey l ++ [uint8 (len (WritableIndexes l))] ++ WritableIndexes l ++
  [uint8 (len (ReadonlyIndexes l))] ++ ReadonlyIndexes l.

Definition message_bytes (tm : TransactionMessage) : list Z :=
  [NumSigners tm] ++ [NumWritableSigners tm] ++ [NumWritableNonSigners tm] ++
  ([uint8 (len (AccountKeys tm))] ++ concat (map id (AccountKeys tm))) ++
  ([uint8 (len (Instructions tm))] ++ concat (map instruction_bytes (Instructions tm))) ++
  ([uint8 (len (AddressTableLookups tm))] ++
     concat (map lookup_bytes (AddressTableLookups tm))).

(** Sample messages: the one of the package's own test, and one with an
    address-table lookup. *)
Definition test_key (n : Z) : PublicKey := replicate 32 n.

Definition test_message : TransactionMessage :=
  {| NumSigners := 1; NumWritableSigners := 2; NumWritableNonSigners := 3;
     AccountKeys := [test_key 6];
     Instructions := [ {| ProgramIdIndex := 1; AccountIndexes := [1; 2; 3];
                          Data := [1; 2; 3; 4] |} ];
     AddressTableLookups := [] |}.

Definition test_message_with_lookup : TransactionMessage :=
  {| NumSigners := 1; NumWritableSigners := 1; NumWritableNonSigners := 0;
     AccountKeys := [test_key 6];
     Instructions := [ {| ProgramIdIndex := 1; AccountIndexes := [0];
                          Data := [1; 2; 3; 4] |} ];
     AddressTableLookups :=
       [ {| AccountKey := test_key 9; WritableIndexes := [0];
            ReadonlyIndexes := [] |} ] |}.

(** A strict prefix: the stream cut before its end. *)
Definition strict_prefix (p b : list Z) : Prop :=
  ∃ q, q ≠ [] ∧ b = p ++ q.

End Codec.

(** ** The types of package solana the compiler works on *)
Module solana.

Definition Hash : Type := list Z.

(** The system program, whose address is 32 zero bytes. *)
Definition SystemProgramID : PublicKey := replicate 32 0.

Record AccountMeta : Type := {
  AccountMeta_PublicKey : PublicKey;
  IsSigner : bool;
  IsWritable : bool
}.

(** [solana.Instruction]: [ProgramID()], [Accounts()], [Data()]. *)
Record Instruction : Type := {
  ProgramID : PublicKey;
  Accounts : list AccountMeta;
  Data : list Z
}.

Record MessageHeader : Type := {
  NumRequiredSignatures : Z;        (* uint8 *)
  NumReadonlySignedAccounts : Z;    (* uint8 *)
  NumReadonlyUnsignedAccounts : Z   (* uint8 *)
}.

Record CompiledInstruction : Type := {
  ProgramIDIndex : Z;               (* uint16 *)
  CompiledInstruction_Accounts : list Z;  (* []uint16 *)
  CompiledInstruction_Data : list Z
}.

Record MessageAddressTableLookup : Type := {
  AccountKey : PublicKey;
  WritableIndexes : list Z;         (* []uint8 *)
  ReadonlyIndexes : list Z          (* []uint8 *)
}.

Inductive MessageVersion : Type := MessageVersionLegacy | MessageVersionV0.

Record Message : Type := {
  Header : MessageHeader;
  AccountKeys : list PublicKey;
  RecentBlockhash : Hash;
  Instructions : list CompiledInstruction;
  AddressTableLookups : list MessageAddressTableLookup;
  version : MessageVersion
}.

(** [addresslookuptable.KeyedAddressLookupTable]: [Key] and [State.Addresses]. *)
Record KeyedAddressLookupTable : Type := {
  Key : PublicKey;
  Addresses : list PublicKey
}.

End solana.

(** ** The account-metadata resolver and the message compiler
    (package multisigtransaction) *)
Module Compiler.

Record CompiledKeyMeta : Type := {
  IsSigner : bool;
  IsWritable : bool;
  IsInvoked : bool
}.

#[global] Instance CompiledKeyMeta_eq_dec : EqDecision CompiledKeyMeta.
Proof. solve_decision. Defined.

Record CompiledKeys : Type := {
  Payer : PublicKey;
  KeyMetaMap : gmap PublicKey CompiledKeyMeta
}.

Record AccountKeysFromLookups : Type := {
  Writable : list PublicKey;
  Readonly : list PublicKey
}.

Record MessageAccountKeys : Type := {
  StaticAccountKeys : list PublicKey;
  FromLookups : AccountKeysFromLookups
}.

Definition NewCompiledKeys (payer : PublicKey)
    (keyMetaMap : gmap PublicKey CompiledKeyMeta) : CompiledKeys :=
  {| Payer := payer; KeyMetaMap := keyMetaMap |}.

(** The closure [getOrInsertDefault]: the entry of [pubkey] (a copy), inserted
    with all flags false when absent; returns the map as it leaves it. *)
Definition getOrInsertDefault (keyMetaMap : gmap PublicKey CompiledKeyMeta)
    (pubkey : PublicKey) : CompiledKeyMeta * gmap PublicKey CompiledKeyMeta :=
  match keyMetaMap !! pubkey with
  | Some keyMeta => (keyMeta, keyMetaMap)
  | None =>
      let keyMeta := {| IsSigner := false; IsWritable := false; IsInvoked := false |} in
      (keyMeta, <[pubkey := keyMeta]> keyMetaMap)
  end.

(** Body of the inner loop of [CompileKeys], one listed account. *)
Definition compile_account (keyMetaMap : gmap PublicKey CompiledKeyMeta)
    (accountMeta : solana.AccountMeta) : gmap PublicKey CompiledKeyMeta :=
  let '(keyMeta, keyMetaMap) :=
    getOrInsertDefault keyMetaMap (solana.AccountMeta_PublicKey accountMeta) in
  let keyMeta :=
    {| IsSigner := IsSigner keyMeta || solana.IsSigner accountMeta;
       IsWritable := IsWritable keyMeta || solana.IsWritable accountMeta;
       IsInvoked := IsInvoked keyMeta |} in
  <[solana.AccountMeta_PublicKey accountMeta := keyMeta]> keyMetaMap.

(** Body of the outer loop of [CompileKeys], one instruction.  The source
    assigns [false] to [IsInvoked] of the program's entry. *)
Definition compile_instruction (keyMetaMap : gmap PublicKey CompiledKeyMeta)
    (ix : solana.Instruction) : gmap PublicKey CompiledKeyMeta :=
  let '(programKeyMeta, keyMetaMap) :=
    getOrInsertDefault keyMetaMap (solana.ProgramID ix) in
  let programKeyMeta :=
    {| IsSigner := IsSigner programKeyMeta;
       IsWritable := IsWritable programKeyMeta;
       IsInvoked := false |} in
  let keyMetaMap := <[solana.ProgramID ix := programKeyMeta]> keyMetaMap in
  foldl compile_account keyMetaMap (solana.Accounts ix).

Definition CompileKeys (instructions : list solana.Instruction)
    (payer : PublicKey) : CompiledKeys :=
  let '(payerKeyMeta, keyMetaMap) := getOrInsertDefault ∅ payer in
  let payerKeyMeta :=
    {| IsSigner := true; IsWritable := true; IsInvoked := IsInvoked payerKeyMeta |} in
  let keyMetaMap := <[payer := payerKeyMeta]> keyMetaMap in
  NewCompiledKeys payer (foldl compile_instruction keyMetaMap instructions).

(** [for address, meta := range m]: [order] is a possible order of the visit. *)
Definition map_range {V} (m : gmap PublicKey V) (order : list (PublicKey * V)) : Prop :=
  order ≡ₚ map_to_list m.

(** The four buckets of [GetMessageComponents]. *)
Inductive Bucket : Type :=
  | writableSigners | readonlySigners | writableNonSigners | readonlyNonSigners.

#[global] Instance Bucket_eq_dec : EqDecision Bucket.
Proof. solve_decision. Defined.

(** The [if / else if] chain of the first loop. *)
Definition bucket_of (meta : CompiledKeyMeta) : Bucket :=
  if IsSigner meta && IsWritable meta then writableSigners
  else if IsSigner meta && negb (IsWritable meta) then readonlySigners
  else if negb (IsSigner meta) && IsWritable meta then writableNonSigners
  else readonlyNonSigners.

Record Buckets : Type := {
  ws : list PublicKey; rs : list PublicKey;
  wn : list PublicKey; rn : list PublicKey
}.

Definition bucket_step (b : Buckets) (entry : PublicKey * CompiledKeyMeta) : Buckets :=
  let '(address, meta) := entry in
  match bucket_of meta with
  | writableSigners => {| ws := ws b ++ [address]; rs := rs b; wn := wn b; rn := rn b |}
  | readonlySigners => {| ws := ws b; rs := rs b ++ [address]; wn := wn b; rn := rn b |}
  | writableNonSigners => {| ws := ws b; rs := rs b; wn := wn b ++ [address]; rn := rn b |}
  | readonlyNonSigners => {| ws := ws b; rs := rs b; wn := wn b; rn := rn b ++ [address] |}
  end.

(** [staticAccountKeys = append(staticAccountKeys, pubkey)] over a bucket. *)
Definition append_all (staticAccountKeys bucket : list PublicKey) : list PublicKey :=
  foldl (λ acc address, acc ++ [address]) staticAccountKeys bucket.

(** [GetMessageComponents] when the range over [ck.KeyMetaMap] visits the
    entries in [order]. *)
Definition GetMessageComponents_on (order : list (PublicKey * CompiledKeyMeta))
    : solana.MessageHeader * list PublicKey :=
  let b := foldl bucket_step {| ws := []; rs := []; wn := []; rn := [] |} order in
  let header :=
    {| solana.NumRequiredSignatures := uint8 (len (ws b) + len (rs b));
       solana.NumReadonlySignedAccounts := uint8 (len (rs b));
       solana.NumReadonlyUnsignedAccounts := uint8 (len (rn b)) |} in
  let staticAccountKeys := append_all [] (ws b) in
  let staticAccountKeys := append_all staticAccountKeys (rs b) in
  let staticAccountKeys := append_all staticAccountKeys (wn b) in
  let staticAccountKeys := append_all staticAccountKeys (rn b) in
  (header, staticAccountKeys).

Definition GetMessageComponents (ck : CompiledKeys)
    (res : solana.MessageHeader * list PublicKey) : Prop :=
  ∃ order, map_range (KeyMetaMap ck) order ∧ res = GetMessageComponents_on order.

(** The keys of one bucket, in the order of the visit. *)
Definition bucket (c : Bucket) (order : list (PublicKey * CompiledKeyMeta))
    : list PublicKey :=
  (filter (λ e, bucket_of e.2 = c) order).*1.

(** [for i, entry := range lookupTableEntries { if entry.Equals(key) ... break }] *)
Fixpoint find_entry (lookupTableEntries : list PublicKey) (key : PublicKey)
    (i : Z) : option Z :=
  match lookupTableEntries with
  | [] => None
  | entry :: rest =>
      if decide (entry = key) then Some i else find_entry rest key (i + 1)
  end.

Record Drain : Type := {
  lookupTableIndexes : list Z;     (* []uint8 *)
  drainedKeys : list PublicKey;
  remaining : gmap PublicKey CompiledKeyMeta
}.

Definition drain_step (lookupTableEntries : list PublicKey)
    (keyMetaFilter : CompiledKeyMeta → bool)
    (d : Drain) (entry : PublicKey * CompiledKeyMeta) : Drain :=
  let '(address, keyMeta) := entry in
  if keyMetaFilter keyMeta then
    match find_entry lookupTableEntries address 0 with
    | Some i =>
        {| lookupTableIndexes := lookupTableIndexes d ++ [uint8 i];
           drainedKeys := drainedKeys d ++ [address];
           remaining := delete address (remaining d) |}
    | None => d
    end
  else d.

(** [drainKeysFoundInLookupTable] for a given order of the visit.  Only the
    entry being visited is ever deleted, so every entry is visited. *)
Definition drainKeysFoundInLookupTable_on
    (keyMetaMap : gmap PublicKey CompiledKeyMeta)
    (lookupTableEntries : list PublicKey)
    (keyMetaFilter : CompiledKeyMeta → bool)
    (order : list (PublicKey * CompiledKeyMeta)) : Drain :=
  foldl (drain_step lookupTableEntries keyMetaFilter)
        {| lookupTableIndexes := []; drainedKeys := []; remaining := keyMetaMap |}
        order.

Definition writable_filter (keyMeta : CompiledKeyMeta) : bool :=
  negb (IsSigner keyMeta) && negb (IsInvoked keyMeta) && IsWritable keyMeta.

Definition readonly_filter (keyMeta : CompiledKeyMeta) : bool :=
  negb (IsSigner keyMeta) && negb (IsInvoked keyMeta) && negb (IsWritable keyMeta).

(** [ExtractTableLookup] for given orders of its two visits; returns the
    lookup (when something was found) and the map it leaves. *)
Definition ExtractTableLookup_on (keyMetaMap : gmap PublicKey CompiledKeyMeta)
    (lookupTable : solana.KeyedAddressLookupTable)
    (order1 order2 : list (PublicKey * CompiledKeyMeta))
    : option (solana.MessageAddressTableLookup * AccountKeysFromLookups)
      * gmap PublicKey CompiledKeyMeta :=
  let d1 := drainKeysFoundInLookupTable_on keyMetaMap
              (solana.Addresses lookupTable) writable_filter order1 in
  let d2 := drainKeysFoundInLookupTable_on (remaining d1)
              (solana.Addresses lookupTable) readonly_filter order2 in
  if bool_decide (lookupTableIndexes d1 = [] ∧ lookupTableIndexes d2 = []) then
    (None, remaining d2)
  else
    (Some ({| solana.AccountKey := solana.Key lookupTable;
              solana.WritableIndexes := lookupTableIndexes d1;
              solana.ReadonlyIndexes := lookupTableIndexes d2 |},
           {| Writable := drainedKeys d1; Readonly := drainedKeys d2 |}),
     remaining d2).

Definition ExtractTableLookup (keyMetaMap : gmap PublicKey CompiledKeyMeta)
    (lookupTable : solana.KeyedAddressLookupTable)
    (res : option (solana.MessageAddressTableLookup * AccountKeysFromLookups)
           * gmap PublicKey CompiledKeyMeta) : Prop :=
  ∃ order1 order2,
    map_range keyMetaMap order1 ∧
    map_range (remaining (drainKeysFoundInLookupTable_on keyMetaMap
                 (solana.Addresses lookupTable) writable_filter order1)) order2 ∧
    res = ExtractTableLookup_on keyMetaMap lookupTable order1 order2.

(** State of the loop over the lookup tables in [CompileToWrappedMessageV0]. *)
Record Extraction : Type := {
  addressTableLookups : list solana.MessageAddressTableLookup;
  accountKeysFromLookups : AccountKeysFromLookups;
  keys_left : gmap PublicKey CompiledKeyMeta
}.

Inductive extract_tables : Extraction → list solana.KeyedAddressLookupTable →
                           Extraction → Prop :=
  | extract_done st : extract_tables st [] st
  | extract_skip st lookupTable tables m' st' :
      ExtractTableLookup (keys_left st) lookupTable (None, m') →
      extract_tables {| addressTableLookups := addressTableLookups st;
                        accountKeysFromLookups := accountKeysFromLookups st;
                        keys_left := m' |} tables st' →
      extract_tables st (lookupTable :: tables) st'
  | extract_found st lookupTable tables lookup keys m' st' :
      ExtractTableLookup (keys_left st) lookupTable (Some (lookup, keys), m') →
      extract_tables
        {| addressTableLookups := addressTableLookups st ++ [lookup];
           accountKeysFromLookups :=
             {| Writable := Writable (accountKeysFromLookups st) ++ Writable keys;
                Readonly := Readonly (accountKeysFromLookups st) ++ Readonly keys |};
           keys_left := m' |} tables st' →
      extract_tables st (lookupTable :: tables) st'.

(** [accountIndexMap[key.String()] = index; index++] *)
Definition index_step (st : gmap PublicKey Z * Z) (key : PublicKey)
    : gmap PublicKey Z * Z :=
  (<[key := st.2]> st.1, uint16 (st.2 + 1)).

(** [accountIndexMap[k]] on a Go map: the zero value when [k] is absent. *)
Definition index_of (accountIndexMap : gmap PublicKey Z) (k : PublicKey) : Z :=
  default 0 (accountIndexMap !! k).

Definition CompileInstructions (mk : MessageAccountKeys)
    (instructions : list solana.Instruction) : list solana.CompiledInstruction :=
  let st := foldl index_step (∅, 0) (StaticAccountKeys mk) in
  let st := foldl index_step st (Writable (FromLookups mk)) in
  let st := foldl index_step st (Readonly (FromLookups mk)) in
  let accountIndexMap := st.1 in
  map (λ instruction,
         {| solana.ProgramIDIndex := index_of accountIndexMap (solana.ProgramID instruction);
            solana.CompiledInstruction_Accounts :=
              map (λ accountMeta,
                     index_of accountIndexMap (solana.AccountMeta_PublicKey accountMeta))
                  (solana.Accounts instruction);
            solana.CompiledInstruction_Data := solana.Data instruction |})
      instructions.

(** [CompileToWrappedMessageV0]: a relation, one result per choice of the map
    visits. *)
Definition CompileToWrappedMessageV0 (payerKey : PublicKey)
    (recentBlockhash : solana.Hash)
    (instructions : list solana.Instruction)
    (addressLookupTableAccounts : list solana.KeyedAddressLookupTable)
    (message : solana.Message) : Prop :=
  let compiledKeys := CompileKeys instructions payerKey in
  ∃ st header staticAccountKeys,
    extract_tables
      {| addressTableLookups := [];
         accountKeysFromLookups := {| Writable := []; Readonly := [] |};
         keys_left := KeyMetaMap compiledKeys |}
      addressLookupTableAccounts st ∧
    GetMessageComponents (NewCompiledKeys payerKey (keys_left st))
      (header, staticAccountKeys) ∧
    message =
      {| solana.Header := header;
         solana.AccountKeys := staticAccountKeys;
         solana.RecentBlockhash := recentBlockhash;
         solana.Instructions :=
           CompileInstructions
             {| StaticAccountKeys := staticAccountKeys;
                FromLookups := accountKeysFromLookups st |} instructions;
         solana.AddressTableLookups := addressTableLookups st;
         solana.version := solana.MessageVersionV0 |}.

(** The entries a drain removes, the map it leaves, and the map left after
    all the lookup tables. *)
Definition drains (lookupTableEntries : list PublicKey)
    (keyMetaFilter : CompiledKeyMeta → bool)
    (entry : PublicKey * CompiledKeyMeta) : Prop :=
  keyMetaFilter entry.2 = true ∧ is_Some (find_entry lookupTableEntries entry.1 0).

#[global] Instance drains_dec entries f e : Decision (drains entries f e).
Proof. unfold drains. apply _. Defined.

Definition after_drain (lookupTableEntries : list PublicKey)
    (keyMetaFilter : CompiledKeyMeta → bool)
    (m : gmap PublicKey CompiledKeyMeta) : gmap PublicKey CompiledKeyMeta :=
  filter (λ e, ¬ drains lookupTableEntries keyMetaFilter e) m.

Definition after_table (m : gmap PublicKey CompiledKeyMeta)
    (lookupTable : solana.KeyedAddressLookupTable) : gmap PublicKey CompiledKeyMeta :=
  after_drain (solana.Addresses lookupTable) readonly_filter
    (after_drain (solana.Addresses lookupTable) writable_filter m).

(** *** What the resolver is expected to compute, per address *)

(** Every listed account of every instruction, in order. *)
Definition listed (instructions : list solana.Instruction) : list solana.AccountMeta :=
  concat (map solana.Accounts instructions).

(** The occurrences of address [a] among the listed accounts. *)
Definition occurrences (a : PublicKey) (instructions : list solana.Instruction)
    : list solana.AccountMeta :=
  filter (λ am, solana.AccountMeta_PublicKey am = a) (listed instructions).

(** [a] is the payer, a program or a listed account. *)
Definition referenced (a payer : PublicKey) (instructions : list solana.Instruction)
    : Prop :=
  a = payer ∨ a ∈ map solana.ProgramID instructions ∨ occurrences a instructions ≠ [].

(** Effect on one entry of a run of updates that touched it ([t]) and ORed
    [s] and [w] into its flags. *)
Definition default_meta (o : option CompiledKeyMeta) : CompiledKeyMeta :=
  default {| IsSigner := false; IsWritable := false; IsInvoked := false |} o.

Definition agg (o : option CompiledKeyMeta) (t s w : bool) : option CompiledKeyMeta :=
  if t then Some {| IsSigner := IsSigner (default_meta o) || s;
                    IsWritable := IsWritable (default_meta o) || w;
                    IsInvoked := false |}
  else o.

Definition never_invoked (o : option CompiledKeyMeta) : Prop :=
  ∀ km, o = Some km → IsInvoked km = false.

Definition is_key (a : PublicKey) (am : solana.AccountMeta) : bool :=
  bool_decide (solana.AccountMeta_PublicKey am = a).

(** Instruction [ix] names [a] as its program or as a listed account. *)
Definition touches (a : PublicKey) (ix : solana.Instruction) : bool :=
  bool_decide (solana.ProgramID ix = a) || existsb (is_key a) (solana.Accounts ix).

(** The keys of a map that classify into bucket [c]. *)
Definition keys_in (c : Bucket) (m : gmap PublicKey CompiledKeyMeta) : list PublicKey :=
  (map_to_list (filter (λ e, bucket_of e.2 = c) m)).*1.

(** *** Sample inputs *)
Definition sample_key (n : Z) : PublicKey := replicate 32 n.

Definition sample_payer : PublicKey := sample_key 1.

(** One instruction of program 2 on the readonly accounts 3 and 4. *)
Definition sample_instruction : solana.Instruction :=
  {| solana.ProgramID := sample_key 2;
     solana.Accounts :=
       [ {| solana.AccountMeta_PublicKey := sample_key 3;
            solana.IsSigner := false; solana.IsWritable := false |};
         {| solana.AccountMeta_PublicKey := sample_key 4;
            solana.IsSigner := false; solana.IsWritable := false |} ];
     solana.Data := [9] |}.

(** One instruction of program 2 on 256 distinct readonly accounts, and the
    map the resolver builds for it. *)
Definition many_accounts_instruction : solana.Instruction :=
  {| solana.ProgramID := sample_key 2;
     solana.Accounts :=
       map (λ i, {| solana.AccountMeta_PublicKey := Z.of_nat i :: replicate 31 0;
                    solana.IsSigner := false; solana.IsWritable := false |})
           (seq 0 256);
     solana.Data := [] |}.

Definition many_keys : CompiledKeys :=
  CompileKeys [many_accounts_instruction] sample_payer.

Definition many_entries : list (PublicKey * CompiledKeyMeta) :=
  map_to_list (KeyMetaMap many_keys).

End Compiler.

(** ** The records of the generated package squads_multisig_program *)
Module squads.

(** Modelled from the spec: the generated declarations of the on-chain records
    (Multisig, Member, Permissions, Proposal, ProposalStatus, VaultTransaction,
    VaultTransactionMessage) and of the instruction builders are not among
    the sources; the fields below are those the sources read or set. *)
Record Permissions : Type := { Mask : Z (* uint8 *) }.

Record Member : Type := { Key : PublicKey; Permissions_of : Permissions }.

Record Multisig : Type := {
  Threshold : Z;                 (* uint16 *)
  TimeLock : Z;                  (* uint32, seconds *)
  TransactionIndex : Z;          (* uint64 *)
  Members : list Member
}.

(** The tagged status; every variant but [Executing] carries a Unix
    timestamp (int64, seconds). *)
Inductive ProposalStatus : Type :=
  | ProposalStatusDraft (Timestamp : Z)
  | ProposalStatusActive (Timestamp : Z)
  | ProposalStatusRejected (Timestamp : Z)
  | ProposalStatusApproved (Timestamp : Z)
  | ProposalStatusExecuting
  | ProposalStatusExecuted (Timestamp : Z)
  | ProposalStatusCancelled (Timestamp : Z).

Record Proposal : Type := {
  Status : ProposalStatus;
  Approved : list PublicKey;
  Rejected : list PublicKey;
  Cancelled : list PublicKey
}.

Record MultisigCompiledInstruction : Type := {
  ProgramIdIndex : Z;            (* uint8 *)
  AccountIndexes : list Z;       (* []byte *)
  Data : list Z
}.

Record MultisigMessageAddressTableLookup : Type := {
  AccountKey : PublicKey;
  WritableIndexes : list Z;
  ReadonlyIndexes : list Z
}.

Record VaultTransactionMessage : Type := {
  NumSigners : Z;                (* uint8 *)
  NumWritableSigners : Z;        (* uint8 *)
  NumWritableNonSigners : Z;     (* uint8 *)
  AccountKeys : list PublicKey;
  Instructions : list MultisigCompiledInstruction;
  AddressTableLookups : list MultisigMessageAddressTableLookup
}.

Record VaultTransaction : Type := { Message : VaultTransactionMessage }.

Record ProposalVoteArgs : Type := { Memo : option string }.

(** The instructions the orchestrator builds. [VaultTransactionExecute] has
    its four base accounts and the account metas appended to its
    [AccountMetaSlice]. *)
Inductive Instruction : Type :=
  | ProposalApprove (args : ProposalVoteArgs) (multisig member proposal : PublicKey)
  | ProposalReject (args : ProposalVoteArgs) (multisig member proposal : PublicKey)
  | ProposalCancelV2 (args : ProposalVoteArgs)
      (multisig member proposal systemProgram : PublicKey)
  | VaultTransactionExecute (multisig proposal transaction member : PublicKey)
      (appended : list solana.AccountMeta)
  | NilInstruction.

End squads.

(** ** Building the message of a transfer proposal (package multisigtransaction) *)
Module Propose.

(** [byte(value >> k)] *)
Definition byte_shr (value k : Z) : Z := uint8 (Z.shiftr value k).

Definition uint64ToLEBytes (value : Z) : list Z :=
  [ byte_shr value 0; byte_shr value 8; byte_shr value 16; byte_shr value 24;
    byte_shr value 32; byte_shr value 40; byte_shr value 48; byte_shr value 56 ].

(** The [VaultTransactionMessage] that [createTransactionMessageBytes(ix,
    vaultPDA, recipientPubkey, lamports)] builds and hands to the Borsh
    encoder of the binary library. *)
Definition createTransactionMessage (vaultPDA recipientPubkey : PublicKey)
    (lamports : Z) : squads.VaultTransactionMessage :=
  let accountKeys := [vaultPDA; recipientPubkey; solana.SystemProgramID] in
  {| squads.NumSigners := 1;
     squads.NumWritableSigners := 1;
     squads.NumWritableNonSigners := 1;
     squads.AccountKeys := accountKeys;
     squads.Instructions :=
       [ {| squads.ProgramIdIndex := 2;
            squads.AccountIndexes := [0; 1];
            squads.Data := [2; 0; 0; 0] ++ uint64ToLEBytes lamports |} ];
     squads.AddressTableLookups := [] |}.

(** The transfer instruction of [runCreateTransaction]. *)
Definition transferIx (vaultPDA recipientPubkey : PublicKey) (lamports : Z)
    : solana.Instruction :=
  {| solana.ProgramID := solana.SystemProgramID;
     solana.Accounts :=
       [ {| solana.AccountMeta_PublicKey := vaultPDA;
            solana.IsSigner := false; solana.IsWritable := true |};
         {| solana.AccountMeta_PublicKey := recipientPubkey;
            solana.IsSigner := false; solana.IsWritable := true |} ];
     solana.Data := [2; 0; 0; 0] ++ uint64ToLEBytes lamports |}.

(** Little-endian value of a byte list. *)
Fixpoint le_value (bytes : list Z) : Z :=
  match bytes with
  | [] => 0
  | b :: rest => b + 256 * le_value rest
  end.

Definition convertToUint8Slice (ints : list Z) : list Z := map uint8 ints.

(** The [TransactionMessage] built from a compiled message in
    [createTransactionMessageBytes(payer, instructions, recentBlockhash,
    addressLookupTableAccounts)]; the arithmetic is on [uint8]. *)
Definition to_TransactionMessage (compiledMessage : solana.Message)
    : Codec.TransactionMessage :=
  let h := solana.Header compiledMessage in
  {| Codec.NumSigners := uint8 (solana.NumRequiredSignatures h);
     Codec.NumWritableSigners :=
       uint8 (solana.NumRequiredSignatures h - solana.NumReadonlySignedAccounts h);
     Codec.NumWritableNonSigners :=
       uint8 (uint8 (len (solana.AccountKeys compiledMessage))
              - solana.NumRequiredSignatures h
              - solana.NumReadonlyUnsignedAccounts h);
     Codec.AccountKeys := solana.AccountKeys compiledMessage;
     Codec.Instructions :=
       map (λ v, {| Codec.ProgramIdIndex := uint8 (solana.ProgramIDIndex v);
                    Codec.AccountIndexes :=
                      convertToUint8Slice (solana.CompiledInstruction_Accounts v);
                    Codec.Data := solana.CompiledInstruction_Data v |})
           (solana.Instructions compiledMessage);
     Codec.AddressTableLookups :=
       map (λ v, {| Codec.AccountKey := solana.AccountKey v;
                    Codec.WritableIndexes := solana.WritableIndexes v;
                    Codec.ReadonlyIndexes := solana.ReadonlyIndexes v |})
           (solana.AddressTableLookups compiledMessage) |}.

(** [createTransactionMessageBytes]: compile, convert, encode; [(nil, err)]
    when the encoder fails. *)
Definition createTransactionMessageBytes (payer : PublicKey)
    (instructions : list solana.Instruction) (recentBlockhash : solana.Hash)
    (addressLookupTableAccounts : list solana.KeyedAddressLookupTable)
    (res : Codec.CodecError + list Z) : Prop :=
  ∃ compiledMessage,
    Compiler.CompileToWrappedMessageV0 payer recentBlockhash instructions
      addressLookupTableAccounts compiledMessage ∧
    res = match Codec.encode (to_TransactionMessage compiledMessage) with
          | (inr _, buf) => inr buf
          | (inl err, _) => inl err
          end.

(** The message [CompileToWrappedMessageV0] returns, without lookup tables,
    when [GetMessageComponents] visits the map in [order]. *)
Definition message_for_order (payerKey : PublicKey) (recentBlockhash : solana.Hash)
    (instructions : list solana.Instruction)
    (order : list (PublicKey * Compiler.CompiledKeyMeta)) : solana.Message :=
  let r := Compiler.GetMessageComponents_on order in
  {| solana.Header := r.1;
     solana.AccountKeys := r.2;
     solana.RecentBlockhash := recentBlockhash;
     solana.Instructions :=
       Compiler.CompileInstructions
         {| Compiler.StaticAccountKeys := r.2;
            Compiler.FromLookups :=
              {| Compiler.Writable := []; Compiler.Readonly := [] |} |} instructions;
     solana.AddressTableLookups := [];
     solana.version := solana.MessageVersionV0 |}.

Definition sample_hash : solana.Hash := replicate 32 5.

(** The entries of the sample map in the order in which [CompileKeys]
    inserts them: the payer, the program, the two accounts. *)
Definition sample_order : list (PublicKey * Compiler.CompiledKeyMeta) :=
  [ (Compiler.sample_key 1,
     {| Compiler.IsSigner := true; Compiler.IsWritable := true;
        Compiler.IsInvoked := false |});
    (Compiler.sample_key 2,
     {| Compiler.IsSigner := false; Compiler.IsWritable := false;
        Compiler.IsInvoked := false |});
    (Compiler.sample_key 3,
     {| Compiler.IsSigner := false; Compiler.IsWritable := false;
        Compiler.IsInvoked := false |});
    (Compiler.sample_key 4,
     {| Compiler.IsSigner := false; Compiler.IsWritable := false;
        Compiler.IsInvoked := false |}) ].

(** Two orders in which the range visits the sample map: the Go runtime
    ranges over a map of at most eight entries from a random slot on and
    wraps around, so the visits are the rotations of the insertion order.
    The first run starts at the payer, the second at the first account. *)
Definition sample_run1 : solana.Message :=
  message_for_order Compiler.sample_payer sample_hash [Compiler.sample_instruction]
    sample_order.

Definition sample_run2 : solana.Message :=
  message_for_order Compiler.sample_payer sample_hash [Compiler.sample_instruction]
    (rotate 2 sample_order).

Definition bytes_of (message : solana.Message) : list Z :=
  (Codec.encode (to_TransactionMessage message)).2.

End Propose.

(** ** Voting on and executing a proposal (package transaction) *)
Module Transaction.

(** An underlying cause reported by a collaborator (RPC node, signer, Borsh
    decoder). *)
Definition Cause : Type := string.

(** Go's [int64]: sums and products wrap around. *)
Definition int64 (x : Z) : Z := (x + 2 ^ 63) mod 2 ^ 64 - 2 ^ 63.

(** A [time.Time] without monotonic reading, as package time stores it: the
    whole seconds since 1 January of year 1 (an int64) and the nanoseconds
    within the second. *)
Record Time : Type := {
  Time_sec : Z;
  Time_nsec : Z
}.

(** [time.Second], a [time.Duration]: an int64 count of nanoseconds. *)
Definition second : Z := 1000000000.

(** The seconds from year 1 to the Unix epoch. *)
Definition unixToInternal : Z := 62135596800.

(** [time.Unix(sec, 0)]: the sum is an int64 sum. *)
Definition time_Unix (sec : Z) : Time :=
  {| Time_sec := int64 (sec + unixToInternal); Time_nsec := 0 |}.

(** [t.addSec(d)]: the int64 sum, saturated when it overflows. *)
Definition addSec (ext d : Z) : Z :=
  let sum := int64 (ext + d) in
  if bool_decide (bool_decide (sum > ext) = bool_decide (d > 0)) then sum
  else if bool_decide (d > 0) then 2 ^ 63 - 1
  else - (2 ^ 63 - 1).

(** [t.Add(d)]: [d / 1e9] and [d % 1e9] truncate toward zero. *)
Definition Time_Add (t : Time) (d : Z) : Time :=
  let dsec := Z.quot d second in
  let nsec := Time_nsec t + Z.rem d second in
  if bool_decide (nsec >= second) then
    {| Time_sec := addSec (Time_sec t) (dsec + 1); Time_nsec := nsec - second |}
  else if bool_decide (nsec < 0) then
    {| Time_sec := addSec (Time_sec t) (dsec - 1); Time_nsec := nsec + second |}
  else {| Time_sec := addSec (Time_sec t) dsec; Time_nsec := nsec |}.

(** [t.Before(u)], [u] without monotonic reading: seconds, then nanoseconds. *)
Definition Time_Before (t u : Time) : bool :=
  bool_decide (Time_sec t < Time_sec u)
  || (bool_decide (Time_sec t = Time_sec u) && bool_decide (Time_nsec t < Time_nsec u)).

(** One constructor per [fmt.Errorf] of the two functions, with the values it
    formats; [Panic] is a nil dereference, or [PublicKey()] called on a
    private key that is not valid. *)
Inductive Error : Type :=
  | ErrInvalidAction (action : string)
  | ErrWsConnect (cause : Cause)
  | ErrFetchMultisigAccount (cause : Cause)
  | ErrMultisigNotFound (multisig : PublicKey)
  | ErrFetchProposalAccount (cause : Cause)
  | ErrProposalNotFound (proposalPDA : PublicKey)
  | ErrGetLatestBlockhash (cause : Cause)
  | ErrCreateVotingTransaction (cause : Cause)
  | ErrSignTransaction (cause : Cause)
  | ErrSendVotingTransaction (cause : Cause)
  | ErrFetchMultisig (e : Error)
  | ErrFetchProposal (e : Error)
  | ErrGetAccount (cause : Cause)
  | ErrDecodeAccount (cause : Cause)
  | ErrNotApproved (status : string)
  | ErrTimelockNotElapsed (timelockEnd : Time)
  | ErrNoExecutePermission (executor : PublicKey)
  | ErrGetTransactionAccount (cause : Cause)
  | ErrTransactionAccountInvalid (txPDA : PublicKey)
  | ErrDecodeVaultTransaction (cause : Cause)
  | ErrNoInstructions
  | ErrCreateExecutionTransaction (cause : Cause)
  | ErrExecuteTransaction (cause : Cause)
  | Panic.

Record Transaction : Type := {
  tx_instructions : list squads.Instruction;
  tx_blockhash : solana.Hash;
  tx_payer : PublicKey;
  tx_signers : list PublicKey
}.

(** What reaches the network. *)
Inductive Event : Type :=
  | EvWsConnect
  | EvWsClose
  | EvGetAccountInfo (address : PublicKey)
  | EvGetLatestBlockhash
  | EvSendTransaction (tx : Transaction).

(** The collaborators: the RPC node behind the client in use (the caller's,
    or the default main-net one when the caller passes nil), the clock, and
    the code of this repository that is not among the sources (PDA
    derivation of pkg/multisig, generated Borsh decoders), and the curve test
    of the key library.  An account is its binary data; [None] is a response
    whose [Value] is nil. *)
Record Env : Type := {
  ws_Connect : Cause + unit;
  GetAccountInfo : PublicKey → Cause + option (list Z);
  GetLatestBlockhash : Cause + solana.Hash;
  SendTransaction : Transaction → Cause + string;
  NewTransaction : list squads.Instruction → solana.Hash → PublicKey → Cause + Transaction;
  Sign : Transaction → PublicKey → Cause + Transaction;
  (** the wall clock read by [time.Now()], in nanoseconds since the Unix
      epoch *)
  Now : Z;
  (** [solana.IsOnCurve]: the 32 bytes are a point of the ed25519 curve *)
  IsOnCurve : PublicKey → bool;
  GetTransactionPDA : PublicKey → Z → PublicKey;
  GetProposalPDA : PublicKey → Z → PublicKey;
  Multisig_Unmarshal : list Z → Cause + squads.Multisig;
  Proposal_Unmarshal : list Z → Cause + squads.Proposal;
  VaultTransaction_Unmarshal : list Z → Cause + squads.VaultTransaction
}.

(** A run returns a value or an error, and the events it caused, in order. *)
Definition Run (A : Type) : Type := (Error + A) * list Event.

Definition run_ret {A} (a : A) : Run A := (inr a, []).
Definition throw {A} (e : Error) : Run A := (inl e, []).
Definition run_bind {A B} (m : Run A) (k : A → Run B) : Run B :=
  match m with
  | (inl e, t) => (inl e, t)
  | (inr a, t) => let '(r, t') := k a in (r, t ++ t')
  end.

Notation "'let*' x ':=' m 'in' k" := (run_bind m (λ x, k))
  (at level 10, x name, m at level 100, k at level 200, only parsing).

(** A call to a collaborator: the event, then its answer, the error wrapped
    as the caller does. *)
Definition call {A} (ev : list Event) (answer : Cause + A) (wrap : Cause → Error)
    : Run A :=
  match answer with
  | inl cause => (inl (wrap cause), ev)
  | inr a => (inr a, ev)
  end.

(** [defer func() { if wsClientCreated { wsClient.Close() } }()] around the
    rest of the function. *)
Definition deferred_close {A} (body : Run A) : Run A :=
  (body.1, body.2 ++ [EvWsClose]).

(** The web-socket client: the caller's, or a new connection closed on return. *)
Definition with_ws_client {A} (env : Env) (has_ws_client : bool) (body : Run A)
    : Run A :=
  if has_ws_client then body
  else let* _ := call [EvWsConnect] (ws_Connect env) ErrWsConnect in
       deferred_close body.

(** [ed25519.PrivateKey(k).Public()] of a 64-byte key: its last 32 bytes. *)
Definition ed25519_Public (k : list Z) : PublicKey := drop 32 k.

(** [k.Validate()]: the key has 64 bytes and its public half is on the curve.
    [LoadKeypair] returns the bytes of the key file without this check. *)
Definition PrivateKey_Validate (env : Env) (k : list Z) : bool :=
  bool_decide (length k = 64%nat) && IsOnCurve env (ed25519_Public k).

(** [k.PublicKey()]: panics when [k.Validate()] fails, else the public half. *)
Definition PrivateKey_PublicKey (env : Env) (k : list Z) : Run PublicKey :=
  if PrivateKey_Validate env k then run_ret (ed25519_Public k) else throw Panic.

(** [time.Now()], as [Before] reads it: wall-clock seconds and nanoseconds. *)
Definition time_Now (env : Env) : Time :=
  {| Time_sec := Now env / second + unixToInternal; Time_nsec := Now env mod second |}.

Record ProposalVoteInput : Type := {
  Multisig : PublicKey;
  TransactionIndex : Z;          (* uint64 *)
  Voter : list Z;                (* solana.PrivateKey *)
  Memo : string;
  Action : string;
  has_Client : bool;             (* Client != nil *)
  has_WsClient : bool            (* WsClient != nil *)
}.

Record ProposalVoteOutput : Type := {
  Signature : string;
  ProposalPDA : PublicKey;
  Output_Action : string
}.

(** The [switch action] that selects the instruction. *)
Definition votingIx (action : string) (args : squads.ProposalVoteArgs)
    (multisig voter proposalPDA : PublicKey) : squads.Instruction :=
  if decide (action = "approve") then
    squads.ProposalApprove args multisig voter proposalPDA
  else if decide (action = "reject") then
    squads.ProposalReject args multisig voter proposalPDA
  else if decide (action = "cancel") then
    squads.ProposalCancelV2 args multisig voter proposalPDA solana.SystemProgramID
  else squads.NilInstruction.

(** [info.Value == nil || len(info.Value.Data.GetBinary()) == 0] *)
Definition not_initialized (info : option (list Z)) : bool :=
  match info with
  | None => true
  | Some data => bool_decide (length data = 0%nat)
  end.

(** [VoteOnProposal] from the derivation of the proposal address on, for the
    validated [action].  [input.Voter.PublicKey()] is first called in the
    [switch] that builds the instruction, after the two account checks; the
    later calls are on the same key. *)
Definition submit_vote (env : Env) (input : ProposalVoteInput) (action : string)
    : Run ProposalVoteOutput :=
  let proposalPDA := GetProposalPDA env (Multisig input) (TransactionIndex input) in
  let* multisigInfo :=
    call [EvGetAccountInfo (Multisig input)]
         (GetAccountInfo env (Multisig input)) ErrFetchMultisigAccount in
  if not_initialized multisigInfo then throw (ErrMultisigNotFound (Multisig input))
  else
  let* proposalInfo :=
    call [EvGetAccountInfo proposalPDA]
         (GetAccountInfo env proposalPDA) ErrFetchProposalAccount in
  if not_initialized proposalInfo then throw (ErrProposalNotFound proposalPDA)
  else
  let proposalVoteArgs :=
    {| squads.Memo := if decide (Memo input = "") then None else Some (Memo input) |} in
  let* voter := PrivateKey_PublicKey env (Voter input) in
  let ix := votingIx action proposalVoteArgs (Multisig input) voter proposalPDA in
  let* hash :=
    call [EvGetLatestBlockhash] (GetLatestBlockhash env) ErrGetLatestBlockhash in
  let* tx := call [] (NewTransaction env [ix] hash voter) ErrCreateVotingTransaction in
  let* tx := call [] (Sign env tx voter) ErrSignTransaction in
  let* sig := call [EvSendTransaction tx] (SendTransaction env tx)
                   ErrSendVotingTransaction in
  run_ret {| Signature := sig; ProposalPDA := proposalPDA; Output_Action := action |}.

Definition VoteOnProposal (env : Env) (input : ProposalVoteInput)
    : Run ProposalVoteOutput :=
  let action := Action input in
  let action := if decide (action = "") then "approve" else action in
  if decide (action ≠ "approve" ∧ action ≠ "reject" ∧ action ≠ "cancel") then
    throw (ErrInvalidAction action)
  else
    with_ws_client env (has_WsClient input) (submit_vote env input action).

(** [fetchMultisigAccount] and [fetchProposalAccount]: the account is read
    with no nil check before its data is decoded. *)
Definition fetchAccount {A} (env : Env) (unmarshal : list Z → Cause + A)
    (pda : PublicKey) : Run A :=
  let* accountInfo :=
    call [EvGetAccountInfo pda] (GetAccountInfo env pda) ErrGetAccount in
  match accountInfo with
  | None => throw Panic
  | Some data => call [] (unmarshal data) ErrDecodeAccount
  end.

Definition fetchMultisigAccount (env : Env) (multisigPDA : PublicKey)
    : Run squads.Multisig :=
  fetchAccount env (Multisig_Unmarshal env) multisigPDA.

Definition fetchProposalAccount (env : Env) (proposalPDA : PublicKey)
    : Run squads.Proposal :=
  fetchAccount env (Proposal_Unmarshal env) proposalPDA.

(** [getProposalStatusString], the timestamp left unformatted. *)
Definition getProposalStatusString (status : squads.ProposalStatus) : string :=
  match status with
  | squads.ProposalStatusDraft _ => "Draft"
  | squads.ProposalStatusActive _ => "Active"
  | squads.ProposalStatusRejected _ => "Rejected"
  | squads.ProposalStatusApproved _ => "Approved"
  | squads.ProposalStatusExecuting => "Executing"
  | squads.ProposalStatusExecuted _ => "Executed"
  | squads.ProposalStatusCancelled _ => "Cancelled"
  end.

(** The loop over [multisigAccount.Members] that looks for the executor with
    the execute bit. *)
Fixpoint hasExecutePermission (members : list squads.Member) (executor : PublicKey)
    : bool :=
  match members with
  | [] => false
  | member :: rest =>
      if decide (squads.Key member = executor) then
        if decide (Z.land (squads.Mask (squads.Permissions_of member)) 4 ≠ 0) then true
        else hasExecutePermission rest executor
      else hasExecutePermission rest executor
  end.

(** [approvalTime.Add(time.Duration(TimeLock) * time.Second)] for
    [approvalTime := time.Unix(Timestamp, 0)]; the product is an int64
    product. *)
Definition timelockEnd_of (Timestamp TimeLock : Z) : Time :=
  Time_Add (time_Unix Timestamp) (int64 (TimeLock * second)).

(** The three checks of [ExecuteProposal], in the order of the source; on
    success, nothing.  [executor.PublicKey()] is first called after the
    time-lock check: in the first round of the loop over the members, or,
    without members, in the arguments of the error. *)
Definition check_executable (env : Env) (multisigAccount : squads.Multisig)
    (proposal : squads.Proposal) (executor : list Z) : Run unit :=
  match squads.Status proposal with
  | squads.ProposalStatusApproved Timestamp =>
      let timelockEnd := timelockEnd_of Timestamp (squads.TimeLock multisigAccount) in
      if Time_Before (time_Now env) timelockEnd
         && bool_decide (squads.TimeLock multisigAccount > 0)
      then throw (ErrTimelockNotElapsed timelockEnd)
      else
      let* executorKey := PrivateKey_PublicKey env executor in
      if negb (hasExecutePermission (squads.Members multisigAccount) executorKey)
      then throw (ErrNoExecutePermission executorKey)
      else run_ret tt
  | status => throw (ErrNotApproved (getProposalStatusString status))
  end.

(** The writable flag the loop over [additionalAccounts] gives position [i]
    (arithmetic on Go [int]). *)
Definition isWritable (message : squads.VaultTransactionMessage) (i : Z) : bool :=
  if bool_decide (i < squads.NumWritableSigners message) then true
  else if bool_decide (i - squads.NumSigners message
                       < squads.NumWritableNonSigners message) then true
  else false.

(** The account metas appended to the execute instruction, in stored order. *)
Definition additionalAccountMetas (message : squads.VaultTransactionMessage)
    : list solana.AccountMeta :=
  imap (λ i accountKey,
          {| solana.AccountMeta_PublicKey := accountKey;
             solana.IsSigner := false;
             solana.IsWritable := isWritable message (Z.of_nat i) |})
       (squads.AccountKeys message).

Record ProposalExecuteOutput : Type := {
  Execute_Signature : string;
  TransactionPDA : PublicKey;
  Execute_ProposalPDA : PublicKey;
  Execute_TransactionIndex : Z
}.

Record ExecuteInput : Type := {
  multisigPDA : PublicKey;
  transactionIndex : Z;          (* uint64 *)
  executor : list Z;             (* solana.PrivateKey *)
  has_client : bool;
  has_wsClient : bool
}.

(** [txAccountInfo.Value == nil || len(data) < 8] *)
Definition invalid_transaction_account (info : option (list Z)) : bool :=
  match info with
  | None => true
  | Some data => bool_decide (length data < 8)%nat
  end.

(** The errors of the two fetches, wrapped as [ExecuteProposal] does. *)
Definition wrap_error {A} (wrap : Error → Error) (r : Run A) : Run A :=
  match r with
  | (inl e, t) => (inl (wrap e), t)
  | r => r
  end.

(** [ExecuteProposal] from the fetch of the transaction account on. *)
Definition submit_execute (env : Env) (input : ExecuteInput)
    : Run ProposalExecuteOutput :=
  let txPDA := GetTransactionPDA env (multisigPDA input) (transactionIndex input) in
  let proposalPDA := GetProposalPDA env (multisigPDA input) (transactionIndex input) in
  let* txAccountInfo :=
    call [EvGetAccountInfo txPDA] (GetAccountInfo env txPDA)
         ErrGetTransactionAccount in
  if invalid_transaction_account txAccountInfo
  then throw (ErrTransactionAccountInvalid txPDA)
  else
  let* vaultTx :=
    call [] (VaultTransaction_Unmarshal env (default [] txAccountInfo))
         ErrDecodeVaultTransaction in
  if bool_decide (length (squads.Instructions (squads.Message vaultTx)) = 0%nat)
  then throw ErrNoInstructions
  else
  let* executorKey := PrivateKey_PublicKey env (executor input) in
  let executeIx :=
    squads.VaultTransactionExecute (multisigPDA input) proposalPDA txPDA executorKey
      (additionalAccountMetas (squads.Message vaultTx)) in
  let* hash :=
    call [EvGetLatestBlockhash] (GetLatestBlockhash env) ErrGetLatestBlockhash in
  let* tx := call [] (NewTransaction env [executeIx] hash executorKey)
                  ErrCreateExecutionTransaction in
  let* tx := call [] (Sign env tx executorKey) ErrSignTransaction in
  let* sig := call [EvSendTransaction tx] (SendTransaction env tx)
                   ErrExecuteTransaction in
  run_ret {| Execute_Signature := sig;
         TransactionPDA := txPDA;
         Execute_ProposalPDA := proposalPDA;
         Execute_TransactionIndex := transactionIndex input |}.

Definition ExecuteProposal (env : Env) (input : ExecuteInput)
    : Run ProposalExecuteOutput :=
  with_ws_client env (has_wsClient input) (
    let proposalPDA := GetProposalPDA env (multisigPDA input) (transactionIndex input) in
    let* multisigAccount :=
      wrap_error ErrFetchMultisig (fetchMultisigAccount env (multisigPDA input)) in
    let* proposal :=
      wrap_error ErrFetchProposal (fetchProposalAccount env proposalPDA) in
    let* _ := check_executable env multisigAccount proposal (executor input) in
    submit_execute env input).

(** A run that submitted a transaction. *)
Definition submitted {A} (r : Run A) : Prop :=
  ∃ tx, EvSendTransaction tx ∈ r.2.

(** The web-socket client is available: passed in, or the connection succeeds. *)
Definition ws_ok (env : Env) (has_ws : bool) : Prop :=
  has_ws = true ∨ ∃ u, ws_Connect env = inr u.

(** *** The legality rules of the specification, section 4.5 *)

(** Approve and reject only while Active, cancel while Active or Approved. *)
Definition status_allows (action : string) (status : squads.ProposalStatus) : Prop :=
  match status with
  | squads.ProposalStatusActive _ =>
      action = "approve" ∨ action = "reject" ∨ action = "cancel"
  | squads.ProposalStatusApproved _ => action = "cancel"
  | _ => False
  end.

Definition already_voted (proposal : squads.Proposal) (member : PublicKey) : Prop :=
  member ∈ squads.Approved proposal ++ squads.Rejected proposal
           ++ squads.Cancelled proposal.

Definition vote_legal (action : string) (proposal : squads.Proposal)
    (member : PublicKey) : Prop :=
  status_allows action (squads.Status proposal) ∧ ¬ already_voted proposal member.

(** The proposal record stored at [proposalPDA]. *)
Definition stored_proposal (env : Env) (proposalPDA : PublicKey)
    (proposal : squads.Proposal) : Prop :=
  ∃ data, GetAccountInfo env proposalPDA = inr (Some data) ∧
          Proposal_Unmarshal env data = inr proposal.

(** Some entry of the executor in the member list has the execute bit. *)
Definition has_execute_bit (multisigAccount : squads.Multisig) (executor : PublicKey)
    : Prop :=
  ∃ member, member ∈ squads.Members multisigAccount ∧
            squads.Key member = executor ∧
            Z.land (squads.Mask (squads.Permissions_of member)) 4 ≠ 0.

(** The execute preconditions as the specification words them. *)
Definition executable_by_spec (env : Env) (multisigAccount : squads.Multisig)
    (proposal : squads.Proposal) (executor : PublicKey) : Prop :=
  ∃ approvedTimestamp,
    squads.Status proposal = squads.ProposalStatusApproved approvedTimestamp ∧
    (approvedTimestamp + squads.TimeLock multisigAccount) * second ≤ Now env ∧
    has_execute_bit multisigAccount executor.

(** The execute preconditions as the source checks them: the clock is
    consulted only for a positive time-lock, the time-lock end is computed
    by package time, and the executor's key pair has to be valid. *)
Definition executable (env : Env) (multisigAccount : squads.Multisig)
    (proposal : squads.Proposal) (executor : list Z) : Prop :=
  ∃ approvedTimestamp,
    squads.Status proposal = squads.ProposalStatusApproved approvedTimestamp ∧
    (squads.TimeLock multisigAccount > 0 →
     Time_Before (time_Now env)
       (timelockEnd_of approvedTimestamp (squads.TimeLock multisigAccount)) = false) ∧
    PrivateKey_Validate env executor = true ∧
    has_execute_bit multisigAccount (ed25519_Public executor).

(** The timestamps for which the time arithmetic of package time does not
    overflow: the time-lock is a uint32, and the approval time and the
    time-lock end are int64 counts of seconds since year 1. *)
Definition time_in_range (approvedTimestamp timeLock : Z) : Prop :=
  0 ≤ timeLock < 2 ^ 32 ∧
  - 2 ^ 63 ≤ approvedTimestamp + unixToInternal ∧
  approvedTimestamp + unixToInternal + timeLock < 2 ^ 63.

(** *** A sample environment: every call succeeds, every account holds eight
    bytes, every public half is on the curve, and the three decoders return
    the given records. *)
Definition sample_pda (tag : Z) (multisig : PublicKey) (index : Z) : PublicKey :=
  tag :: index :: take 30 multisig.

Definition sample_env (m : squads.Multisig) (p : squads.Proposal)
    (v : squads.VaultTransaction) (now : Z) : Env :=
  {| ws_Connect := inr tt;
     GetAccountInfo := λ _, inr (Some (replicate 8 0));
     GetLatestBlockhash := inr (replicate 32 7);
     SendTransaction := λ _, inr "signature";
     NewTransaction := λ ixs hash payer,
       inr {| tx_instructions := ixs; tx_blockhash := hash;
              tx_payer := payer; tx_signers := [] |};
     Sign := λ tx key,
       inr {| tx_instructions := tx_instructions tx; tx_blockhash := tx_blockhash tx;
              tx_payer := tx_payer tx; tx_signers := [key] |};
     Now := now;
     IsOnCurve := λ _, true;
     GetTransactionPDA := sample_pda 1;
     GetProposalPDA := sample_pda 2;
     Multisig_Unmarshal := λ _, inr m;
     Proposal_Unmarshal := λ _, inr p;
     VaultTransaction_Unmarshal := λ _, inr v |}.

Definition key_of (n : Z) : PublicKey := replicate 32 n.

(** A private key whose public half is [key_of n]. *)
Definition private_key_of (n : Z) : list Z := replicate 32 0 ++ key_of n.

Definition sample_multisig (timeLock : Z) (mask : Z) : squads.Multisig :=
  {| squads.Threshold := 1; squads.TimeLock := timeLock;
     squads.TransactionIndex := 1;
     squads.Members := [ {| squads.Key := key_of 1;
                            squads.Permissions_of := {| squads.Mask := mask |} |} ] |}.

(** A stored message with two signers, one of them writable, and one writable
    non-signer: position 1 is a readonly signer. *)
Definition sample_stored_message : squads.VaultTransactionMessage :=
  {| squads.NumSigners := 2;
     squads.NumWritableSigners := 1;
     squads.NumWritableNonSigners := 1;
     squads.AccountKeys := [key_of 10; key_of 11; key_of 12; key_of 13];
     squads.Instructions :=
       [ {| squads.ProgramIdIndex := 3; squads.AccountIndexes := [0; 1; 2];
            squads.Data := [] |} ];
     squads.AddressTableLookups := [] |}.

Definition sample_vault_transaction : squads.VaultTransaction :=
  {| squads.Message := sample_stored_message |}.

Definition sample_proposal (status : squads.ProposalStatus)
    (approved : list PublicKey) : squads.Proposal :=
  {| squads.Status := status; squads.Approved := approved;
     squads.Rejected := []; squads.Cancelled := [] |}.

Definition sample_execute_input : ExecuteInput :=
  {| multisigPDA := key_of 9; transactionIndex := 1; executor := private_key_of 1;
     has_client := true; has_wsClient := true |}.

Definition sample_vote_input (action : string) : ProposalVoteInput :=
  {| Multisig := key_of 9; TransactionIndex := 1; Voter := private_key_of 1;
     Memo := ""; Action := action; has_Client := true; has_WsClient := true |}.

(** The bytes of a key file that holds three numbers: [LoadKeypair] returns
    them as a private key. *)
Definition sample_short_key : list Z := [1; 2; 3].

Definition short_key_execute_input : ExecuteInput :=
  {| multisigPDA := key_of 9; transactionIndex := 1; executor := sample_short_key;
     has_client := true; has_wsClient := true |}.

Definition short_key_vote_input : ProposalVoteInput :=
  {| Multisig := key_of 9; TransactionIndex := 1; Voter := sample_short_key;
     Memo := ""; Action := "approve"; has_Client := true; has_WsClient := true |}.

Definition with_Action (input : ProposalVoteInput) (action : string)
    : ProposalVoteInput :=
  {| Multisig := Multisig input; TransactionIndex := TransactionIndex input;
     Voter := Voter input; Memo := Memo input; Action := action;
     has_Client := has_Client input; has_WsClient := has_WsClient input |}.

(** The same collaborators with other decoders. *)
Definition with_decoders (env : Env)
    (multisig_Unmarshal : list Z → Cause + squads.Multisig)
    (proposal_Unmarshal : list Z → Cause + squads.Proposal)
    (vaultTransaction_Unmarshal : list Z → Cause + squads.VaultTransaction) : Env :=
  {| ws_Connect := ws_Connect env;
     GetAccountInfo := GetAccountInfo env;
     GetLatestBlockhash := GetLatestBlockhash env;
     SendTransaction := SendTransaction env;
     NewTransaction := NewTransaction env;
     Sign := Sign env;
     Now := Now env;
     IsOnCurve := IsOnCurve env;
     GetTransactionPDA := GetTransactionPDA env;
     GetProposalPDA := GetProposalPDA env;
     Multisig_Unmarshal := multisig_Unmarshal;
     Proposal_Unmarshal := proposal_Unmarshal;
     VaultTransaction_Unmarshal := vaultTransaction_Unmarshal |}.

Definition valid_action (action : string) : Prop :=
  action = "approve" ∨ action = "reject" ∨ action = "cancel".

(** The position-wise partition invariant of a stored message. *)
Definition writable_by_partition (message : squads.VaultTransactionMessage) (i : Z)
    : Prop :=
  i < squads.NumWritableSigners message ∨
  (squads.NumSigners message ≤ i
   < squads.NumSigners message + squads.NumWritableNonSigners message).

End Transaction.

(** ** Well-typed byte streams and messages of the codec *)
Module CodecSpec.
Import Codec.

(** A Go [[]byte]: every element is a byte. *)
Definition bytes_ok (s : list Z) : Prop := Forall (λ b, 0 ≤ b < 256) s.

(** A Go value of the three message types: the [uint8] fields and the
    elements of the byte slices are bytes, a [PublicKey] has 32 of them. *)
Definition key_typed (k : PublicKey) : Prop := length k = 32%nat ∧ bytes_ok k.

Definition instruction_typed (ci : CompiledInstruction) : Prop :=
  0 ≤ ProgramIdIndex ci < 256 ∧ bytes_ok (AccountIndexes ci) ∧ bytes_ok (Data ci).

Definition lookup_typed (l : MessageAddressTableLookup) : Prop :=
  key_typed (AccountKey l) ∧ bytes_ok (WritableIndexes l) ∧ bytes_ok (ReadonlyIndexes l).

Definition message_typed (tm : TransactionMessage) : Prop :=
  0 ≤ NumSigners tm < 256 ∧ 0 ≤ NumWritableSigners tm < 256 ∧
  0 ≤ NumWritableNonSigners tm < 256 ∧
  Forall key_typed (AccountKeys tm) ∧
  Forall instruction_typed (Instructions tm) ∧
  Forall lookup_typed (AddressTableLookups tm).

(** The message of the package's test with 256 account keys. *)
Definition long_message : TransactionMessage :=
  {| NumSigners := 1; NumWritableSigners := 1; NumWritableNonSigners := 0;
     AccountKeys := replicate 256 (test_key 6);
     Instructions := [];
     AddressTableLookups := [] |}.

End CodecSpec.

(** ** Reading a compiled message back *)
Module CompilerSpec.
Import Compiler.

(** The combined key order the instructions are compiled against: static
    keys, then the writable and the readonly keys taken from lookup tables. *)
Definition combined (mk : MessageAccountKeys) : list PublicKey :=
  StaticAccountKeys mk ++ Writable (FromLookups mk) ++ Readonly (FromLookups mk).

(** Index [index] designates [address] in the key list. *)
Definition resolves (keys : list PublicKey) (address : PublicKey) (index : Z) : Prop :=
  0 ≤ index ∧ keys !! Z.to_nat index = Some address.

(** An instruction and its compiled form designate the same program and the
    same accounts in [keys], and carry the same payload. *)
Definition compiled_as (keys : list PublicKey) (ix : solana.Instruction)
    (ci : solana.CompiledInstruction) : Prop :=
  resolves keys (solana.ProgramID ix) (solana.ProgramIDIndex ci) ∧
  Forall2 (λ am index, resolves keys (solana.AccountMeta_PublicKey am) index)
          (solana.Accounts ix) (solana.CompiledInstruction_Accounts ci) ∧
  solana.CompiledInstruction_Data ci = solana.Data ix.

(** The same for the instruction of a [TransactionMessage]. *)
Definition encoded_as (keys : list PublicKey) (ix : solana.Instruction)
    (ci : Codec.CompiledInstruction) : Prop :=
  resolves keys (solana.ProgramID ix) (Codec.ProgramIdIndex ci) ∧
  Forall2 (λ am index, resolves keys (solana.AccountMeta_PublicKey am) index)
          (solana.Accounts ix) (Codec.AccountIndexes ci) ∧
  Codec.Data ci = solana.Data ix.

(** Signer and writable flags of position [i] as the three counts of a
    [TransactionMessage] partition the account keys. *)
Definition signer_at (tm : Codec.TransactionMessage) (i : Z) : Prop :=
  i < Codec.NumSigners tm.

Definition writable_at (tm : Codec.TransactionMessage) (i : Z) : Prop :=
  i < Codec.NumWritableSigners tm ∨
  (Codec.NumSigners tm ≤ i < Codec.NumSigners tm + Codec.NumWritableNonSigners tm).

(** The addresses a lookup designates in one of the tables: those its
    writable and its readonly indexes resolve to. *)
Definition loads (tables : list solana.KeyedAddressLookupTable)
    (lookup : solana.MessageAddressTableLookup) (keys : AccountKeysFromLookups) : Prop :=
  ∃ table, table ∈ tables ∧ solana.Key table = solana.AccountKey lookup ∧
    Forall2 (resolves (solana.Addresses table)) (Writable keys)
            (solana.WritableIndexes lookup) ∧
    Forall2 (resolves (solana.Addresses table)) (Readonly keys)
            (solana.ReadonlyIndexes lookup).

(** Key [key] was visited in [order], passed the filter and was found in the
    table at the position that [index] holds as a uint8. *)
Definition drained_by (entries : list PublicKey) (f : CompiledKeyMeta → bool)
    (order : list (PublicKey * CompiledKeyMeta)) (key : PublicKey) (index : Z) : Prop :=
  ∃ i meta, (key, meta) ∈ order ∧ f meta = true ∧
            find_entry entries key 0 = Some i ∧ index = uint8 i.

(** What the loop over the lookup tables keeps true of its state, for the
    map [m0] it started from: the keys extracted so far and the keys left are
    the keys of [m0], the entries left are entries of [m0], and no signer
    entry was extracted. *)
Definition keys_inv (m0 : gmap PublicKey CompiledKeyMeta) (st : Extraction) : Prop :=
  (Writable (accountKeysFromLookups st) ++ Readonly (accountKeysFromLookups st))
    ++ (map_to_list (keys_left st)).*1 ≡ₚ (map_to_list m0).*1 ∧
  keys_left st ⊆ m0 ∧
  (∀ a meta, m0 !! a = Some meta → IsSigner meta = true →
             keys_left st !! a = Some meta).

(** The lookups collected so far load, table by table, the keys collected so
    far. *)
Definition loads_inv (tables : list solana.KeyedAddressLookupTable)
    (st : Extraction) (loaded : list AccountKeysFromLookups) : Prop :=
  Forall2 (loads tables) (addressTableLookups st) loaded ∧
  Writable (accountKeysFromLookups st) = concat (Writable <$> loaded) ∧
  Readonly (accountKeysFromLookups st) = concat (Readonly <$> loaded).

(** Address [k] has an entry with these signer and writable flags. *)
Definition has_flags (m : gmap PublicKey CompiledKeyMeta) (signer writable : bool)
    (k : PublicKey) : Prop :=
  ∃ meta, m !! k = Some meta ∧ IsSigner meta = signer ∧ IsWritable meta = writable.

(** The state before the first lookup table. *)
Definition initial_extraction (m : gmap PublicKey CompiledKeyMeta) : Extraction :=
  {| addressTableLookups := [];
     accountKeysFromLookups := {| Writable := []; Readonly := [] |};
     keys_left := m |}.

(** The keys of a map, in the order of [map_to_list]. *)
Definition keys_of (m : gmap PublicKey CompiledKeyMeta) : list PublicKey :=
  (map_to_list m).*1.

(** A lookup table holding the sample accounts 3 and 4 after another address,
    and key lists that name them as loaded from it. *)
Definition sample_table : solana.KeyedAddressLookupTable :=
  {| solana.Key := sample_key 8;
     solana.Addresses := [sample_key 7; sample_key 3; sample_key 4] |}.

Definition sample_account_keys : MessageAccountKeys :=
  {| StaticAccountKeys := [sample_key 1; sample_key 2];
     FromLookups := {| Writable := [sample_key 3]; Readonly := [sample_key 4] |} |}.

(** The message compiled for the sample instruction with [sample_table], when
    every map visit follows [map_to_list]. *)
Definition sample_table_run : solana.Message :=
  let m := KeyMetaMap (CompileKeys [sample_instruction] sample_payer) in
  let o1 := map_to_list m in
  let o2 := map_to_list (remaining (drainKeysFoundInLookupTable_on m
              (solana.Addresses sample_table) writable_filter o1)) in
  let x := ExtractTableLookup_on m sample_table o1 o2 in
  let r := GetMessageComponents_on (map_to_list x.2) in
  let found := from_option (λ p, ([p.1], p.2))
                 ([], {| Writable := []; Readonly := [] |}) x.1 in
  {| solana.Header := r.1;
     solana.AccountKeys := r.2;
     solana.RecentBlockhash := Propose.sample_hash;
     solana.Instructions :=
       CompileInstructions {| StaticAccountKeys := r.2; FromLookups := found.2 |}
         [sample_instruction];
     solana.AddressTableLookups := found.1;
     solana.version := solana.MessageVersionV0 |}.

End CompilerSpec.

(** ** The two ways a transfer message is built *)
Module ProposeSpec.
Import Compiler.

(** A [VaultTransactionMessage] read field by field as a
    [TransactionMessage]: the two records hold the same fields. *)
Definition as_TransactionMessage (vm : squads.VaultTransactionMessage)
    : Codec.TransactionMessage :=
  {| Codec.NumSigners := squads.NumSigners vm;
     Codec.NumWritableSigners := squads.NumWritableSigners vm;
     Codec.NumWritableNonSigners := squads.NumWritableNonSigners vm;
     Codec.AccountKeys := squads.AccountKeys vm;
     Codec.Instructions :=
       map (λ ci, {| Codec.ProgramIdIndex := squads.ProgramIdIndex ci;
                     Codec.AccountIndexes := squads.AccountIndexes ci;
                     Codec.Data := squads.Data ci |}) (squads.Instructions vm);
     Codec.AddressTableLookups :=
       map (λ l, {| Codec.AccountKey := squads.AccountKey l;
                    Codec.WritableIndexes := squads.WritableIndexes l;
                    Codec.ReadonlyIndexes := squads.ReadonlyIndexes l |})
           (squads.AddressTableLookups vm) |}.

(** Some lookup table holds the address of an entry of [m] that the drains
    accept: neither signer nor invoked. *)
Definition extractable (tables : list solana.KeyedAddressLookupTable)
    (m : gmap PublicKey CompiledKeyMeta) : Prop :=
  ∃ table a meta, table ∈ tables ∧ a ∈ solana.Addresses table ∧
    m !! a = Some meta ∧ IsSigner meta = false ∧ IsInvoked meta = false.

(** What [createTransactionMessageBytes] returns for the run
    [sample_table_run]. *)
Definition sample_table_result : Codec.CodecError + list Z :=
  match Codec.encode (Propose.to_TransactionMessage CompilerSpec.sample_table_run) with
  | (inr _, buf) => inr buf
  | (inl err, _) => inl err
  end.

End ProposeSpec.

(** ** Creating a multisig: the checks of the create command
    (package multisigcreate) and the member summary of the info command *)
Module Create.

Definition PermissionPropose : Z := Z.shiftl 1 0.
Definition PermissionVote : Z := Z.shiftl 1 1.
Definition PermissionExecute : Z := Z.shiftl 1 2.
Definition PermissionFull : Z :=
  Z.lor (Z.lor PermissionPropose PermissionVote) PermissionExecute.

(** [strings.Join(elems, sep)] *)
Fixpoint Join (elems : list string) (sep : string) : string :=
  match elems with
  | [] => ""
  | [e] => e
  | e :: rest => e +:+ sep +:+ Join rest sep
  end.

Definition describePermissions (mask : Z) : string :=
  let desc := [] in
  let desc := if bool_decide (Z.land mask PermissionPropose ≠ 0)
              then desc ++ ["Propose"] else desc in
  let desc := if bool_decide (Z.land mask PermissionVote ≠ 0)
              then desc ++ ["Vote"] else desc in
  let desc := if bool_decide (Z.land mask PermissionExecute ≠ 0)
              then desc ++ ["Execute"] else desc in
  if bool_decide (length desc = 0%nat) then "No Permissions"
  else Join desc ", ".

(** [uint8(permission)&PermissionVote != 0] on a Go [int]. *)
Definition votes (permission : Z) : bool :=
  bool_decide (Z.land (uint8 permission) PermissionVote ≠ 0).

(** [countVotingMembers] of the info command. *)
Definition countVotingMembers (members : list squads.Member) : Z :=
  foldl (λ count member,
           if bool_decide (Z.land (squads.Mask (squads.Permissions_of member))
                                  PermissionVote ≠ 0)
           then count + 1 else count)
        0 members.

(** The values [explainThresholdError] formats into its fixed text: the
    requested threshold and the two lists of member keys (the voting members
    count it prints is the length of the first). *)
Record Explanation : Type := {
  RequestedThreshold : Z;
  votingMembers : list string;
  nonVotingMembers : list string
}.

(** The loop of [explainThresholdError] from index [i] on; [None] is the
    panic of [memberKeys[i]] out of range. *)
Fixpoint explain_loop (memberKeys : list string) (i : nat) (permissions : list Z)
    (votingMembers nonVotingMembers : list string)
    : option (list string * list string) :=
  match permissions with
  | [] => Some (votingMembers, nonVotingMembers)
  | permission :: rest =>
      match memberKeys !! i with
      | None => None
      | Some key =>
          if votes permission
          then explain_loop memberKeys (S i) rest (votingMembers ++ [key]) nonVotingMembers
          else explain_loop memberKeys (S i) rest votingMembers (nonVotingMembers ++ [key])
      end
  end.

Definition explainThresholdError (memberKeys : list string)
    (memberPermissions : list Z) (threshold : Z) : option Explanation :=
  match explain_loop memberKeys 0 memberPermissions [] [] with
  | None => None
  | Some (voting, nonVoting) =>
      Some {| RequestedThreshold := threshold;
              votingMembers := voting;
              nonVotingMembers := nonVoting |}
  end.

(** One constructor per [log.Fatalf] of [runCreate] before the call of
    [multisig.CreateMultisig], with the values it formats; [FatalPanic] is an
    index out of range. *)
Inductive Fatal : Type :=
  | FatalLoadPayer (cause : string)
  | FatalMemberCount (members permissions : nat)
  | FatalThreshold (explanation : Explanation)
  | FatalInvalidMemberKey (keyStr : string) (cause : string)
  | FatalInvalidPermission (permission : Z) (keyStr : string)
  | FatalInvalidThreshold (threshold votingMemberCount : Z)
  | FatalWsConnect (cause : string)
  | FatalPanic.

(** [for _, permission := range memberPermissions { if ... { votingMemberCount++ } }] *)
Definition count_votes (votingMemberCount : Z) (memberPermissions : list Z) : Z :=
  foldl (λ count permission, if votes permission then count + 1 else count)
        votingMemberCount memberPermissions.

(** The loop of [runCreate] over [memberKeys] from index [i] on: the members
    it stores and the counter it leaves, or the first fatal error.  [parse] is
    [solana.PublicKeyFromBase58]. *)
Fixpoint members_loop (parse : string → string + PublicKey)
    (memberPermissions : list Z) (i : nat) (memberKeys : list string)
    (votingMemberCount : Z) : Fatal + (list squads.Member * Z) :=
  match memberKeys with
  | [] => inr ([], votingMemberCount)
  | keyStr :: rest =>
      match parse keyStr with
      | inl cause => inl (FatalInvalidMemberKey keyStr cause)
      | inr memberKey =>
          match memberPermissions !! i with
          | None => inl FatalPanic
          | Some permission =>
              if bool_decide (permission < 0 ∨ permission > 7)
              then inl (FatalInvalidPermission permission keyStr)
              else
                let votingMemberCount :=
                  if votes permission then votingMemberCount + 1
                  else votingMemberCount in
                match members_loop parse memberPermissions (S i) rest
                        votingMemberCount with
                | inl fatal => inl fatal
                | inr (members, votingMemberCount) =>
                    inr ({| squads.Key := memberKey;
                            squads.Permissions_of :=
                              {| squads.Mask := uint8 permission |} |} :: members,
                         votingMemberCount)
                end
          end
      end
  end.

(** What [runCreate] hands to [multisig.CreateMultisig]. *)
Record CreateRequest : Type := {
  request_payer : list Z;
  request_members : list squads.Member;
  request_threshold : Z;         (* uint16 *)
  request_timeLock : Z           (* uint32 *)
}.

(** [runCreate] up to the call of [multisig.CreateMultisig]: the fatal error
    it logs, or the request it goes on to submit.  [payer] is the result of
    [loadKeypair] and [wsConnect] the answer of [ws.Connect], which is called
    after the last check on the members and the threshold; the counter is a
    Go [int], never near its bounds. *)
Definition runCreate (parse : string → string + PublicKey)
    (payer : string + list Z) (wsConnect : string + unit) (threshold timeLock : Z)
    (memberKeys : list string) (memberPermissions : list Z)
    : Fatal + CreateRequest :=
  match payer with
  | inl cause => inl (FatalLoadPayer cause)
  | inr payer =>
      if bool_decide (length memberKeys ≠ length memberPermissions)
      then inl (FatalMemberCount (length memberKeys) (length memberPermissions))
      else
        let votingMemberCount := count_votes 0 memberPermissions in
        if bool_decide (uint16 votingMemberCount < threshold)
        then match explainThresholdError memberKeys memberPermissions threshold with
             | Some explanation => inl (FatalThreshold explanation)
             | None => inl FatalPanic
             end
        else
          match members_loop parse memberPermissions 0 memberKeys votingMemberCount with
          | inl fatal => inl fatal
          | inr (members, votingMemberCount) =>
              if bool_decide (uint16 votingMemberCount < threshold)
              then inl (FatalInvalidThreshold threshold votingMemberCount)
              else
                match wsConnect with
                | inl cause => inl (FatalWsConnect cause)
                | inr _ =>
                    inr {| request_payer := payer;
                           request_members := members;
                           request_threshold := threshold;
                           request_timeLock := timeLock |}
                end
          end
  end.

(** Sample input: the default members of the command with the permissions 7
    and 5, and a parser that accepts every string. *)
Definition sample_parse (keyStr : string) : string + PublicKey :=
  inr (replicate 32 (Z.of_nat (String.length keyStr))).

Definition sample_members : list string :=
  ["6tBou5MHL5aWpDy6cgf3wiwGGK2mR8qs68ujtpaoWrf2";
   "Hy5oibb1cYdmjyPJ2fiypDtKYvp1uZTuPkmFzVy7TL8c"].

Definition sample_permissions : list Z := [7; 5].

End Create.

(** ** What the create command accepts *)
Module CreateSpec.
Import Create.

(** Member [member] is what the loop stores for key string [keyStr] and
    permission [permission]. *)
Definition member_of (parse : string → string + PublicKey) (keyStr : string)
    (permission : Z) (member : squads.Member) : Prop :=
  parse keyStr = inr (squads.Key member) ∧ 0 ≤ permission ≤ 7 ∧
  squads.Mask (squads.Permissions_of member) = permission.

(** The key strings paired with a permission that has, or has not, the vote
    bit. *)
Definition keys_voting (voting : bool) (memberKeys : list string)
    (memberPermissions : list Z) : list string :=
  (filter (λ kp, votes kp.2 = voting) (zip memberKeys memberPermissions)).*1.

End CreateSpec.

(** ** The network events of a run *)
Module TransactionSpec.
Import Transaction.

(** The events of a function body under [with_ws_client]: alone when the
    caller passes a web-socket client; otherwise after the connection, and
    followed by its close, or the failed connection alone. *)
Definition ws_frame (env : Env) (has_ws_client : bool) (body : list Event)
    : list Event :=
  if has_ws_client then body
  else match ws_Connect env with
       | inl _ => [EvWsConnect]
       | inr _ => [EvWsConnect] ++ body ++ [EvWsClose]
       end.

(** The network calls of [ExecuteProposal], in the order of the source. *)
Definition execute_steps (env : Env) (input : ExecuteInput) (tx : Transaction)
    : list Event :=
  [ EvGetAccountInfo (multisigPDA input);
    EvGetAccountInfo (GetProposalPDA env (multisigPDA input) (transactionIndex input));
    EvGetAccountInfo (GetTransactionPDA env (multisigPDA input) (transactionIndex input));
    EvGetLatestBlockhash;
    EvSendTransaction tx ].

(** The network calls of [VoteOnProposal], in the order of the source. *)
Definition vote_steps (env : Env) (input : ProposalVoteInput) (tx : Transaction)
    : list Event :=
  [ EvGetAccountInfo (Multisig input);
    EvGetAccountInfo (GetProposalPDA env (Multisig input) (TransactionIndex input));
    EvGetLatestBlockhash;
    EvSendTransaction tx ].

Definition no_transaction : Transaction :=
  {| tx_instructions := []; tx_blockhash := []; tx_payer := []; tx_signers := [] |}.

End TransactionSpec.

(** ** The approve command (package multisigtransaction) *)
Module Approve.

(** [transaction.ProposalVoteOutput] with all the fields the command reads;
    [ExecutableAfter] is a [*time.Time]: nil, or an instant in nanoseconds
    since the Unix epoch. *)
Record ProposalVoteOutput : Type := {
  Signature : string;
  ProposalPDA : PublicKey;
  Action : string;
  CurrentStatus : string;
  Approvals : Z;                 (* int *)
  Rejections : Z;
  Cancelled : Z;
  Threshold : Z;                 (* uint16 *)
  ExecutableAfter : option Z
}.

(** The composite literal that [VoteOnProposal] returns: it names
    [Signature], [ProposalPDA] and [Action]; the other fields keep their zero
    values. *)
Definition returned (output : Transaction.ProposalVoteOutput) : ProposalVoteOutput :=
  {| Signature := Transaction.Signature output;
     ProposalPDA := Transaction.ProposalPDA output;
     Action := Transaction.Output_Action output;
     CurrentStatus := "";
     Approvals := 0;
     Rejections := 0;
     Cancelled := 0;
     Threshold := 0;
     ExecutableAfter := None |}.

(** What [runApproveTransaction] prints after a successful vote, one
    constructor per print statement (the banner is three fixed lines), with
    the values it formats. *)
Inductive Line : Type :=
  | PrintBanner
  | PrintSignature (signature : string)
  | PrintStatus (currentStatus : string)
  | PrintApprovals (approvals threshold : Z)
  | PrintThresholdReached
  | PrintExecutableAfter (executableAfter : Z)
  | PrintReady
  | PrintExecuteCommand (multisigPDA : PublicKey) (transactionIndex : Z)
      (payerPath : string)
  | PrintRemaining (remainingApprovals : Z).

Definition display (output : ProposalVoteOutput) (now : Z)
    (multisigPDA : PublicKey) (transactionIndex : Z) (payerPath : string)
    : list Line :=
  [ PrintBanner;
    PrintSignature (Signature output);
    PrintStatus (CurrentStatus output);
    PrintApprovals (Approvals output) (Threshold output) ] ++
  if bool_decide (Approvals output >= Threshold output) then
    [PrintThresholdReached] ++
    match ExecutableAfter output with
    | Some executableAfter =>
        if bool_decide (now < executableAfter)
        then [PrintExecutableAfter executableAfter]
        else [PrintReady; PrintExecuteCommand multisigPDA transactionIndex payerPath]
    | None => [PrintReady; PrintExecuteCommand multisigPDA transactionIndex payerPath]
    end
  else [PrintRemaining (Threshold output - Approvals output)].

(** One constructor per [log.Fatalf] of [runApproveTransaction];
    [Panicked] is a panic of [VoteOnProposal], which nothing recovers. *)
Inductive Fatal : Type :=
  | FatalInvalidMultisig (cause : string)
  | FatalLoadPayer (cause : string)
  | FatalWsConnect (cause : string)
  | FatalApprove (err : Transaction.Error)
  | Panicked.

(** [runApproveTransaction]: what it prints, or the fatal error it logs, and
    the network events.  [multisig] is the result of parsing the multisig
    flag and [payer] of loading the key pair.  [log.Fatalf] exits the
    process without running the deferred [wsClient.Close()], which runs on
    success and when [VoteOnProposal] panics. *)
Definition runApproveTransaction (env : Transaction.Env)
    (multisig : string + PublicKey) (payer : string + list Z)
    (transactionIndex : Z) (payerPath memo : string)
    : (Fatal + list Line) * list Transaction.Event :=
  match multisig with
  | inl cause => (inl (FatalInvalidMultisig cause), [])
  | inr multisigPDA =>
      match payer with
      | inl cause => (inl (FatalLoadPayer cause), [])
      | inr payer =>
          match Transaction.ws_Connect env with
          | inl cause => (inl (FatalWsConnect cause), [Transaction.EvWsConnect])
          | inr _ =>
              let input :=
                {| Transaction.Multisig := multisigPDA;
                   Transaction.TransactionIndex := transactionIndex;
                   Transaction.Voter := payer;
                   Transaction.Memo := memo;
                   Transaction.Action := "approve";
                   Transaction.has_Client := true;
                   Transaction.has_WsClient := true |} in
              match Transaction.VoteOnProposal env input with
              | (inl Transaction.Panic, events) =>
                  (inl Panicked,
                   [Transaction.EvWsConnect] ++ events ++ [Transaction.EvWsClose])
              | (inl err, events) =>
                  (inl (FatalApprove err), [Transaction.EvWsConnect] ++ events)
              | (inr output, events) =>
                  (inr (display (returned output) (Transaction.Now env)
                          multisigPDA transactionIndex payerPath),
                   [Transaction.EvWsConnect] ++ events ++ [Transaction.EvWsClose])
              end
          end
      end
  end.

End Approve.

(** * Properties *)

Module CodecProps.
Import Codec.

Lemma emits_Write p : emits (Write p) p.
Proof. by intros buf. Qed.

Lemma emits_ret : emits (ret tt) [].
Proof. intros buf. unfold ret. by rewrite app_nil_r. Qed.

Lemma emits_bind e1 e2 w1 w2 :
  emits e1 w1 → emits e2 w2 → emits (bind e1 (λ _, e2)) (w1 ++ w2).
Proof.
  intros H1 H2 buf. unfold bind. rewrite H1, H2. by rewrite app_assoc.
Qed.

Lemma emits_for_each {A} (f : A → M unit) (g : A → list Z) data :
  (∀ x, x ∈ data → emits (f x) (g x)) →
  emits (for_each f data) (concat (map g data)).
Proof.
  induction data as [|x data IH]; intros Hf; simpl.
  - apply emits_ret.
  - apply emits_bind.
    + apply Hf. left.
    + apply IH. intros y Hy. apply Hf. by right.
Qed.

Lemma parses_ret {A} (a : A) : parses (ret a) [] a.
Proof. by intros rest. Qed.

Lemma parses_bind {A B} (d : M A) (k : A → M B) w1 w2 a b :
  parses d w1 a → parses (k a) w2 b → parses (bind d k) (w1 ++ w2) b.
Proof.
  intros H1 H2 rest. unfold bind. rewrite <- app_assoc, H1. apply H2.
Qed.

Lemma parses_ReadFull w : parses (ReadFull (length w)) w w.
Proof.
  intros rest. unfold ReadFull. destruct w as [|x w]; [done|].
  simpl. rewrite decide_False by (rewrite length_app; lia).
  by rewrite take_app_length, drop_app_length.
Qed.

Lemma parses_decode_each {A} (d : M A) (g : A → list Z) (l : list A) :
  (∀ x, x ∈ l → parses d (g x) x) →
  parses (decode_each d (length l)) (concat (map g l)) l.
Proof.
  induction l as [|x l IH]; intros Hd; simpl.
  - apply parses_ret.
  - eapply parses_bind; [apply Hd; left|].
    rewrite <- (app_nil_r (concat (map g l))).
    eapply parses_bind; [|apply parses_ret].
    apply IH. intros y Hy. apply Hd. by right.
Qed.

Lemma parses_uint8 v : parses Decode_uint8 [v] v.
Proof.
  unfold Decode_uint8. rewrite <- (app_nil_r [v]).
  eapply parses_bind; [apply (parses_ReadFull [v])|apply parses_ret].
Qed.

Lemma parses_uint16 x :
  0 ≤ x < 65536 → parses Decode_uint16 (uint16_le x) x.
Proof.
  intros Hx. unfold Decode_uint16, uint16_le.
  rewrite <- (app_nil_r [_; _]).
  eapply parses_bind; [apply (parses_ReadFull [_; _])|].
  simpl. replace (x mod 256 + 256 * ((x / 256) mod 256)) with x.
  - apply parses_ret.
  - rewrite (Z.mod_small (x / 256)) by (split; [apply Z.div_pos|apply Z.div_lt_upper_bound]; lia).
    rewrite Z.mod_eq by lia. lia.
Qed.

Lemma parses_bytes (w : list Z) : parses (Decode_bytes (len w)) w w.
Proof. unfold Decode_bytes, len. rewrite Nat2Z.id. apply parses_ReadFull. Qed.

Lemma uint8_small x : 0 ≤ x ≤ 255 → uint8 x = x.
Proof. intros. unfold uint8. apply Z.mod_small. lia. Qed.

Lemma len_nonneg {A} (l : list A) : 0 ≤ len l.
Proof. unfold len. lia. Qed.

Lemma parses_SmallVec {A} (d : M A) (g : A → list Z) (l : list A) :
  len l ≤ 255 →
  (∀ x, x ∈ l → parses d (g x) x) →
  parses (Decode_SmallVec d) ([uint8 (len l)] ++ concat (map g l)) l.
Proof.
  intros Hl Hd. unfold Decode_SmallVec.
  eapply parses_bind; [apply parses_uint8|].
  rewrite uint8_small by (pose proof (len_nonneg l); lia).
  unfold len. rewrite Nat2Z.id. by apply parses_decode_each.
Qed.

Lemma emits_instruction ci :
  emits (CompiledInstruction_EncodeWith ci) (instruction_bytes ci).
Proof.
  unfold CompiledInstruction_EncodeWith, instruction_bytes.
  repeat apply emits_bind; apply emits_Write.
Qed.

Lemma parses_instruction ci :
  instruction_fits ci →
  parses CompiledInstruction_DecodeWith (instruction_bytes ci) ci.
Proof.
  intros [Ha Hd]. unfold CompiledInstruction_DecodeWith, instruction_bytes.
  eapply parses_bind; [apply parses_uint8|].
  eapply parses_bind; [apply parses_uint8|].
  rewrite uint8_small by (pose proof (len_nonneg (AccountIndexes ci)); lia).
  eapply parses_bind; [apply parses_bytes|].
  pose proof (len_nonneg (Data ci)).
  eapply parses_bind; [apply parses_uint16; unfold uint16; apply Z.mod_pos_bound; lia|].
  unfold uint16. rewrite Z.mod_small by lia.
  rewrite <- (app_nil_r (Data ci)) at 2.
  eapply parses_bind; [apply parses_bytes|].
  destruct ci; apply parses_ret.
Qed.

Lemma parses_lookup l :
  lookup_fits l →
  parses MessageAddressTableLookup_DecodeWith (lookup_bytes l) l.
Proof.
  intros (Hk & Hw & Hr). unfold MessageAddressTableLookup_DecodeWith, lookup_bytes.
  eapply parses_bind.
  { unfold Decode_PublicKey. rewrite <- Hk. apply parses_ReadFull. }
  eapply parses_bind; [apply parses_uint8|].
  rewrite uint8_small by (pose proof (len_nonneg (WritableIndexes l)); lia).
  eapply parses_bind; [apply parses_bytes|].
  eapply parses_bind; [apply parses_uint8|].
  rewrite uint8_small by (pose proof (len_nonneg (ReadonlyIndexes l)); lia).
  rewrite <- (app_nil_r (ReadonlyIndexes l)) at 2.
  eapply parses_bind; [apply parses_bytes|].
  destruct l; apply parses_ret.
Qed.

(** The decoder reads back every well-formed message from its wire bytes,
    lookups included. *)
Lemma parses_message tm :
  message_fits tm →
  parses TransactionMessage_DecodeWith (message_bytes tm) tm.
Proof.
  intros (Hk & Hi & Hl & Fk & Fi & Fl).
  unfold TransactionMessage_DecodeWith, message_bytes.
  do 3 (eapply parses_bind; [apply parses_uint8|]).
  eapply parses_bind.
  { apply parses_SmallVec; [done|]. intros k Hin. unfold id, Decode_PublicKey.
    rewrite Forall_forall in Fk. rewrite <- (Fk k Hin). apply parses_ReadFull. }
  eapply parses_bind.
  { apply parses_SmallVec; [done|]. intros ci Hin. apply parses_instruction.
    rewrite Forall_forall in Fi. by apply Fi. }
  rewrite <- (app_nil_r (_ ++ concat (map lookup_bytes _))).
  eapply parses_bind.
  { apply parses_SmallVec; [done|]. intros l Hin. apply parses_lookup.
    rewrite Forall_forall in Fl. by apply Fl. }
  destruct tm; apply parses_ret.
Qed.

(** The encoder writes the wire bytes of every message without lookups. *)
Lemma emits_message tm :
  AddressTableLookups tm = [] →
  emits (TransactionMessage_EncodeWith tm) (message_bytes tm).
Proof.
  intros Hnil. unfold TransactionMessage_EncodeWith, message_bytes.
  rewrite Hnil.
  do 3 (apply emits_bind; [apply emits_Write|]).
  apply emits_bind.
  { unfold Encode_SmallVec_PublicKey. apply emits_bind; [apply emits_Write|].
    apply emits_for_each. intros k _. apply emits_Write. }
  apply emits_bind.
  { unfold Encode_SmallVec_CompiledInstruction.
    apply emits_bind; [apply emits_Write|].
    apply emits_for_each. intros ci _. apply emits_instruction. }
  unfold Encode_SmallVec_MessageAddressTableLookup.
  apply emits_bind; [apply emits_Write|]. apply emits_ret.
Qed.

Lemma roundtrip_without_lookups tm :
  message_fits tm → AddressTableLookups tm = [] →
  encode tm = (inr tt, message_bytes tm) ∧
  decode (message_bytes tm) = (inr tm, []).
Proof.
  intros Hfit Hnil. split.
  - unfold encode. by rewrite (emits_message tm Hnil []).
  - unfold decode. pose proof (parses_message tm Hfit []) as H.
    by rewrite app_nil_r in H.
Qed.

Lemma fails_bind_l e1 e2 err w :
  fails_after e1 err w → fails_after (bind e1 (λ _, e2)) err w.
Proof. intros H buf. unfold bind. by rewrite H. Qed.

Lemma fails_bind_r e1 e2 err w1 w2 :
  emits e1 w1 → fails_after e2 err w2 →
  fails_after (bind e1 (λ _, e2)) err (w1 ++ w2).
Proof. intros H1 H2 buf. unfold bind. rewrite H1, H2. by rewrite app_assoc. Qed.

Lemma fails_lookup l :
  fails_after (MessageAddressTableLookup_EncodeWith l)
              (ErrUnsupportedType "*solana.PublicKey") [].
Proof.
  unfold MessageAddressTableLookup_EncodeWith. apply fails_bind_l.
  intros buf. simpl. unfold fail. by rewrite app_nil_r.
Qed.

(** The bytes in the buffer when encoding stops at the first lookup. *)
Lemma fails_message tm :
  AddressTableLookups tm ≠ [] →
  fails_after (TransactionMessage_EncodeWith tm)
    (ErrUnsupportedType "*solana.PublicKey")
    ([NumSigners tm] ++ [NumWritableSigners tm] ++ [NumWritableNonSigners tm] ++
     ([uint8 (len (AccountKeys tm))] ++ concat (map id (AccountKeys tm))) ++
     ([uint8 (len (Instructions tm))] ++
        concat (map instruction_bytes (Instructions tm))) ++
     [uint8 (len (AddressTableLookups tm))] ++ []).
Proof.
  intros Hne. unfold TransactionMessage_EncodeWith.
  do 3 (apply fails_bind_r; [apply emits_Write|]).
  apply fails_bind_r.
  { unfold Encode_SmallVec_PublicKey. apply emits_bind; [apply emits_Write|].
    apply emits_for_each. intros k _. apply emits_Write. }
  apply fails_bind_r.
  { unfold Encode_SmallVec_CompiledInstruction.
    apply emits_bind; [apply emits_Write|].
    apply emits_for_each. intros ci _. apply emits_instruction. }
  unfold Encode_SmallVec_MessageAddressTableLookup.
  apply fails_bind_r; [apply emits_Write|].
  destruct (AddressTableLookups tm) as [|l ls]; [done|].
  simpl. apply fails_bind_l, fails_lookup.
Qed.

Lemma encode_ok_no_lookups tm b :
  encode tm = (inr tt, b) → AddressTableLookups tm = [].
Proof.
  intros He. destruct (AddressTableLookups tm) as [|l ls] eqn:E; [done|].
  unfold encode in He. rewrite (fails_message tm) in He; [done|].
  by rewrite E.
Qed.

(** Decoders keep their result when bytes are added after the input. *)
Lemma stable_ret {A} (a : A) : stable (ret a).
Proof. intros s x r q [= <- <-]. done. Qed.

Lemma stable_bind {A B} (d : M A) (k : A → M B) :
  stable d → (∀ a, stable (k a)) → stable (bind d k).
Proof.
  intros Hd Hk s b r q. unfold bind.
  destruct (d s) as [[e|a] s'] eqn:E; [done|].
  intros H. rewrite (Hd _ _ _ q E). by apply Hk.
Qed.

Lemma stable_ReadFull n : stable (ReadFull n).
Proof.
  intros s a r q. unfold ReadFull. destruct n as [|n].
  - by intros [= <- <-].
  - destruct s as [|x s]; [done|].
    case_decide as Hlt; [done|]. intros [= <- <-].
    change ((x :: s) ++ q) with (x :: (s ++ q)).
    rewrite decide_False by (simpl in *; rewrite length_app; lia).
    change (x :: (s ++ q)) with ((x :: s) ++ q).
    rewrite take_app_le, drop_app_le by lia. done.
Qed.

Lemma stable_decode_each {A} (d : M A) n : stable d → stable (decode_each d n).
Proof.
  intros Hd. induction n as [|n IH]; simpl.
  - apply stable_ret.
  - apply stable_bind; [done|]. intros x.
    apply stable_bind; [done|]. intros xs. apply stable_ret.
Qed.

Ltac stable_steps :=
  repeat (first [ apply stable_bind; [|intros ?] | apply stable_ret
                | apply stable_ReadFull | apply stable_decode_each ]).

Lemma stable_uint8 : stable Decode_uint8.
Proof. unfold Decode_uint8. stable_steps. Qed.

Lemma stable_SmallVec {A} (d : M A) : stable d → stable (Decode_SmallVec d).
Proof.
  intros Hd. unfold Decode_SmallVec.
  apply stable_bind; [apply stable_uint8|]. intros n. by apply stable_decode_each.
Qed.

Lemma stable_instruction : stable CompiledInstruction_DecodeWith.
Proof.
  unfold CompiledInstruction_DecodeWith, Decode_uint8, Decode_uint16, Decode_bytes.
  stable_steps.
Qed.

Lemma stable_lookup : stable MessageAddressTableLookup_DecodeWith.
Proof.
  unfold MessageAddressTableLookup_DecodeWith, Decode_uint8, Decode_bytes,
    Decode_PublicKey.
  stable_steps.
Qed.

Lemma stable_message : stable TransactionMessage_DecodeWith.
Proof.
  unfold TransactionMessage_DecodeWith.
  do 3 (apply stable_bind; [apply stable_uint8|intros ?]).
  apply stable_bind; [apply stable_SmallVec, stable_ReadFull|intros ?].
  apply stable_bind; [apply stable_SmallVec, stable_instruction|intros ?].
  apply stable_bind; [apply stable_SmallVec, stable_lookup|intros ?].
  apply stable_ret.
Qed.

(** Decoders fail only on a short input. *)
Lemma short_only_ret {A} (a : A) : short_only (ret a).
Proof. by intros s e r. Qed.

Lemma short_only_bind {A B} (d : M A) (k : A → M B) :
  short_only d → (∀ a, short_only (k a)) → short_only (bind d k).
Proof.
  intros Hd Hk s e r. unfold bind.
  destruct (d s) as [[e'|a] s'] eqn:E.
  - intros [= <- <-]. by eapply Hd.
  - apply Hk.
Qed.

Lemma short_only_ReadFull n : short_only (ReadFull n).
Proof.
  intros s e r. unfold ReadFull. destruct n as [|n]; [done|].
  destruct s as [|x s].
  - intros [= <- <-]. auto.
  - case_decide; [|done]. intros [= <- <-]. auto.
Qed.

Lemma short_only_decode_each {A} (d : M A) n :
  short_only d → short_only (decode_each d n).
Proof.
  intros Hd. induction n as [|n IH]; simpl.
  - apply short_only_ret.
  - apply short_only_bind; [done|]. intros x.
    apply short_only_bind; [done|]. intros xs. apply short_only_ret.
Qed.

Ltac short_steps :=
  repeat (first [ apply short_only_bind; [|intros ?] | apply short_only_ret
                | apply short_only_ReadFull | apply short_only_decode_each ]).

Lemma short_only_message : short_only TransactionMessage_DecodeWith.
Proof.
  unfold TransactionMessage_DecodeWith, Decode_SmallVec,
    CompiledInstruction_DecodeWith, MessageAddressTableLookup_DecodeWith,
    Decode_uint8, Decode_uint16, Decode_bytes, Decode_PublicKey.
  short_steps.
Qed.

(** A stream that decodes exactly has no strict prefix that decodes. *)
Lemma exact_decode_prefix_fails b tm p :
  decode b = (inr tm, []) → strict_prefix p b →
  ∃ e, decode p = (inl e, []) ∧ (e = EOF ∨ e = ErrUnexpectedEOF).
Proof.
  intros Hb (q & Hq & ->). unfold decode in *.
  destruct (TransactionMessage_DecodeWith p) as [[e|tm'] r] eqn:E.
  - destruct (short_only_message _ _ _ E) as [-> He]. eauto.
  - rewrite (stable_message _ _ _ q E) in Hb.
    injection Hb as _ Hr. by destruct r, q.
Qed.

Lemma lookup_bytes_nonempty l ls : concat (map lookup_bytes (l :: ls)) ≠ [].
Proof.
  simpl. unfold lookup_bytes. destruct (AccountKey l); simpl; [done|done].
Qed.

(** C5: the round trip [decode (encode tm) = tm] fails on the code for every
    message that has an address-table lookup.  [MessageAddressTableLookup.EncodeWith]
    passes [&m.AccountKey], a [*solana.PublicKey], to [Encoder.Encode], whose
    type switch has no case for it: encoding stops with "unsupported type",
    and the bytes left in the buffer are a strict prefix of the wire format of
    the message, which the decoder rejects. *)
Theorem encode_with_lookup_fails (tm : TransactionMessage)
    (Hfit : message_fits tm) (Hlookup : AddressTableLookups tm ≠ []) :
  ∃ written e,
    encode tm = (inl (ErrUnsupportedType "*solana.PublicKey"), written) ∧
    strict_prefix written (message_bytes tm) ∧
    decode (message_bytes tm) = (inr tm, []) ∧
    decode written = (inl e, []).
Proof.
  pose proof (fails_message tm Hlookup []) as Henc.
  pose proof (parses_message tm Hfit []) as Hdec. rewrite app_nil_r in Hdec.
  assert (strict_prefix
    ([NumSigners tm] ++ [NumWritableSigners tm] ++ [NumWritableNonSigners tm] ++
     ([uint8 (len (AccountKeys tm))] ++ concat (map id (AccountKeys tm))) ++
     ([uint8 (len (Instructions tm))] ++
        concat (map instruction_bytes (Instructions tm))) ++
     [uint8 (len (AddressTableLookups tm))] ++ []) (message_bytes tm)) as Hpre.
  { exists (concat (map lookup_bytes (AddressTableLookups tm))). split.
    - destruct (AddressTableLookups tm) as [|l ls]; [done|].
      apply lookup_bytes_nonempty.
    - unfold message_bytes. rewrite app_nil_r. rewrite <- !app_assoc. done. }
  destruct (exact_decode_prefix_fails _ _ _ Hdec Hpre) as (e & He & _).
  eexists _, e. split; [exact Henc|]. split; [exact Hpre|]. split; [exact Hdec|exact He].
Qed.

Lemma test_message_with_lookup_fits : message_fits test_message_with_lookup.
Proof.
  unfold message_fits, test_message_with_lookup, len; simpl.
  repeat split; try lia; repeat constructor; unfold len; simpl; lia.
Qed.

Lemma encode_with_lookup_fails_witness :
  message_fits test_message_with_lookup ∧
  AddressTableLookups test_message_with_lookup ≠ [] ∧
  ∃ written e,
    encode test_message_with_lookup
      = (inl (ErrUnsupportedType "*solana.PublicKey"), written) ∧
    strict_prefix written (message_bytes test_message_with_lookup) ∧
    decode (message_bytes test_message_with_lookup)
      = (inr test_message_with_lookup, []) ∧
    decode written = (inl e, []).
Proof.
  split; [apply test_message_with_lookup_fits|].
  split; [discriminate|].
  apply (encode_with_lookup_fails test_message_with_lookup).
  - apply test_message_with_lookup_fits.
  - discriminate.
Defined.

(** C8: every strict prefix of a valid encoded TransactionMessage (the bytes
    the encoder produced for a message whose lengths fit their prefixes, or
    any stream the decoder reads to its end) makes the decoder return an
    error, [EOF] or [ErrUnexpectedEOF], with the reader drained; decoding is a
    total function on streams, so nothing is read past the input. *)
Theorem decode_strict_prefix_fails (tm : TransactionMessage) (b p : list Z)
    (Hvalid : (message_fits tm ∧ encode tm = (inr tt, b)) ∨ decode b = (inr tm, []))
    (Hprefix : strict_prefix p b) :
  ∃ e, decode p = (inl e, []) ∧ (e = EOF ∨ e = ErrUnexpectedEOF).
Proof.
  apply (exact_decode_prefix_fails b tm p); [|done].
  destruct Hvalid as [[Hfit Henc]|Hdec]; [|done].
  pose proof (encode_ok_no_lookups _ _ Henc) as Hnil.
  destruct (roundtrip_without_lookups tm Hfit Hnil) as [He Hd].
  rewrite He in Henc. by injection Henc as <-.
Qed.

Lemma test_message_fits : message_fits test_message.
Proof.
  unfold message_fits, test_message, len; simpl.
  repeat split; try lia; repeat constructor; unfold len; simpl; lia.
Qed.

Lemma decode_strict_prefix_fails_witness :
  ((message_fits test_message ∧
    encode test_message = (inr tt, message_bytes test_message)) ∨
   decode (message_bytes test_message) = (inr test_message, [])) ∧
  strict_prefix (take 40 (message_bytes test_message)) (message_bytes test_message) ∧
  ∃ e, decode (take 40 (message_bytes test_message)) = (inl e, []) ∧
       (e = EOF ∨ e = ErrUnexpectedEOF).
Proof.
  assert (strict_prefix (take 40 (message_bytes test_message))
                        (message_bytes test_message)) as Hp.
  { exists (drop 40 (message_bytes test_message)). split.
    - vm_compute. discriminate.
    - by rewrite take_drop. }
  assert ((message_fits test_message ∧
           encode test_message = (inr tt, message_bytes test_message)) ∨
          decode (message_bytes test_message) = (inr test_message, [])) as Hv.
  { left. split; [apply test_message_fits|]. vm_compute. reflexivity. }
  split; [exact Hv|]. split; [exact Hp|].
  exact (decode_strict_prefix_fails test_message _ _ Hv Hp).
Defined.

End CodecProps.

Module CompilerProps.
Import Compiler.

Lemma agg_agg o t1 s1 w1 t2 s2 w2 :
  agg (agg o t1 s1 w1) t2 s2 w2 =
  agg o (t1 || t2) (t1 && s1 || t2 && s2) (t1 && w1 || t2 && w2).
Proof.
  unfold agg. destruct t1, t2; simpl; try done;
    rewrite ?orb_false_r, ?orb_assoc; done.
Qed.

Lemma never_invoked_agg o t s w : never_invoked o → never_invoked (agg o t s w).
Proof.
  intros Ho km. unfold agg. destruct t; [|apply Ho]. by intros [= <-].
Qed.

Lemma never_invoked_default o : never_invoked o → IsInvoked (default_meta o) = false.
Proof. intros Ho. destruct o as [km|]; simpl; [by apply Ho|done]. Qed.

Lemma existsb_mask {A} (f g : A → bool) l :
  existsb f l && existsb (λ x, f x && g x) l = existsb (λ x, f x && g x) l.
Proof.
  induction l as [|x l IH]; simpl; [done|].
  destruct (f x), (g x); simpl; try done; by destruct (existsb f l).
Qed.

Lemma compile_account_lookup m am a :
  never_invoked (m !! a) →
  compile_account m am !! a =
  agg (m !! a) (is_key a am) (solana.IsSigner am) (solana.IsWritable am).
Proof.
  intros Ho. unfold compile_account, getOrInsertDefault, agg, is_key.
  destruct (decide (solana.AccountMeta_PublicKey am = a)) as [<-|Hne].
  - rewrite bool_decide_true by done.
    pose proof (never_invoked_default _ Ho) as Hinv.
    destruct (m !! solana.AccountMeta_PublicKey am) as [km|] eqn:E; simpl in *.
    + rewrite lookup_insert_eq. by rewrite Hinv.
    + by rewrite lookup_insert_eq.
  - rewrite bool_decide_false by done.
    destruct (m !! solana.AccountMeta_PublicKey am) as [km|] eqn:E; simpl.
    + by rewrite lookup_insert_ne.
    + by rewrite !lookup_insert_ne.
Qed.

Lemma accounts_lookup accs : ∀ m a,
  never_invoked (m !! a) →
  foldl compile_account m accs !! a =
  agg (m !! a) (existsb (is_key a) accs)
      (existsb (λ am, is_key a am && solana.IsSigner am) accs)
      (existsb (λ am, is_key a am && solana.IsWritable am) accs).
Proof.
  induction accs as [|am accs IH]; intros m a Ho; simpl; [done|].
  rewrite IH by (rewrite compile_account_lookup by done; by apply never_invoked_agg).
  rewrite compile_account_lookup by done.
  by rewrite agg_agg, !existsb_mask.
Qed.

Lemma compile_instruction_lookup m ix a :
  never_invoked (m !! a) →
  compile_instruction m ix !! a =
  agg (m !! a)
      (bool_decide (solana.ProgramID ix = a) || existsb (is_key a) (solana.Accounts ix))
      (existsb (λ am, is_key a am && solana.IsSigner am) (solana.Accounts ix))
      (existsb (λ am, is_key a am && solana.IsWritable am) (solana.Accounts ix)).
Proof.
  intros Ho. unfold compile_instruction, getOrInsertDefault.
  set (prog := solana.ProgramID ix).
  assert (∀ m', m' !! a = agg (m !! a) (bool_decide (prog = a)) false false →
    foldl compile_account m' (solana.Accounts ix) !! a =
    agg (m !! a) (bool_decide (prog = a) || existsb (is_key a) (solana.Accounts ix))
      (existsb (λ am, is_key a am && solana.IsSigner am) (solana.Accounts ix))
      (existsb (λ am, is_key a am && solana.IsWritable am) (solana.Accounts ix)))
    as Hfold.
  { intros m' Hm'. rewrite accounts_lookup
      by (rewrite Hm'; by apply never_invoked_agg).
    rewrite Hm', agg_agg, andb_false_r, !existsb_mask. done. }
  destruct (m !! prog) as [km|] eqn:E; apply Hfold; unfold agg.
  - destruct (decide (prog = a)) as [<-|Hne].
    + rewrite bool_decide_true, lookup_insert_eq, E by done. simpl.
      by rewrite !orb_false_r.
    + by rewrite bool_decide_false, lookup_insert_ne.
  - destruct (decide (prog = a)) as [<-|Hne].
    + rewrite bool_decide_true, lookup_insert_eq, E by done. done.
    + by rewrite bool_decide_false, !lookup_insert_ne.
Qed.

Lemma andb_absorb (b1 b2 : bool) : (b2 = true → b1 = true) → b1 && b2 = b2.
Proof. destruct b1, b2; simpl; auto. Qed.

Lemma touches_accounts a g ix :
  existsb (λ am, is_key a am && g am) (solana.Accounts ix) = true →
  touches a ix = true.
Proof.
  intros H. unfold touches. rewrite <- existsb_mask in H.
  apply andb_prop in H as [-> _]. apply orb_true_r.
Qed.

Lemma touches_listed a g ixs :
  existsb (λ am, is_key a am && g am) (listed ixs) = true →
  existsb (touches a) ixs = true.
Proof.
  induction ixs as [|ix ixs IH]; [done|].
  unfold listed. simpl. rewrite existsb_app. fold (listed ixs).
  intros [H|H]%orb_prop.
  - by rewrite (touches_accounts _ _ _ H).
  - rewrite IH by done. apply orb_true_r.
Qed.

Lemma instructions_lookup ixs : ∀ m a,
  never_invoked (m !! a) →
  foldl compile_instruction m ixs !! a =
  agg (m !! a) (existsb (touches a) ixs)
      (existsb (λ am, is_key a am && solana.IsSigner am) (listed ixs))
      (existsb (λ am, is_key a am && solana.IsWritable am) (listed ixs)).
Proof.
  induction ixs as [|ix ixs IH]; intros m a Ho; simpl; [done|].
  rewrite IH by
    (rewrite compile_instruction_lookup by done; by apply never_invoked_agg).
  rewrite compile_instruction_lookup by done.
  rewrite agg_agg. unfold listed. simpl. rewrite !existsb_app.
  fold (listed ixs). fold (touches a ix).
  rewrite !(andb_absorb (touches a ix)) by apply touches_accounts.
  rewrite !(andb_absorb (existsb (touches a) ixs)) by apply touches_listed.
  done.
Qed.

Lemma existsb_occurrences a (g : solana.AccountMeta → bool) ixs :
  existsb (λ am, is_key a am && g am) (listed ixs) = existsb g (occurrences a ixs).
Proof.
  unfold occurrences. induction (listed ixs) as [|am l IH]; [done|].
  simpl. rewrite filter_cons. unfold is_key at 1.
  case_decide; [rewrite bool_decide_true by done|rewrite bool_decide_false by done];
    simpl; by rewrite IH.
Qed.

Lemma touches_referenced a ixs :
  existsb (touches a) ixs = true ↔
  a ∈ map solana.ProgramID ixs ∨ occurrences a ixs ≠ [].
Proof.
  unfold occurrences, listed. induction ixs as [|ix ixs IH]; simpl.
  - split; [done|]. intros [H|H]; [by apply elem_of_nil in H|done].
  - rewrite orb_true_iff, IH, filter_app, elem_of_cons. unfold touches.
    rewrite orb_true_iff, bool_decide_eq_true.
    assert (existsb (is_key a) (solana.Accounts ix) = true ↔
            filter (λ am, solana.AccountMeta_PublicKey am = a) (solana.Accounts ix) ≠ [])
      as ->.
    { induction (solana.Accounts ix) as [|am l IHl]; simpl; [done|].
      rewrite filter_cons. unfold is_key at 1. case_decide.
      - rewrite bool_decide_true by done. simpl. done.
      - rewrite bool_decide_false by done. simpl. done. }
    split.
    + intros [[H|H]|[H|H]]; auto.
      * right. intros [? _]%app_eq_nil. done.
      * right. intros [_ ?]%app_eq_nil. done.
    + intros [[H|H]|H]; auto.
      destruct (filter _ (solana.Accounts ix)) eqn:E; [|by auto].
      right. right. by rewrite app_nil_l in H.
Qed.

(** The entry of every address in the map [CompileKeys] returns. *)
Lemma CompileKeys_lookup instructions payer a :
  KeyMetaMap (CompileKeys instructions payer) !! a =
  if decide (referenced a payer instructions) then
    Some {| IsSigner := bool_decide (a = payer)
                        || existsb solana.IsSigner (occurrences a instructions);
            IsWritable := bool_decide (a = payer)
                          || existsb solana.IsWritable (occurrences a instructions);
            IsInvoked := false |}
  else None.
Proof.
  unfold CompileKeys, getOrInsertDefault. rewrite lookup_empty. simpl.
  rewrite insert_insert_eq.
  rewrite instructions_lookup.
  2: { intros km. destruct (decide (payer = a)) as [->|Hne].
       - rewrite lookup_insert_eq. by intros [= <-].
       - by rewrite lookup_insert_ne, lookup_empty. }
  rewrite !existsb_occurrences. unfold referenced.
  pose proof (touches_referenced a instructions) as Ht.
  destruct (decide (payer = a)) as [->|Hne].
  - rewrite lookup_insert_eq, decide_True by auto. rewrite bool_decide_true by done.
    unfold agg. simpl. by destruct (existsb (touches a) instructions).
  - rewrite lookup_insert_ne, lookup_empty by done.
    rewrite (bool_decide_false (a = payer)) by done. unfold agg. simpl.
    destruct (existsb (touches a) instructions).
    + rewrite decide_True; [done|]. right. by apply Ht.
    + rewrite decide_False; [done|]. intros [?|H]; [done|].
      apply Ht in H. done.
Qed.

(** C4, as the code has it: in the map [CompileKeys] returns, the fee payer's
    entry is signer and writable; the program address of every instruction has
    an entry whose invoked flag is false (the source assigns [false], and no
    entry is ever marked invoked), and whose signer and writable flags are not
    forced by being a program; the signer and writable flags of every listed
    account are the OR of those flags over all its occurrences across all
    instructions (ORed with true for the fee payer); an address enters the map
    only by being the payer, a program or a listed account. *)
Theorem CompileKeys_flags (instructions : list solana.Instruction) (payer a : PublicKey) :
  let keyMetaMap := KeyMetaMap (CompileKeys instructions payer) in
  let flags_of a :=
    {| IsSigner := bool_decide (a = payer)
                   || existsb solana.IsSigner (occurrences a instructions);
       IsWritable := bool_decide (a = payer)
                     || existsb solana.IsWritable (occurrences a instructions);
       IsInvoked := false |} in
  (∃ meta, keyMetaMap !! payer = Some meta ∧
           IsSigner meta = true ∧ IsWritable meta = true) ∧
  (a ∈ map solana.ProgramID instructions → keyMetaMap !! a = Some (flags_of a)) ∧
  (a ∈ map solana.AccountMeta_PublicKey (listed instructions) →
   keyMetaMap !! a = Some (flags_of a)) ∧
  (∀ meta, keyMetaMap !! a = Some meta →
           referenced a payer instructions ∧ IsInvoked meta = false) ∧
  (∀ m : gmap PublicKey CompiledKeyMeta, m !! a = None →
     getOrInsertDefault m a
     = ({| IsSigner := false; IsWritable := false; IsInvoked := false |},
        <[a := {| IsSigner := false; IsWritable := false; IsInvoked := false |}]> m)).
Proof.
  intros keyMetaMap flags_of. subst keyMetaMap flags_of.
  split; [|split; [|split; [|split]]];
    [| | | |intros m Hm; unfold getOrInsertDefault; by rewrite Hm].
  - rewrite CompileKeys_lookup, decide_True by (by left).
    eexists. split; [done|]. simpl. by rewrite bool_decide_true.
  - intros Hp. rewrite CompileKeys_lookup, decide_True; [done|]. right. by left.
  - intros Hl. rewrite CompileKeys_lookup, decide_True; [done|]. right. right.
    apply list_elem_of_fmap in Hl as (am & -> & Ham). unfold occurrences.
    intros Hnil. assert (am ∈ filter
      (λ am', solana.AccountMeta_PublicKey am' = solana.AccountMeta_PublicKey am)
      (listed instructions)) as Hin by (by apply list_elem_of_filter).
    rewrite Hnil in Hin. by apply elem_of_nil in Hin.
  - intros meta. rewrite CompileKeys_lookup. case_decide; [|done].
    by intros [= <-].
Qed.

Lemma CompileKeys_flags_witness :
  sample_key 2 ∈ map solana.ProgramID [sample_instruction] ∧
  KeyMetaMap (CompileKeys [sample_instruction] sample_payer) !! sample_key 2
    = Some {| IsSigner := false; IsWritable := false; IsInvoked := false |}.
Proof.
  assert (sample_key 2 ∈ map solana.ProgramID [sample_instruction]) as Hin.
  { simpl. left. }
  split; [exact Hin|].
  exact (proj1 (proj2 (CompileKeys_flags [sample_instruction] sample_payer
                         (sample_key 2))) Hin).
Defined.

(** C4, as the specification words it, fails: the program address of the
    sample instruction is not marked invoked. *)
Lemma CompileKeys_program_not_invoked :
  sample_instruction ∈ [sample_instruction] ∧
  ¬ ∃ meta,
      KeyMetaMap (CompileKeys [sample_instruction] sample_payer)
        !! solana.ProgramID sample_instruction = Some meta ∧
      IsInvoked meta = true.
Proof.
  split; [left|]. intros (meta & Hm & Hinv).
  rewrite CompileKeys_lookup in Hm. case_decide; [|done].
  injection Hm as <-. done.
Qed.

(** *** The four buckets *)

Lemma append_all_app acc l : append_all acc l = acc ++ l.
Proof.
  unfold append_all. revert acc. induction l as [|x l IH]; intros acc; simpl.
  - by rewrite app_nil_r.
  - rewrite IH. by rewrite <- app_assoc.
Qed.

Lemma bucket_nil c : bucket c [] = [].
Proof. done. Qed.

Lemma bucket_cons c address meta order :
  bucket c ((address, meta) :: order) =
  (if decide (bucket_of meta = c) then [address] else []) ++ bucket c order.
Proof.
  unfold bucket. rewrite filter_cons. simpl. by case_decide.
Qed.

Lemma buckets_fold order : ∀ b,
  ws (foldl bucket_step b order) = ws b ++ bucket writableSigners order ∧
  rs (foldl bucket_step b order) = rs b ++ bucket readonlySigners order ∧
  wn (foldl bucket_step b order) = wn b ++ bucket writableNonSigners order ∧
  rn (foldl bucket_step b order) = rn b ++ bucket readonlyNonSigners order.
Proof.
  induction order as [|[address meta] order IH]; intros b; cbn [foldl].
  - rewrite !bucket_nil, !app_nil_r. done.
  - destruct (IH (bucket_step b (address, meta))) as (-> & -> & -> & ->).
    rewrite !bucket_cons. unfold bucket_step.
    destruct (bucket_of meta); simpl; rewrite <- ?app_assoc; done.
Qed.

Lemma GetMessageComponents_on_buckets order :
  GetMessageComponents_on order =
  ({| solana.NumRequiredSignatures :=
        uint8 (len (bucket writableSigners order) + len (bucket readonlySigners order));
      solana.NumReadonlySignedAccounts := uint8 (len (bucket readonlySigners order));
      solana.NumReadonlyUnsignedAccounts := uint8 (len (bucket readonlyNonSigners order)) |},
   bucket writableSigners order ++ bucket readonlySigners order ++
   bucket writableNonSigners order ++ bucket readonlyNonSigners order).
Proof.
  unfold GetMessageComponents_on.
  destruct (buckets_fold order {| ws := []; rs := []; wn := []; rn := [] |})
    as (-> & -> & -> & ->).
  simpl. rewrite !append_all_app. simpl. by rewrite <- !app_assoc.
Qed.

Lemma bucket_Permutation c order1 order2 :
  order1 ≡ₚ order2 → bucket c order1 ≡ₚ bucket c order2.
Proof. intros H. unfold bucket. by rewrite H. Qed.

Lemma map_to_list_filter_perm {V} (P : PublicKey * V → Prop)
    `{∀ e, Decision (P e)} (m : gmap PublicKey V) :
  map_to_list (filter P m) ≡ₚ filter P (map_to_list m).
Proof.
  rewrite map_filter_alt. apply map_to_list_to_map.
  apply (NoDup_fmap_fst _).
  - intros k v1 v2 [_ H1]%list_elem_of_filter [_ H2]%list_elem_of_filter.
    apply elem_of_map_to_list in H1, H2. congruence.
  - apply NoDup_filter, NoDup_map_to_list.
Qed.

(** Each bucket holds exactly the keys of the map that classify into it. *)
Lemma bucket_map_range c m order :
  map_range m order →
  bucket c order ≡ₚ (map_to_list (filter (λ e, bucket_of e.2 = c) m)).*1.
Proof.
  intros H. unfold bucket. rewrite map_to_list_filter_perm. by rewrite H.
Qed.

Lemma len_Permutation {A} (l1 l2 : list A) : l1 ≡ₚ l2 → len l1 = len l2.
Proof. intros H. unfold len. by rewrite H. Qed.

Lemma buckets_length order :
  len (bucket writableSigners order) + len (bucket readonlySigners order) +
  len (bucket writableNonSigners order) + len (bucket readonlyNonSigners order)
  = len order.
Proof.
  unfold len. induction order as [|[address meta] order IH]; [done|].
  rewrite !bucket_cons. rewrite !length_app. cbn [length].
  destruct (bucket_of meta); simpl; lia.
Qed.

Lemma map_range_length {V} (m : gmap PublicKey V) order :
  map_range m order → len order = Z.of_nat (size m).
Proof. intros H. unfold len. by rewrite H, length_map_to_list. Qed.

(** C6, as the code has it: [GetMessageComponents] returns, and whatever the
    order in which its range visits the map, the static account list is the
    concatenation, in this order, of the
    writable-signer, readonly-signer, writable-non-signer and
    readonly-non-signer buckets, each holding exactly the keys of the map of
    its class; the header counts are the bucket sizes converted to uint8
    (reduced modulo 256), and equal the bucket sizes when the map has at most
    255 entries. *)
Theorem GetMessageComponents_buckets (ck : CompiledKeys) :
  (∃ res, GetMessageComponents ck res) ∧
  ∀ (header : solana.MessageHeader) (staticAccountKeys : list PublicKey),
    GetMessageComponents ck (header, staticAccountKeys) →
    ∃ ws rs wn rn,
      staticAccountKeys = ws ++ rs ++ wn ++ rn ∧
      ws ≡ₚ keys_in writableSigners (KeyMetaMap ck) ∧
      rs ≡ₚ keys_in readonlySigners (KeyMetaMap ck) ∧
      wn ≡ₚ keys_in writableNonSigners (KeyMetaMap ck) ∧
      rn ≡ₚ keys_in readonlyNonSigners (KeyMetaMap ck) ∧
      solana.NumRequiredSignatures header = uint8 (len ws + len rs) ∧
      solana.NumReadonlySignedAccounts header = uint8 (len rs) ∧
      solana.NumReadonlyUnsignedAccounts header = uint8 (len rn) ∧
      ((size (KeyMetaMap ck) ≤ 255)%nat →
       solana.NumRequiredSignatures header = len ws + len rs ∧
       solana.NumReadonlySignedAccounts header = len rs ∧
       solana.NumReadonlyUnsignedAccounts header = len rn).
Proof.
  split.
  { exists (GetMessageComponents_on (map_to_list (KeyMetaMap ck))).
    exists (map_to_list (KeyMetaMap ck)). split; [by unfold map_range|done]. }
  intros header staticAccountKeys (order & Hrange & Heq).
  rewrite GetMessageComponents_on_buckets in Heq. injection Heq as -> ->.
  exists (bucket writableSigners order), (bucket readonlySigners order),
         (bucket writableNonSigners order), (bucket readonlyNonSigners order).
  split; [done|].
  do 4 (split; [by apply bucket_map_range|]).
  simpl. do 3 (split; [done|]).
  intros Hsize.
  pose proof (buckets_length order) as Hlen.
  rewrite (map_range_length _ _ Hrange) in Hlen.
  unfold uint8, len in *. rewrite !Z.mod_small by lia. done.
Qed.

Lemma GetMessageComponents_buckets_witness :
  GetMessageComponents (CompileKeys [sample_instruction] sample_payer)
    (GetMessageComponents_on
       (map_to_list (KeyMetaMap (CompileKeys [sample_instruction] sample_payer)))) ∧
  ∃ ws rs wn rn,
    (GetMessageComponents_on
       (map_to_list (KeyMetaMap (CompileKeys [sample_instruction] sample_payer)))).2
      = ws ++ rs ++ wn ++ rn ∧
    ws ≡ₚ keys_in writableSigners
            (KeyMetaMap (CompileKeys [sample_instruction] sample_payer)).
Proof.
  assert (GetMessageComponents (CompileKeys [sample_instruction] sample_payer)
    (GetMessageComponents_on
       (map_to_list (KeyMetaMap (CompileKeys [sample_instruction] sample_payer)))))
    as Hrun.
  { eexists. split; [|reflexivity]. unfold map_range. reflexivity. }
  split; [exact Hrun|].
  destruct (proj2 (GetMessageComponents_buckets _) _ _ Hrun)
    as (ws & rs & wn & rn & Hk & Hws & _).
  exists ws, rs, wn, rn. split; [exact Hk|exact Hws].
Defined.

(** C6, as the specification words it, fails on the map resolved for one
    instruction that lists 256 readonly accounts: the readonly-non-signer
    bucket holds 257 keys (the program and the accounts) and the header
    reports 1. *)
Lemma GetMessageComponents_257_readonly :
  GetMessageComponents many_keys (GetMessageComponents_on many_entries) ∧
  (GetMessageComponents_on many_entries).2
    = bucket writableSigners many_entries ++ bucket readonlySigners many_entries ++
      bucket writableNonSigners many_entries ++ bucket readonlyNonSigners many_entries ∧
  len (bucket readonlyNonSigners many_entries) = 257 ∧
  solana.NumReadonlyUnsignedAccounts (GetMessageComponents_on many_entries).1 = 1.
Proof.
  split; [|split; [|split]].
  - exists many_entries. split; [|reflexivity]. by unfold map_range, many_entries.
  - by rewrite GetMessageComponents_on_buckets.
  - vm_compute. reflexivity.
  - vm_compute. reflexivity.
Qed.

(** *** Draining into a lookup table *)

Lemma drain_remaining entries f order : ∀ d a km,
  remaining (foldl (drain_step entries f) d order) !! a = Some km ↔
  remaining d !! a = Some km ∧
  ¬ ∃ km', (a, km') ∈ order ∧ drains entries f (a, km').
Proof.
  induction order as [|[address keyMeta] order IH]; intros d a km; simpl.
  - split; [|by intros [? _]]. intros H. split; [done|].
    intros (km' & Hin & _). by apply elem_of_nil in Hin.
  - rewrite IH. unfold drains. simpl.
    destruct (f keyMeta) eqn:Ef;
      [destruct (find_entry entries address 0) as [i|] eqn:Efind|]; simpl.
    + destruct (decide (address = a)) as [->|Hne].
      * rewrite lookup_delete_eq. split; [by intros [? _]|].
        intros [_ Hn]. exfalso. apply Hn. exists keyMeta. split; [left|].
        simpl. rewrite Efind. eauto.
      * rewrite lookup_delete_ne by done. split.
        -- intros [Hd Hn]. split; [done|]. intros (km' & Hin & Hdr).
           apply elem_of_cons in Hin as [[= ? ?]|Hin]; [done|]. apply Hn. eauto.
        -- intros [Hd Hn]. split; [done|]. intros (km' & Hin & Hdr).
           apply Hn. exists km'. split; [by right|done].
    + split.
      * intros [Hd Hn]. split; [done|]. intros (km' & Hin & Hf & Hs).
        apply elem_of_cons in Hin as [[= -> ->]|Hin].
        -- simpl in Hs. rewrite Efind in Hs. by destruct Hs.
        -- apply Hn. exists km'. eauto.
      * intros [Hd Hn]. split; [done|]. intros (km' & Hin & Hdr).
        apply Hn. exists km'. split; [by right|done].
    + split.
      * intros [Hd Hn]. split; [done|]. intros (km' & Hin & Hf & Hs).
        apply elem_of_cons in Hin as [[= -> ->]|Hin].
        -- simpl in Hf. congruence.
        -- apply Hn. exists km'. eauto.
      * intros [Hd Hn]. split; [done|]. intros (km' & Hin & Hdr).
        apply Hn. exists km'. split; [by right|done].
Qed.

(** Whatever the order of the visit, a drain leaves the same map. *)
Lemma drain_map_range m entries f order :
  map_range m order →
  remaining (drainKeysFoundInLookupTable_on m entries f order) = after_drain entries f m.
Proof.
  intros Hr. apply map_eq. intros a. apply option_eq. intros km.
  unfold drainKeysFoundInLookupTable_on, after_drain.
  rewrite drain_remaining, map_lookup_filter_Some. simpl.
  split.
  - intros [Hm Hn]. split; [done|]. intros Hd. apply Hn. exists km.
    split; [|done]. rewrite Hr. by apply elem_of_map_to_list.
  - intros [Hm Hn]. split; [done|]. intros (km' & Hin & Hd).
    rewrite Hr in Hin. apply elem_of_map_to_list in Hin.
    assert (km' = km) as -> by congruence. done.
Qed.

Lemma ExtractTableLookup_keys m lookupTable res :
  ExtractTableLookup m lookupTable res → res.2 = after_table m lookupTable.
Proof.
  intros (o1 & o2 & H1 & H2 & ->). unfold ExtractTableLookup_on, after_table.
  rewrite <- (drain_map_range m _ _ o1 H1).
  rewrite <- (drain_map_range _ _ _ o2 H2).
  by case_bool_decide.
Qed.

Lemma extract_tables_keys st tables st' :
  extract_tables st tables st' →
  keys_left st' = foldl after_table (keys_left st) tables.
Proof.
  induction 1 as [st|st t tables m' st' Hx _ IH|st t tables lookup keys m' st' Hx _ IH];
    simpl; [done| |].
  - apply ExtractTableLookup_keys in Hx. simpl in *. by rewrite IH, Hx.
  - apply ExtractTableLookup_keys in Hx. simpl in *. by rewrite IH, Hx.
Qed.

Lemma ExtractTableLookup_total m lookupTable : ∃ res, ExtractTableLookup m lookupTable res.
Proof.
  eexists. exists (map_to_list m). eexists (map_to_list _).
  split; [by unfold map_range|]. split; [by unfold map_range|done].
Qed.

Lemma extract_tables_total tables : ∀ st, ∃ st', extract_tables st tables st'.
Proof.
  induction tables as [|t tables IH]; intros st.
  - exists st. constructor.
  - destruct (ExtractTableLookup_total (keys_left st) t) as [[[[lookup keys]|] m'] Hx].
    + edestruct IH as [st' Hst']. exists st'. eapply extract_found; eauto.
    + edestruct IH as [st' Hst']. exists st'. eapply extract_skip; eauto.
Qed.

Lemma CompileInstructions_length mk instructions :
  length (CompileInstructions mk instructions) = length instructions.
Proof. unfold CompileInstructions. by rewrite length_map. Qed.

Lemma CompileInstructions_data mk instructions :
  map solana.CompiledInstruction_Data (CompileInstructions mk instructions) =
  map solana.Data instructions.
Proof.
  unfold CompileInstructions. rewrite map_map. simpl. done.
Qed.

Lemma GetMessageComponents_deterministic_part m order1 order2 :
  map_range m order1 → map_range m order2 →
  (GetMessageComponents_on order1).1 = (GetMessageComponents_on order2).1 ∧
  ∀ c, bucket c order1 ≡ₚ bucket c order2.
Proof.
  intros H1 H2. assert (order1 ≡ₚ order2) as Hp by (by rewrite H1, H2).
  split; [|intros c; by apply bucket_Permutation].
  rewrite !GetMessageComponents_on_buckets. simpl.
  by rewrite !(len_Permutation _ _ (bucket_Permutation _ _ _ Hp)).
Qed.

Lemma message_for_order_run payerKey recentBlockhash instructions order :
  map_range (KeyMetaMap (CompileKeys instructions payerKey)) order →
  CompileToWrappedMessageV0 payerKey recentBlockhash instructions []
    (Propose.message_for_order payerKey recentBlockhash instructions order).
Proof.
  intros Hr. eexists _, (GetMessageComponents_on order).1, (GetMessageComponents_on order).2.
  split; [apply extract_done|]. split; [|reflexivity].
  exists order. split; [exact Hr|]. by destruct (GetMessageComponents_on order).
Qed.

Lemma sample_order_range :
  map_range (KeyMetaMap (CompileKeys [sample_instruction] sample_payer))
    Propose.sample_order.
Proof. unfold map_range. apply (bool_decide_unpack _). vm_compute. exact I. Qed.

Lemma sample_rotated_range :
  map_range (KeyMetaMap (CompileKeys [sample_instruction] sample_payer))
    (rotate 2 Propose.sample_order).
Proof. unfold map_range. apply (bool_decide_unpack _). vm_compute. exact I. Qed.

(** C7, as the code has it: compiling terminates with a message in every
    run, and any two runs on the same fee payer, instructions, blockhash and
    lookup tables agree on the header, the blockhash, the version and the
    instruction payloads, and return static account-key lists made of the same
    four buckets in the same order: the writable signers, the readonly
    signers, the writable non-signers and the readonly non-signers of the map
    the lookup tables leave, each bucket a permutation of the keys of its
    class in that map, hence of the other run's bucket, and the header counts
    are the bucket sizes (the order inside a bucket is the order in which the
    range visited the map). *)
Theorem CompileToWrappedMessageV0_runs (payerKey : PublicKey)
    (recentBlockhash : solana.Hash) (instructions : list solana.Instruction)
    (tables : list solana.KeyedAddressLookupTable) :
  let keysLeft :=
    foldl after_table (KeyMetaMap (CompileKeys instructions payerKey)) tables in
  (∃ message,
     CompileToWrappedMessageV0 payerKey recentBlockhash instructions tables message) ∧
  ∀ message1 message2,
    CompileToWrappedMessageV0 payerKey recentBlockhash instructions tables message1 →
    CompileToWrappedMessageV0 payerKey recentBlockhash instructions tables message2 →
    solana.Header message1 = solana.Header message2 ∧
    solana.RecentBlockhash message1 = solana.RecentBlockhash message2 ∧
    solana.version message1 = solana.version message2 ∧
    map solana.CompiledInstruction_Data (solana.Instructions message1)
      = map solana.CompiledInstruction_Data (solana.Instructions message2) ∧
    ∃ ws1 rs1 wn1 rn1 ws2 rs2 wn2 rn2,
      solana.AccountKeys message1 = ws1 ++ rs1 ++ wn1 ++ rn1 ∧
      solana.AccountKeys message2 = ws2 ++ rs2 ++ wn2 ++ rn2 ∧
      ws1 ≡ₚ ws2 ∧ rs1 ≡ₚ rs2 ∧ wn1 ≡ₚ wn2 ∧ rn1 ≡ₚ rn2 ∧
      ws1 ≡ₚ keys_in writableSigners keysLeft ∧
      rs1 ≡ₚ keys_in readonlySigners keysLeft ∧
      wn1 ≡ₚ keys_in writableNonSigners keysLeft ∧
      rn1 ≡ₚ keys_in readonlyNonSigners keysLeft ∧
      solana.Header message1
        = {| solana.NumRequiredSignatures := uint8 (len ws1 + len rs1);
             solana.NumReadonlySignedAccounts := uint8 (len rs1);
             solana.NumReadonlyUnsignedAccounts := uint8 (len rn1) |}.
Proof.
  intros keysLeft. split.
  - destruct (extract_tables_total tables
      {| addressTableLookups := [];
         accountKeysFromLookups := {| Writable := []; Readonly := [] |};
         keys_left := KeyMetaMap (CompileKeys instructions payerKey) |}) as [st Hst].
    eexists. exists st, (GetMessageComponents_on (map_to_list (keys_left st))).1,
      (GetMessageComponents_on (map_to_list (keys_left st))).2.
    split; [exact Hst|]. split; [|reflexivity].
    exists (map_to_list (keys_left st)). split; [by unfold map_range|].
    by destruct (GetMessageComponents_on _).
  - intros message1 message2
      (st1 & h1 & k1 & Hx1 & (o1 & Ho1 & E1) & ->)
      (st2 & h2 & k2 & Hx2 & (o2 & Ho2 & E2) & ->).
    apply extract_tables_keys in Hx1, Hx2. simpl in *.
    rewrite Hx1 in Ho1. rewrite Hx2 in Ho2. fold keysLeft in Ho1, Ho2.
    destruct (GetMessageComponents_deterministic_part _ _ _ Ho1 Ho2) as [Hh Hb].
    rewrite <- E1, <- E2 in Hh. simpl in Hh.
    rewrite GetMessageComponents_on_buckets in E1, E2.
    injection E1 as -> ->. injection E2 as _ ->.
    split; [done|]. split; [done|]. split; [done|].
    split; [by rewrite !CompileInstructions_data|].
    exists (bucket writableSigners o1), (bucket readonlySigners o1),
      (bucket writableNonSigners o1), (bucket readonlyNonSigners o1),
      (bucket writableSigners o2), (bucket readonlySigners o2),
      (bucket writableNonSigners o2), (bucket readonlyNonSigners o2).
    split; [reflexivity|]. split; [reflexivity|].
    split; [apply Hb|]. split; [apply Hb|]. split; [apply Hb|]. split; [apply Hb|].
    split; [exact (bucket_map_range _ _ _ Ho1)|].
    split; [exact (bucket_map_range _ _ _ Ho1)|].
    split; [exact (bucket_map_range _ _ _ Ho1)|].
    split; [exact (bucket_map_range _ _ _ Ho1)|].
    reflexivity.
Qed.

Lemma CompileToWrappedMessageV0_runs_witness :
  CompileToWrappedMessageV0 sample_payer Propose.sample_hash [sample_instruction] []
    Propose.sample_run1 ∧
  CompileToWrappedMessageV0 sample_payer Propose.sample_hash [sample_instruction] []
    Propose.sample_run2 ∧
  solana.Header Propose.sample_run1 = solana.Header Propose.sample_run2.
Proof.
  assert (CompileToWrappedMessageV0 sample_payer Propose.sample_hash
            [sample_instruction] [] Propose.sample_run1) as H1.
  { apply message_for_order_run, sample_order_range. }
  assert (CompileToWrappedMessageV0 sample_payer Propose.sample_hash
            [sample_instruction] [] Propose.sample_run2) as H2.
  { apply message_for_order_run, sample_rotated_range. }
  split; [exact H1|]. split; [exact H2|].
  exact (proj1 (proj2 (CompileToWrappedMessageV0_runs sample_payer Propose.sample_hash
                         [sample_instruction] []) _ _ H1 H2)).
Defined.

(** C7, as the specification words it, fails: two runs on the same input,
    one whose range starts at the payer and one whose range starts two
    slots further, return different static account-key orders, different
    account indices in the compiled instruction, and different bytes. *)
Lemma compiled_bytes_differ_between_runs :
  CompileToWrappedMessageV0 sample_payer Propose.sample_hash [sample_instruction] []
    Propose.sample_run1 ∧
  CompileToWrappedMessageV0 sample_payer Propose.sample_hash [sample_instruction] []
    Propose.sample_run2 ∧
  solana.AccountKeys Propose.sample_run1
    = [sample_key 1; sample_key 2; sample_key 3; sample_key 4] ∧
  solana.AccountKeys Propose.sample_run2
    = [sample_key 1; sample_key 3; sample_key 4; sample_key 2] ∧
  solana.AccountKeys Propose.sample_run1 ≠ solana.AccountKeys Propose.sample_run2 ∧
  solana.Instructions Propose.sample_run1 ≠ solana.Instructions Propose.sample_run2 ∧
  Propose.createTransactionMessageBytes sample_payer [sample_instruction]
    Propose.sample_hash [] (inr (Propose.bytes_of Propose.sample_run1)) ∧
  Propose.createTransactionMessageBytes sample_payer [sample_instruction]
    Propose.sample_hash [] (inr (Propose.bytes_of Propose.sample_run2)) ∧
  Propose.bytes_of Propose.sample_run1 ≠ Propose.bytes_of Propose.sample_run2.
Proof.
  assert (CompileToWrappedMessageV0 sample_payer Propose.sample_hash
            [sample_instruction] [] Propose.sample_run1) as H1.
  { apply message_for_order_run, sample_order_range. }
  assert (CompileToWrappedMessageV0 sample_payer Propose.sample_hash
            [sample_instruction] [] Propose.sample_run2) as H2.
  { apply message_for_order_run, sample_rotated_range. }
  split; [exact H1|]. split; [exact H2|].
  split; [vm_compute; reflexivity|]. split; [vm_compute; reflexivity|].
  split; [vm_compute; discriminate|]. split; [vm_compute; discriminate|].
  split; [exists Propose.sample_run1; split; [exact H1|vm_compute; reflexivity]|].
  split; [exists Propose.sample_run2; split; [exact H2|vm_compute; reflexivity]|].
  vm_compute. discriminate.
Qed.

End CompilerProps.

Module ProposeProps.
Import Propose.

Lemma byte_shr_div value k :
  0 ≤ k → byte_shr value k = (value / 2 ^ k) mod 256.
Proof. intros Hk. unfold byte_shr, uint8. by rewrite Z.shiftr_div_pow2. Qed.

Lemma byte_shr_range value k : 0 ≤ byte_shr value k < 256.
Proof. unfold byte_shr, uint8. apply Z.mod_pos_bound. lia. Qed.

Lemma le_value_uint64ToLEBytes value :
  0 ≤ value < 2 ^ 64 → le_value (uint64ToLEBytes value) = value.
Proof.
  intros Hv. unfold uint64ToLEBytes, le_value.
  rewrite !byte_shr_div by lia.
  change (2 ^ 0) with 1. rewrite Z.div_1_r.
  change (2 ^ 8) with 256.
  change (2 ^ 16) with (256 * 256).
  change (2 ^ 24) with (256 * 256 * 256).
  change (2 ^ 32) with (256 * 256 * 256 * 256).
  change (2 ^ 40) with (256 * 256 * 256 * 256 * 256).
  change (2 ^ 48) with (256 * 256 * 256 * 256 * 256 * 256).
  change (2 ^ 56) with (256 * 256 * 256 * 256 * 256 * 256 * 256).
  rewrite <- !Z.div_div by lia.
  change (2 ^ 64) with 18446744073709551616 in Hv.
  Z.div_mod_to_equations. lia.
Qed.

(** C9: the payload of the transfer instruction is the 4-byte opcode prefix
    [2,0,0,0] followed by [uint64ToLEBytes lamports], both in the stored
    message and in the transfer instruction; for 1,000,000,000 raw units these
    are the bytes [2,0,0,0,0,202,154,59,0,0,0,0]; and for every uint64 [value],
    [uint64ToLEBytes value] is eight bytes whose little-endian value is
    [value]. *)
Theorem uint64ToLEBytes_little_endian (vaultPDA recipientPubkey : PublicKey)
    (value : Z) (Hvalue : 0 ≤ value < 2 ^ 64) :
  map squads.Data (squads.Instructions
      (createTransactionMessage vaultPDA recipientPubkey 1000000000))
    = [[2; 0; 0; 0; 0; 202; 154; 59; 0; 0; 0; 0]] ∧
  solana.Data (transferIx vaultPDA recipientPubkey 1000000000)
    = [2; 0; 0; 0; 0; 202; 154; 59; 0; 0; 0; 0] ∧
  map squads.Data (squads.Instructions
      (createTransactionMessage vaultPDA recipientPubkey value))
    = [[2; 0; 0; 0] ++ uint64ToLEBytes value] ∧
  length (uint64ToLEBytes value) = 8%nat ∧
  Forall (λ b, 0 ≤ b < 256) (uint64ToLEBytes value) ∧
  le_value (uint64ToLEBytes value) = value.
Proof.
  split; [reflexivity|]. split; [reflexivity|]. split; [reflexivity|].
  split; [reflexivity|]. split.
  - unfold uint64ToLEBytes. repeat constructor; apply byte_shr_range.
  - by apply le_value_uint64ToLEBytes.
Qed.

Lemma uint64ToLEBytes_little_endian_witness :
  0 ≤ 1000000000 < 2 ^ 64 ∧
  uint64ToLEBytes 1000000000 = [0; 202; 154; 59; 0; 0; 0; 0] ∧
  le_value (uint64ToLEBytes 1000000000) = 1000000000.
Proof.
  split; [lia|]. split; [reflexivity|].
  apply (uint64ToLEBytes_little_endian [] [] 1000000000). lia.
Defined.

End ProposeProps.

Module TransactionProps.
Import Transaction.

Lemma key_of_private n : ed25519_Public (private_key_of n) = key_of n.
Proof. done. Qed.

(** *** The time arithmetic of package time *)

Lemma int64_small x : - 2 ^ 63 ≤ x < 2 ^ 63 → int64 x = x.
Proof. intros H. unfold int64. rewrite Z.mod_small by lia. lia. Qed.

Lemma addSec_small ext d :
  - 2 ^ 63 ≤ ext + d < 2 ^ 63 → addSec ext d = ext + d.
Proof.
  intros H. unfold addSec. rewrite int64_small by done.
  rewrite bool_decide_true; [done|].
  repeat case_bool_decide; try done; lia.
Qed.

(** Without overflow the time-lock ends [timeLock] seconds after the approval. *)
Lemma timelockEnd_of_in_range approvedTimestamp timeLock :
  time_in_range approvedTimestamp timeLock →
  timelockEnd_of approvedTimestamp timeLock
  = {| Time_sec := approvedTimestamp + timeLock + unixToInternal; Time_nsec := 0 |}.
Proof.
  intros (Hlock & Hlo & Hhi). unfold timelockEnd_of, time_Unix, Time_Add.
  cbn [Time_sec Time_nsec].
  assert (0 < second) as Hs by done.
  rewrite (int64_small (timeLock * second)) by (unfold second; lia).
  rewrite Z.quot_mul, Z.rem_mul by (unfold second; lia).
  rewrite bool_decide_false by (unfold second; lia).
  rewrite bool_decide_false by lia.
  rewrite int64_small by (unfold unixToInternal in *; lia).
  rewrite addSec_small by (unfold unixToInternal in *; lia).
  f_equal; lia.
Qed.

Lemma Time_Before_in_range env approvedTimestamp timeLock :
  time_in_range approvedTimestamp timeLock →
  Time_Before (time_Now env) (timelockEnd_of approvedTimestamp timeLock) = true ↔
  Now env < (approvedTimestamp + timeLock) * second.
Proof.
  intros Hr. rewrite timelockEnd_of_in_range by done.
  unfold Time_Before, time_Now. cbn [Time_sec Time_nsec].
  assert (0 < second) as Hs by done.
  pose proof (Z.mod_pos_bound (Now env) second Hs) as Hm.
  rewrite (bool_decide_false (_ < 0)) by lia. rewrite andb_false_r, orb_false_r.
  rewrite bool_decide_eq_true. split.
  - intros H. assert (Now env / second < approvedTimestamp + timeLock) as H' by lia.
    pose proof (Z.div_mod (Now env) second). nia.
  - intros H. assert (Now env / second < approvedTimestamp + timeLock); [|lia].
    apply Z.div_lt_upper_bound; lia.
Qed.

(** What the loop of [ExecuteProposal] computes: position [i] is writable
    exactly when it lies below one of the two bounds. *)
Lemma isWritable_true message i :
  isWritable message i = true ↔
  i < squads.NumWritableSigners message ∨
  i < squads.NumSigners message + squads.NumWritableNonSigners message.
Proof.
  unfold isWritable. repeat case_bool_decide; split; intros; try done; lia.
Qed.

Lemma additionalAccountMetas_lookup message (i : nat) accountKey :
  squads.AccountKeys message !! i = Some accountKey →
  additionalAccountMetas message !! i =
  Some {| solana.AccountMeta_PublicKey := accountKey;
          solana.IsSigner := false;
          solana.IsWritable := isWritable message (Z.of_nat i) |}.
Proof.
  intros H. unfold additionalAccountMetas. rewrite list_lookup_imap, H. done.
Qed.

(** *** Runs and their events *)

Lemma submitted_bind {A B} (m : Run A) (k : A → Run B) :
  submitted (run_bind m k) →
  submitted m ∨ ∃ a t, m = (inr a, t) ∧ submitted (k a).
Proof.
  unfold submitted, run_bind. destruct m as [[e|a] t]; simpl.
  - intros [tx H]. left. eauto.
  - destruct (k a) as [r t'] eqn:E. simpl. intros [tx H].
    apply elem_of_app in H as [H|H]; [left; eauto|].
    right. exists a, t. split; [done|]. exists tx. by rewrite E.
Qed.

Lemma submitted_call {A} ev (answer : Cause + A) wrap :
  submitted (call ev answer wrap) → ∃ tx, EvSendTransaction tx ∈ ev.
Proof. unfold submitted, call. by destruct answer. Qed.

Lemma not_submitted_throw {A} e : ¬ submitted (@throw A e).
Proof. intros [tx H]. by apply elem_of_nil in H. Qed.

Lemma not_submitted_ret {A} (a : A) : ¬ submitted (run_ret a).
Proof. intros [tx H]. by apply elem_of_nil in H. Qed.

Lemma submitted_with_ws_client {A} env has_ws (body : Run A) :
  submitted (with_ws_client env has_ws body) → submitted body ∧ ws_ok env has_ws.
Proof.
  unfold with_ws_client, ws_ok. destruct has_ws; [by auto|].
  intros [H|(u & t & Hc & H)]%submitted_bind.
  - apply submitted_call in H as [tx H].
    apply elem_of_cons in H as [?|H]; [done|]. by apply elem_of_nil in H.
  - split.
    + destruct H as [tx H]. exists tx. unfold deferred_close in H. simpl in H.
      apply elem_of_app in H as [H|H]; [done|].
      apply elem_of_cons in H as [?|H]; [done|]. by apply elem_of_nil in H.
    + right. unfold call in Hc. destruct (ws_Connect env); [done|]. eauto.
Qed.

Lemma fst_with_ws_client {A} env has_ws (body : Run A) :
  ws_ok env has_ws → (with_ws_client env has_ws body).1 = body.1.
Proof.
  unfold with_ws_client, ws_ok. destruct has_ws; [done|].
  intros [?|[u Hu]]; [done|]. rewrite Hu. simpl. unfold run_bind, call, deferred_close.
  by destruct body.
Qed.

Lemma fst_bind_inr {A B} (m : Run A) (k : A → Run B) a t :
  m = (inr a, t) → (run_bind m k).1 = (k a).1.
Proof. intros ->. unfold run_bind. by destruct (k a). Qed.

Lemma not_submitted_fetchAccount {A} env (unmarshal : list Z → Cause + A) pda :
  ¬ submitted (fetchAccount env unmarshal pda).
Proof.
  unfold fetchAccount. intros [H|(info & t & _ & H)]%submitted_bind.
  - apply submitted_call in H as [tx H].
    apply elem_of_cons in H as [?|H]; [done|]. by apply elem_of_nil in H.
  - destruct info as [data|]; [|by apply not_submitted_throw in H].
    apply submitted_call in H as [tx H]. by apply elem_of_nil in H.
Qed.

Lemma hasExecutePermission_true multisigAccount executor :
  hasExecutePermission (squads.Members multisigAccount) executor = true ↔
  has_execute_bit multisigAccount executor.
Proof.
  unfold has_execute_bit. induction (squads.Members multisigAccount) as [|member l IH].
  - simpl. split; [done|]. intros (? & H & _). by apply elem_of_nil in H.
  - simpl. repeat case_decide.
    + split; [|done]. intros _. exists member. split; [left|done].
    + rewrite IH. split.
      * intros (m' & Hin & Hk & Hm). exists m'. split; [by right|done].
      * intros (m' & Hin & Hk & Hm).
        apply elem_of_cons in Hin as [->|Hin]; [done|]. eauto.
    + rewrite IH. split.
      * intros (m' & Hin & Hk & Hm). exists m'. split; [by right|done].
      * intros (m' & Hin & Hk & Hm).
        apply elem_of_cons in Hin as [->|Hin]; [done|]. eauto.
Qed.

(** The checks pass exactly under the preconditions as the source has them. *)
Lemma check_executable_ok env multisigAccount proposal executor :
  (∃ t, check_executable env multisigAccount proposal executor = (inr tt, t)) ↔
  executable env multisigAccount proposal executor.
Proof.
  unfold check_executable, executable, PrivateKey_PublicKey, run_bind, run_ret, throw.
  setoid_rewrite <- hasExecutePermission_true.
  destruct (squads.Status proposal) as [ts|ts|ts|ts| |ts|ts];
    try (split; [by intros [t H]|by intros (ts' & H & _)]).
  split.
  - intros [t H]. exists ts. split; [done|].
    destruct (Time_Before _ _) eqn:Hnow; case_bool_decide as Hlock;
      destruct (PrivateKey_Validate env executor) eqn:Hvalid;
      destruct (hasExecutePermission _ _) eqn:Hperm; simpl in H; try done.
  - intros (ts' & [= <-] & Ht & -> & ->).
    destruct (Time_Before _ _) eqn:Hnow; case_bool_decide as Hlock; simpl;
      try (by eexists).
    by specialize (Ht Hlock).
Qed.

(** C1: on a stored message with two signers of which one is writable,
    [ExecuteProposal] appends the account at position 1, a readonly signer,
    as writable, where the partition invariant makes it readonly: the second
    test of the loop, [i - NumSigners < NumWritableNonSigners], holds for every
    position below [NumSigners]. *)
Theorem ExecuteProposal_readonly_signer_writable :
  let env := sample_env (sample_multisig 0 7)
               (sample_proposal (squads.ProposalStatusApproved 100) [key_of 1])
               sample_vault_transaction (200 * second) in
  ∃ out tx appended multisig proposal transaction member,
    ExecuteProposal env sample_execute_input
      = (inr out, [EvGetAccountInfo (key_of 9);
                   EvGetAccountInfo (GetProposalPDA env (key_of 9) 1);
                   EvGetAccountInfo (GetTransactionPDA env (key_of 9) 1);
                   EvGetLatestBlockhash;
                   EvSendTransaction tx]) ∧
    tx_instructions tx
      = [squads.VaultTransactionExecute multisig proposal transaction member appended] ∧
    appended = additionalAccountMetas sample_stored_message ∧
    appended !! 1%nat = Some {| solana.AccountMeta_PublicKey := key_of 11;
                               solana.IsSigner := false;
                               solana.IsWritable := true |} ∧
    squads.NumWritableSigners sample_stored_message ≤ 1 < squads.NumSigners sample_stored_message ∧
    ¬ writable_by_partition sample_stored_message 1.
Proof.
  intros env. eexists _, _, _, _, _, _, _.
  split; [vm_compute; reflexivity|].
  split; [reflexivity|]. split; [reflexivity|]. split; [reflexivity|].
  split; [simpl; lia|].
  unfold writable_by_partition. simpl. lia.
Qed.

(** Every readonly-signer position is marked writable by the loop. *)
Lemma isWritable_readonly_signer message i :
  0 ≤ squads.NumWritableNonSigners message →
  squads.NumWritableSigners message ≤ i < squads.NumSigners message →
  isWritable message i = true ∧ ¬ writable_by_partition message i.
Proof.
  intros H0 Hi. split.
  - apply isWritable_true. lia.
  - unfold writable_by_partition. lia.
Qed.

Lemma wrap_error_inr {A} wrap (r : Run A) a t :
  wrap_error wrap r = (inr a, t) → r = (inr a, t).
Proof. by destruct r as [[e|a'] t']. Qed.

Lemma submitted_wrap_error {A} wrap (r : Run A) :
  submitted (wrap_error wrap r) → submitted r.
Proof. by destruct r as [[e|a'] t']. Qed.

Lemma VoteOnProposal_valid env input :
  valid_action (Action input) →
  VoteOnProposal env input =
  with_ws_client env (has_WsClient input) (submit_vote env input (Action input)).
Proof.
  intros Hv. unfold VoteOnProposal.
  rewrite (decide_False (P := Action input = "")).
  - rewrite decide_False; [done|]. unfold valid_action in Hv. tauto.
  - intros E. rewrite E in Hv. destruct Hv as [H|[H|H]]; discriminate H.
Qed.

Lemma not_submitted_PublicKey env k : ¬ submitted (PrivateKey_PublicKey env k).
Proof.
  unfold PrivateKey_PublicKey. destruct (PrivateKey_Validate env k).
  - apply not_submitted_ret.
  - apply not_submitted_throw.
Qed.

Lemma PrivateKey_PublicKey_inr env k key t :
  PrivateKey_PublicKey env k = (inr key, t) →
  PrivateKey_Validate env k = true ∧ key = ed25519_Public k.
Proof.
  unfold PrivateKey_PublicKey. destruct (PrivateKey_Validate env k); [|done].
  by intros [= <- _].
Qed.

Lemma submitted_submit_vote env input action :
  submitted (submit_vote env input action) →
  ∃ multisigInfo proposalInfo,
    GetAccountInfo env (Multisig input) = inr multisigInfo ∧
    not_initialized multisigInfo = false ∧
    GetAccountInfo env (GetProposalPDA env (Multisig input) (TransactionIndex input))
      = inr proposalInfo ∧
    not_initialized proposalInfo = false ∧
    PrivateKey_Validate env (Voter input) = true.
Proof.
  unfold submit_vote.
  intros [H|(mi & t & Hc & H)]%submitted_bind.
  { apply submitted_call in H as [tx H].
    apply elem_of_cons in H as [?|H]; [done|]. by apply elem_of_nil in H. }
  destruct (not_initialized mi) eqn:Em; [by apply not_submitted_throw in H|].
  apply submitted_bind in H as [H|(pi & t' & Hc' & H)].
  { apply submitted_call in H as [tx H].
    apply elem_of_cons in H as [?|H]; [done|]. by apply elem_of_nil in H. }
  destruct (not_initialized pi) eqn:Ep; [by apply not_submitted_throw in H|].
  apply submitted_bind in H as [H|(voter & t'' & Hk & _)];
    [by apply not_submitted_PublicKey in H|].
  apply PrivateKey_PublicKey_inr in Hk as [Hvalid _].
  exists mi, pi. unfold call in Hc, Hc'.
  destruct (GetAccountInfo env (Multisig input)); [done|].
  destruct (GetAccountInfo env (GetProposalPDA env _ _)); [done|].
  injection Hc as -> _. injection Hc' as -> _. done.
Qed.

(** C2, as the code has it: for a vote request with a valid action,
    [VoteOnProposal] never decodes the proposal (its run is the same whatever
    the decoders return, so it does not depend on the status or the vote
    sets); it submits only when the multisig account and the proposal account
    both exist with non-empty data and the voter's key pair is valid; it
    fails with the corresponding not-found error when an account is missing;
    when both exist it panics, without submitting, on a key pair that is not
    valid, and with a valid key pair and collaborators that answer it submits
    the signed transaction holding the vote instruction. *)
Theorem VoteOnProposal_existence_check_only (env : Env) (input : ProposalVoteInput)
    (Haction : valid_action (Action input)) :
  let proposalPDA := GetProposalPDA env (Multisig input) (TransactionIndex input) in
  let voter := ed25519_Public (Voter input) in
  let args :=
    {| squads.Memo := if decide (Memo input = "") then None else Some (Memo input) |} in
  (∀ mU pU vU, VoteOnProposal (with_decoders env mU pU vU) input
               = VoteOnProposal env input) ∧
  (submitted (VoteOnProposal env input) →
   ∃ multisigInfo proposalInfo,
     GetAccountInfo env (Multisig input) = inr multisigInfo ∧
     not_initialized multisigInfo = false ∧
     GetAccountInfo env proposalPDA = inr proposalInfo ∧
     not_initialized proposalInfo = false ∧
     PrivateKey_Validate env (Voter input) = true) ∧
  (∀ multisigInfo,
     ws_ok env (has_WsClient input) →
     GetAccountInfo env (Multisig input) = inr multisigInfo →
     not_initialized multisigInfo = true →
     (VoteOnProposal env input).1 = inl (ErrMultisigNotFound (Multisig input))) ∧
  (∀ multisigInfo proposalInfo,
     ws_ok env (has_WsClient input) →
     GetAccountInfo env (Multisig input) = inr multisigInfo →
     not_initialized multisigInfo = false →
     GetAccountInfo env proposalPDA = inr proposalInfo →
     not_initialized proposalInfo = true →
     (VoteOnProposal env input).1 = inl (ErrProposalNotFound proposalPDA)) ∧
  (∀ multisigInfo proposalInfo,
     ws_ok env (has_WsClient input) →
     GetAccountInfo env (Multisig input) = inr multisigInfo →
     not_initialized multisigInfo = false →
     GetAccountInfo env proposalPDA = inr proposalInfo →
     not_initialized proposalInfo = false →
     PrivateKey_Validate env (Voter input) = false →
     (VoteOnProposal env input).1 = inl Panic ∧
     ¬ submitted (VoteOnProposal env input)) ∧
  (∀ multisigInfo proposalInfo hash tx signed,
     ws_ok env (has_WsClient input) →
     GetAccountInfo env (Multisig input) = inr multisigInfo →
     not_initialized multisigInfo = false →
     GetAccountInfo env proposalPDA = inr proposalInfo →
     not_initialized proposalInfo = false →
     PrivateKey_Validate env (Voter input) = true →
     GetLatestBlockhash env = inr hash →
     NewTransaction env
       [votingIx (Action input) args (Multisig input) voter proposalPDA] hash voter
       = inr tx →
     Sign env tx voter = inr signed →
     EvSendTransaction signed ∈ (VoteOnProposal env input).2).
Proof.
  intros proposalPDA voter args. subst proposalPDA voter args.
  assert (submitted (VoteOnProposal env input) →
          ∃ multisigInfo proposalInfo,
            GetAccountInfo env (Multisig input) = inr multisigInfo ∧
            not_initialized multisigInfo = false ∧
            GetAccountInfo env
              (GetProposalPDA env (Multisig input) (TransactionIndex input))
              = inr proposalInfo ∧
            not_initialized proposalInfo = false ∧
            PrivateKey_Validate env (Voter input) = true) as Hsub.
  { rewrite VoteOnProposal_valid by done.
    intros [H _]%submitted_with_ws_client. by apply submitted_submit_vote in H. }
  split; [|split; [|split; [|split; [|split]]]].
  - intros mU pU vU. reflexivity.
  - exact Hsub.
  - intros mi Hws Hm Hni. rewrite VoteOnProposal_valid by done.
    rewrite fst_with_ws_client by done. unfold submit_vote.
    rewrite Hm. simpl. by rewrite Hni.
  - intros mi pi Hws Hm Hni Hp Hnp. rewrite VoteOnProposal_valid by done.
    rewrite fst_with_ws_client by done. unfold submit_vote.
    rewrite Hm. simpl. rewrite Hni, Hp. simpl. by rewrite Hnp.
  - intros mi pi Hws Hm Hni Hp Hnp Hinvalid. split.
    + rewrite VoteOnProposal_valid by done.
      rewrite fst_with_ws_client by done. unfold submit_vote, PrivateKey_PublicKey.
      rewrite Hm. simpl. rewrite Hni, Hp. simpl. by rewrite Hnp, Hinvalid.
    + intros (? & ? & _ & _ & _ & _ & Hvalid)%Hsub. congruence.
  - intros mi pi hash tx signed Hws Hm Hni Hp Hnp Hvalid Hh Hn Hs.
    rewrite VoteOnProposal_valid by done.
    assert (EvSendTransaction signed ∈ (submit_vote env input (Action input)).2) as Hin.
    { unfold submit_vote, PrivateKey_PublicKey. rewrite Hm. simpl. rewrite Hni, Hp. simpl.
      rewrite Hnp, Hvalid. simpl. rewrite Hh. simpl. rewrite Hn. simpl. rewrite Hs. simpl.
      destruct (SendTransaction env signed); simpl; set_solver. }
    unfold with_ws_client. destruct (has_WsClient input); [done|].
    destruct Hws as [?|[u Hu]]; [done|]. rewrite Hu. simpl.
    unfold deferred_close. simpl.
    destruct (submit_vote env input (Action input)) as [r t]. simpl in *.
    set_solver.
Qed.

Lemma VoteOnProposal_existence_check_only_witness :
  let env := sample_env (sample_multisig 0 7)
               (sample_proposal (squads.ProposalStatusActive 100) [])
               sample_vault_transaction 0 in
  valid_action (Action (sample_vote_input "approve")) ∧
  VoteOnProposal
    (with_decoders env
       (λ _, inl "no multisig") (λ _, inl "no proposal") (λ _, inl "no transaction"))
    (sample_vote_input "approve")
  = VoteOnProposal env (sample_vote_input "approve") ∧
  valid_action (Action short_key_vote_input) ∧
  PrivateKey_Validate env (Voter short_key_vote_input) = false ∧
  (VoteOnProposal env short_key_vote_input).1 = inl Panic.
Proof.
  intros env.
  assert (valid_action (Action (sample_vote_input "approve"))) as Hv by (by left).
  assert (valid_action (Action short_key_vote_input)) as Hv' by (by left).
  assert (ws_ok env (has_WsClient short_key_vote_input)) as Hws by (by left).
  split; [exact Hv|]. split.
  { exact (proj1 (VoteOnProposal_existence_check_only env (sample_vote_input "approve")
                    Hv) _ _ _). }
  split; [exact Hv'|]. split; [reflexivity|].
  exact (proj1 (proj1 (proj2 (proj2 (proj2 (proj2
           (VoteOnProposal_existence_check_only env short_key_vote_input Hv')))))
           _ _ Hws eq_refl eq_refl eq_refl eq_refl eq_refl)).
Defined.

(** C2, as the specification words it, fails: the proposal is already
    executed and the voter, whose key pair is valid, is already in its
    approved set, and [VoteOnProposal] submits the approve instruction. *)
Lemma VoteOnProposal_votes_on_executed_proposal :
  let proposal := sample_proposal (squads.ProposalStatusExecuted 100) [key_of 1] in
  let env := sample_env (sample_multisig 0 7) proposal sample_vault_transaction 0 in
  let input := sample_vote_input "approve" in
  stored_proposal env (GetProposalPDA env (Multisig input) (TransactionIndex input))
    proposal ∧
  PrivateKey_Validate env (Voter input) = true ∧
  ¬ status_allows "approve" (squads.Status proposal) ∧
  already_voted proposal (ed25519_Public (Voter input)) ∧
  ¬ vote_legal "approve" proposal (ed25519_Public (Voter input)) ∧
  submitted (VoteOnProposal env input) ∧
  ∃ out tx args multisig proposalPDA,
    VoteOnProposal env input
      = (inr out, [EvGetAccountInfo (key_of 9); EvGetAccountInfo proposalPDA;
                   EvGetLatestBlockhash; EvSendTransaction tx]) ∧
    tx_instructions tx = [squads.ProposalApprove args multisig (key_of 1) proposalPDA].
Proof.
  intros proposal env input.
  assert (∃ out tx args multisig proposalPDA,
    VoteOnProposal env input
      = (inr out, [EvGetAccountInfo (key_of 9); EvGetAccountInfo proposalPDA;
                   EvGetLatestBlockhash; EvSendTransaction tx]) ∧
    tx_instructions tx = [squads.ProposalApprove args multisig (key_of 1) proposalPDA])
    as Hrun.
  { eexists _, _, _, _, _. split; [vm_compute; reflexivity|reflexivity]. }
  split; [|split; [|split; [|split; [|split; [|split]]]]].
  - eexists. split; reflexivity.
  - reflexivity.
  - simpl. tauto.
  - unfold already_voted. simpl. left.
  - intros [Hs _]. simpl in Hs. done.
  - destruct Hrun as (out & tx & ? & ? & ? & Hrun & _).
    exists tx. rewrite Hrun. simpl. set_solver.
  - exact Hrun.
Qed.

Lemma ExecuteProposal_fst env input m p t1 t2 :
  ws_ok env (has_wsClient input) →
  fetchMultisigAccount env (multisigPDA input) = (inr m, t1) →
  fetchProposalAccount env
    (GetProposalPDA env (multisigPDA input) (transactionIndex input)) = (inr p, t2) →
  (ExecuteProposal env input).1 =
  (run_bind (check_executable env m p (executor input))
        (λ _, submit_execute env input)).1.
Proof.
  intros Hws Hm Hp. unfold ExecuteProposal.
  rewrite fst_with_ws_client by done.
  rewrite (fst_bind_inr _ _ m t1) by (by rewrite Hm).
  rewrite (fst_bind_inr _ _ p t2) by (by rewrite Hp).
  done.
Qed.

Lemma not_submitted_check_executable env m p k : ¬ submitted (check_executable env m p k).
Proof.
  unfold check_executable. intros H.
  destruct (squads.Status p); try (by apply not_submitted_throw in H).
  destruct (_ && _); [by apply not_submitted_throw in H|].
  apply submitted_bind in H as [H|(key & t & _ & H)];
    [by apply not_submitted_PublicKey in H|].
  destruct (negb _); [by apply not_submitted_throw in H|by apply not_submitted_ret in H].
Qed.

Lemma submitted_ExecuteProposal env input :
  submitted (ExecuteProposal env input) →
  ∃ m p t1 t2,
    fetchMultisigAccount env (multisigPDA input) = (inr m, t1) ∧
    fetchProposalAccount env
      (GetProposalPDA env (multisigPDA input) (transactionIndex input)) = (inr p, t2) ∧
    executable env m p (executor input).
Proof.
  unfold ExecuteProposal. intros [H _]%submitted_with_ws_client.
  apply submitted_bind in H as [H|(m & t1 & Hm & H)].
  { apply submitted_wrap_error in H. by apply not_submitted_fetchAccount in H. }
  apply submitted_bind in H as [H|(p & t2 & Hp & H)].
  { apply submitted_wrap_error in H. by apply not_submitted_fetchAccount in H. }
  apply submitted_bind in H as [H|([] & t3 & Hc & H)].
  { by apply not_submitted_check_executable in H. }
  apply wrap_error_inr in Hm, Hp.
  exists m, p, t1, t2. split; [done|]. split; [done|].
  apply check_executable_ok. eauto.
Qed.

(** C3, as the code has it: [ExecuteProposal] submits only when the proposal
    status is Approved, the executor's key pair is valid and has the execute
    bit (value 4) in the mask of one of its member entries, and, for a
    time-lock greater than 0, the clock is not before the end of the
    time-lock; the clock is not consulted when the time-lock is 0.
    Otherwise it returns a distinct error: not-approved for any other
    status, else timelock-not-elapsed when a positive time-lock has not
    elapsed, else it panics on a key pair that is not valid, else
    no-execute-permission.  The end of the time-lock is computed by package
    time on int64 seconds; when that arithmetic does not overflow it is
    [approvedTimestamp + timeLock] seconds, and the clock is before it
    exactly when the current time is less.  With a time-lock of 0 the checks
    pass at any time, and an executor whose mask is 0 never gets a
    submission. *)
Theorem ExecuteProposal_preconditions (env : Env) (input : ExecuteInput) :
  let executorKey := ed25519_Public (executor input) in
  let proposalPDA := GetProposalPDA env (multisigPDA input) (transactionIndex input) in
  (submitted (ExecuteProposal env input) →
   ∃ m p t1 t2,
     fetchMultisigAccount env (multisigPDA input) = (inr m, t1) ∧
     fetchProposalAccount env proposalPDA = (inr p, t2) ∧
     executable env m p (executor input)) ∧
  (∀ m p t1 t2,
     ws_ok env (has_wsClient input) →
     fetchMultisigAccount env (multisigPDA input) = (inr m, t1) →
     fetchProposalAccount env proposalPDA = (inr p, t2) →
     match squads.Status p with
     | squads.ProposalStatusApproved approvedTimestamp =>
         let timelockEnd := timelockEnd_of approvedTimestamp (squads.TimeLock m) in
         let pending :=
           squads.TimeLock m > 0 ∧ Time_Before (time_Now env) timelockEnd = true in
         (pending →
          (ExecuteProposal env input).1 = inl (ErrTimelockNotElapsed timelockEnd)) ∧
         (¬ pending → PrivateKey_Validate env (executor input) = false →
          (ExecuteProposal env input).1 = inl Panic) ∧
         (¬ pending → PrivateKey_Validate env (executor input) = true →
          ¬ has_execute_bit m executorKey →
          (ExecuteProposal env input).1 = inl (ErrNoExecutePermission executorKey))
     | status =>
         (ExecuteProposal env input).1
           = inl (ErrNotApproved (getProposalStatusString status))
     end) ∧
  (∀ approvedTimestamp timeLock,
     time_in_range approvedTimestamp timeLock →
     timelockEnd_of approvedTimestamp timeLock
       = {| Time_sec := approvedTimestamp + timeLock + unixToInternal; Time_nsec := 0 |} ∧
     (Time_Before (time_Now env) (timelockEnd_of approvedTimestamp timeLock) = true ↔
      Now env < (approvedTimestamp + timeLock) * second)) ∧
  (∀ m p approvedTimestamp,
     squads.Status p = squads.ProposalStatusApproved approvedTimestamp →
     squads.TimeLock m = 0 →
     PrivateKey_Validate env (executor input) = true →
     has_execute_bit m executorKey →
     check_executable env m p (executor input) = (inr tt, [])) ∧
  (∀ m t1,
     fetchMultisigAccount env (multisigPDA input) = (inr m, t1) →
     (∀ member, member ∈ squads.Members m → squads.Key member = executorKey →
                squads.Mask (squads.Permissions_of member) = 0) →
     ¬ submitted (ExecuteProposal env input)).
Proof.
  intros executorKey proposalPDA. subst executorKey proposalPDA.
  split; [apply submitted_ExecuteProposal|]. split; [|split; [|split]].
  - intros m p t1 t2 Hws Hm Hp.
    rewrite (ExecuteProposal_fst env input m p t1 t2) by done.
    unfold check_executable, PrivateKey_PublicKey.
    destruct (squads.Status p) as [ts|ts|ts|ts| |ts|ts]; try done.
    cbn zeta. split; [|split].
    + intros [Hlock Hnow]. by rewrite Hnow, bool_decide_true.
    + intros Hnot Hinvalid. rewrite Hinvalid.
      destruct (Time_Before _ _) eqn:Hnow; case_bool_decide; simpl; try done.
      by destruct Hnot.
    + intros Hnot Hvalid Hperm. rewrite Hvalid.
      rewrite <- hasExecutePermission_true in Hperm.
      apply not_true_is_false in Hperm.
      destruct (Time_Before _ _) eqn:Hnow; case_bool_decide; simpl;
        rewrite ?Hperm; try done.
      by destruct Hnot.
  - intros ts tl Hr. split.
    + by apply timelockEnd_of_in_range.
    + by apply Time_Before_in_range.
  - intros m p ts Hs Hlock Hvalid Hperm.
    unfold check_executable, PrivateKey_PublicKey. rewrite Hs, Hlock, Hvalid.
    apply hasExecutePermission_true in Hperm.
    rewrite (bool_decide_false (0 > 0)) by lia. rewrite andb_false_r. simpl.
    by rewrite Hperm.
  - intros m t1 Hm Hmask Hsub.
    apply submitted_ExecuteProposal in Hsub
      as (m' & p & t1' & t2 & Hm' & _ & (ts & _ & _ & _ & (member & Hin & Hk & Hbit))).
    rewrite Hm in Hm'. injection Hm' as <- _.
    rewrite (Hmask member Hin Hk) in Hbit. done.
Qed.

Lemma ExecuteProposal_preconditions_witness :
  let m := sample_multisig 3600 7 in
  let p := sample_proposal (squads.ProposalStatusApproved 100) [key_of 1] in
  let env := sample_env m p sample_vault_transaction (200 * second) in
  let env0 := sample_env (sample_multisig 0 7) p sample_vault_transaction 0 in
  ws_ok env (has_wsClient sample_execute_input) ∧
  time_in_range 100 (squads.TimeLock m) ∧
  squads.TimeLock m > 0 ∧
  Now env < (100 + squads.TimeLock m) * second ∧
  (ExecuteProposal env sample_execute_input).1
    = inl (ErrTimelockNotElapsed
             {| Time_sec := 100 + squads.TimeLock m + unixToInternal;
                Time_nsec := 0 |}) ∧
  PrivateKey_Validate env0 (executor short_key_execute_input) = false ∧
  (ExecuteProposal env0 short_key_execute_input).1 = inl Panic.
Proof.
  intros m p env env0.
  assert (ws_ok env (has_wsClient sample_execute_input)) as Hws by (by left).
  assert (ws_ok env0 (has_wsClient short_key_execute_input)) as Hws0 by (by left).
  assert (time_in_range 100 (squads.TimeLock m)) as Hrange by (by vm_compute).
  assert (squads.TimeLock m > 0) as Hlock by done.
  assert (Now env < (100 + squads.TimeLock m) * second) as Hnow by done.
  assert (PrivateKey_Validate env0 (executor short_key_execute_input) = false)
    as Hinvalid by reflexivity.
  split; [exact Hws|]. split; [exact Hrange|]. split; [exact Hlock|].
  split; [exact Hnow|]. split; [|split; [exact Hinvalid|]].
  - destruct (ExecuteProposal_preconditions env sample_execute_input)
      as (_ & Herr & Htime & _).
    destruct (Htime 100 (squads.TimeLock m) Hrange) as [Hend Hbefore].
    rewrite <- Hend.
    exact (proj1 (Herr m p _ _ Hws eq_refl eq_refl) (conj Hlock (proj2 Hbefore Hnow))).
  - destruct (ExecuteProposal_preconditions env0 short_key_execute_input)
      as (_ & Herr & _).
    refine (proj1 (proj2 (Herr (sample_multisig 0 7) p _ _ Hws0 eq_refl eq_refl))
              _ Hinvalid).
    intros [H _]. revert H. by vm_compute.
Defined.

(** C3, as the specification words it, fails: with a time-lock of 0 the
    proposal approved at second 100 is executed at second 50, before
    [approvedTimestamp + timeLock]. *)
Lemma ExecuteProposal_zero_timelock_ignores_clock :
  let m := sample_multisig 0 7 in
  let p := sample_proposal (squads.ProposalStatusApproved 100) [key_of 1] in
  let env := sample_env m p sample_vault_transaction (50 * second) in
  let input := sample_execute_input in
  (∃ t1, fetchMultisigAccount env (multisigPDA input) = (inr m, t1)) ∧
  (∃ t2, fetchProposalAccount env
           (GetProposalPDA env (multisigPDA input) (transactionIndex input))
         = (inr p, t2)) ∧
  time_in_range 100 (squads.TimeLock m) ∧
  PrivateKey_Validate env (executor input) = true ∧
  Now env < (100 + squads.TimeLock m) * second ∧
  ¬ executable_by_spec env m p (ed25519_Public (executor input)) ∧
  submitted (ExecuteProposal env input) ∧
  ∃ out, (ExecuteProposal env input).1 = inr out.
Proof.
  intros m p env input.
  split; [by eexists|]. split; [by eexists|]. split; [by vm_compute|].
  split; [reflexivity|]. split; [done|].
  split; [|split].
  - intros (ts & [= <-] & Hnow & _). revert Hnow. vm_compute. tauto.
  - assert (∃ out tx events, ExecuteProposal env input
                               = (inr out, events ++ [EvSendTransaction tx]))
      as (out & tx & events & Hrun).
    { eexists _, _, [_; _; _; _]. vm_compute. reflexivity. }
    exists tx. rewrite Hrun. simpl. set_solver.
  - eexists. vm_compute. reflexivity.
Qed.

(** Outside that range the arithmetic of package time rules: a proposal
    whose approval timestamp is the largest int64 wraps around to a time
    before year 1, so a time-lock of one second counts as elapsed. *)
Lemma timelockEnd_of_wraps :
  let m := sample_multisig 1 7 in
  let p := sample_proposal (squads.ProposalStatusApproved (2 ^ 63 - 1)) [key_of 1] in
  let env := sample_env m p sample_vault_transaction (200 * second) in
  ¬ time_in_range (2 ^ 63 - 1) (squads.TimeLock m) ∧
  Now env < (2 ^ 63 - 1 + squads.TimeLock m) * second ∧
  Time_Before (time_Now env) (timelockEnd_of (2 ^ 63 - 1) (squads.TimeLock m)) = false ∧
  check_executable env m p (executor sample_execute_input) = (inr tt, []).
Proof.
  intros m p env. split; [|split; [done|split; reflexivity]].
  intros (_ & _ & H). revert H. vm_compute. by intros [=].
Qed.

(** C10: an empty [Action] is treated as "approve", and an [Action] outside
    "approve", "reject", "cancel" (and not empty) makes [VoteOnProposal] return
    the invalid-action error with no event at all: no connection, no fetch,
    no submission. *)
Theorem VoteOnProposal_action_validation (env : Env) (input : ProposalVoteInput) :
  (Action input = "" →
   VoteOnProposal env input = VoteOnProposal env (with_Action input "approve")) ∧
  (Action input ≠ "" → ¬ valid_action (Action input) →
   VoteOnProposal env input = (inl (ErrInvalidAction (Action input)), [])).
Proof.
  split.
  - intros H. unfold VoteOnProposal, with_Action. simpl. rewrite H. done.
  - intros Hne Hinv. unfold VoteOnProposal.
    rewrite (decide_False (P := Action input = "")) by done.
    rewrite decide_True; [done|]. unfold valid_action in Hinv. tauto.
Qed.

Lemma VoteOnProposal_action_validation_witness :
  Action (sample_vote_input "veto") ≠ "" ∧
  ¬ valid_action (Action (sample_vote_input "veto")) ∧
  VoteOnProposal
    (sample_env (sample_multisig 0 7)
       (sample_proposal (squads.ProposalStatusActive 100) [])
       sample_vault_transaction 0)
    (sample_vote_input "veto")
  = (inl (ErrInvalidAction "veto"), []).
Proof.
  assert (Action (sample_vote_input "veto") ≠ "") as H1 by discriminate.
  assert (¬ valid_action (Action (sample_vote_input "veto"))) as H2.
  { intros [H|[H|H]]; discriminate H. }
  split; [exact H1|]. split; [exact H2|].
  exact (proj2 (VoteOnProposal_action_validation _ (sample_vote_input "veto")) H1 H2).
Defined.

End TransactionProps.

(** * Further properties of the codec *)
Module CodecMore.
Import Codec CodecSpec CodecProps.

(** X1: messages without address-table lookups whose lengths fit their prefixes
    round-trip: the encoder succeeds, and the decoder reads the message back
    from the bytes written and leaves whatever follows them unread. *)
Theorem roundtrip_keeps_trailing_bytes (tm : TransactionMessage) (rest : list Z)
    (Hfit : message_fits tm) (Hnil : AddressTableLookups tm = []) :
  ∃ b, encode tm = (inr tt, b) ∧
       TransactionMessage_DecodeWith (b ++ rest) = (inr tm, rest).
Proof.
  exists (message_bytes tm). split.
  - apply (roundtrip_without_lookups tm Hfit Hnil).
  - apply (parses_message tm Hfit).
Qed.

Lemma roundtrip_keeps_trailing_bytes_witness :
  message_fits test_message ∧ AddressTableLookups test_message = [] ∧
  ∃ b, encode test_message = (inr tt, b) ∧
       TransactionMessage_DecodeWith (b ++ [7; 7]) = (inr test_message, [7; 7]).
Proof.
  split; [apply test_message_fits|]. split; [reflexivity|].
  apply (roundtrip_keeps_trailing_bytes test_message [7; 7]).
  - apply test_message_fits.
  - reflexivity.
Defined.

(** *** What a successful decode consumed *)

Lemma ReadFull_inv n s l r :
  ReadFull n s = (inr l, r) → s = l ++ r ∧ length l = n.
Proof.
  unfold ReadFull. destruct n as [|n].
  - by intros [= <- <-].
  - destruct s as [|x s]; [done|]. case_decide as Hlt; [done|].
    intros [= <- <-]. split.
    + symmetry. apply (take_drop (S n) (x :: s)).
    + apply (length_take_le (x :: s) (S n)). lia.
Qed.

Lemma bind_inv {A B} (d : M A) (k : A → M B) s b r :
  bind d k s = (inr b, r) → ∃ a s', d s = (inr a, s') ∧ k a s' = (inr b, r).
Proof.
  unfold bind. destruct (d s) as [[e|a] s']; [done|]. eauto.
Qed.

Lemma ret_inv {A} (a : A) s b r : ret a s = (inr b, r) → b = a ∧ r = s.
Proof. by intros [= <- <-]. Qed.

Lemma Decode_uint8_inv s v r :
  Decode_uint8 s = (inr v, r) → s = [v] ++ r.
Proof.
  unfold Decode_uint8. intros (l & s' & Hl & Hr)%bind_inv.
  apply ReadFull_inv in Hl as [-> Hlen]. apply ret_inv in Hr as [-> ->].
  destruct l as [|x [|y l]]; try done.
Qed.

Lemma Decode_uint16_inv s v r :
  bytes_ok s → Decode_uint16 s = (inr v, r) →
  s = uint16_le v ++ r ∧ 0 ≤ v < 65536.
Proof.
  unfold Decode_uint16. intros Hs (l & s' & Hl & Hr)%bind_inv.
  apply ReadFull_inv in Hl as [-> Hlen]. apply ret_inv in Hr as [-> ->].
  destruct l as [|x [|y [|z l]]]; try done.
  apply Forall_app in Hs as [Hs _].
  apply Forall_cons in Hs as [Hx Hs]. apply Forall_cons in Hs as [Hy _].
  simpl. unfold uint16_le. split; [|lia].
  assert ((x + 256 * y) mod 256 = x) as -> by (Z.div_mod_to_equations; lia).
  assert ((x + 256 * y) / 256 = y) as -> by (Z.div_mod_to_equations; lia).
  by rewrite Z.mod_small.
Qed.

Lemma bytes_ok_app_r s w r : bytes_ok s → s = w ++ r → bytes_ok r.
Proof. intros Hs ->. by apply Forall_app in Hs as [_ ?]. Qed.

Lemma bytes_ok_app_l s w r : bytes_ok s → s = w ++ r → bytes_ok w.
Proof. intros Hs ->. by apply Forall_app in Hs as [? _]. Qed.

Lemma decode_each_inv {A} (d : M A) (w : A → list Z) (P : A → Prop) n :
  (∀ s a r, bytes_ok s → d s = (inr a, r) → s = w a ++ r ∧ P a) →
  ∀ s l r, bytes_ok s → decode_each d n s = (inr l, r) →
    s = concat (map w l) ++ r ∧ length l = n ∧ Forall P l.
Proof.
  intros Hd. induction n as [|n IH]; intros s l r Hs; simpl.
  - intros [-> ->]%ret_inv. done.
  - intros (x & s1 & Hx & H)%bind_inv.
    apply bind_inv in H as (xs & s2 & Hxs & H). apply ret_inv in H as [-> ->].
    destruct (Hd _ _ _ Hs Hx) as [E1 Px].
    destruct (IH _ _ _ (bytes_ok_app_r _ _ _ Hs E1) Hxs) as (E2 & Hlen & Pxs).
    subst. simpl. rewrite <- app_assoc. split; [done|]. split; [by f_equal|].
    by constructor.
Qed.

Lemma Decode_SmallVec_inv {A} (d : M A) (w : A → list Z) (P : A → Prop) :
  (∀ s a r, bytes_ok s → d s = (inr a, r) → s = w a ++ r ∧ P a) →
  ∀ s l r, bytes_ok s → Decode_SmallVec d s = (inr l, r) →
    s = ([uint8 (len l)] ++ concat (map w l)) ++ r ∧ len l ≤ 255 ∧ Forall P l.
Proof.
  intros Hd s l r Hs. unfold Decode_SmallVec.
  intros (n & s1 & Hn & H)%bind_inv.
  apply Decode_uint8_inv in Hn.
  pose proof (bytes_ok_app_l _ _ _ Hs Hn) as Hb.
  apply Forall_cons in Hb as [Hb _].
  destruct (decode_each_inv d w P _ Hd _ _ _ (bytes_ok_app_r _ _ _ Hs Hn) H)
    as (E & Hlen & HP).
  assert (len l = n) as Hl by (unfold len; lia).
  subst s s1. rewrite Hl, uint8_small by lia. rewrite <- app_assoc.
  split; [done|]. split; [lia|done].
Qed.

Lemma Decode_bytes_inv n s l r :
  bytes_ok s → 0 ≤ n → Decode_bytes n s = (inr l, r) →
  s = l ++ r ∧ len l = n ∧ bytes_ok l.
Proof.
  intros Hs Hn H. unfold Decode_bytes in H. apply ReadFull_inv in H as [E Hlen].
  split; [done|]. split; [unfold len; lia|]. by eapply bytes_ok_app_l.
Qed.

Lemma Decode_PublicKey_inv s k r :
  bytes_ok s → Decode_PublicKey s = (inr k, r) → s = id k ++ r ∧ key_typed k.
Proof.
  intros Hs H. unfold Decode_PublicKey in H. apply ReadFull_inv in H as [E Hlen].
  split; [done|]. split; [done|]. by eapply bytes_ok_app_l.
Qed.

Lemma byte_of_stream s v r : bytes_ok s → s = [v] ++ r → 0 ≤ v < 256.
Proof. intros Hs ->. by apply Forall_cons in Hs as [? _]. Qed.

Lemma instruction_inv s ci r :
  bytes_ok s → CompiledInstruction_DecodeWith s = (inr ci, r) →
  s = instruction_bytes ci ++ r ∧ (instruction_fits ci ∧ instruction_typed ci).
Proof.
  intros Hs. unfold CompiledInstruction_DecodeWith.
  intros (p & s1 & Hp & H)%bind_inv.
  apply bind_inv in H as (n & s2 & Hn & H).
  apply bind_inv in H as (accs & s3 & Haccs & H).
  apply bind_inv in H as (dl & s4 & Hdl & H).
  apply bind_inv in H as (data & s5 & Hdata & H).
  apply ret_inv in H as [-> ->].
  apply Decode_uint8_inv in Hp, Hn.
  pose proof (byte_of_stream _ _ _ Hs Hp) as Hpb.
  pose proof (bytes_ok_app_r _ _ _ Hs Hp) as Hs1.
  pose proof (byte_of_stream _ _ _ Hs1 Hn) as Hnb.
  pose proof (bytes_ok_app_r _ _ _ Hs1 Hn) as Hs2.
  destruct (Decode_bytes_inv _ _ _ _ Hs2 (proj1 Hnb) Haccs) as (E3 & Hla & Hab).
  pose proof (bytes_ok_app_r _ _ _ Hs2 E3) as Hs3.
  destruct (Decode_uint16_inv _ _ _ Hs3 Hdl) as (E4 & Hdlb).
  pose proof (bytes_ok_app_r _ _ _ Hs3 E4) as Hs4.
  destruct (Decode_bytes_inv _ _ _ _ Hs4 (proj1 Hdlb) Hdata) as (E5 & Hld & Hdb).
  unfold instruction_bytes, instruction_fits, instruction_typed. simpl.
  rewrite Hla, Hld, (uint8_small n) by lia. unfold uint16.
  rewrite (Z.mod_small dl 65536) by lia.
  subst s s1 s2 s3 s4. rewrite <- !app_assoc.
  split; [done|]. split; [lia|done].
Qed.

Lemma lookup_inv s l r :
  bytes_ok s → MessageAddressTableLookup_DecodeWith s = (inr l, r) →
  s = lookup_bytes l ++ r ∧ (lookup_fits l ∧ lookup_typed l).
Proof.
  intros Hs. unfold MessageAddressTableLookup_DecodeWith.
  intros (k & s1 & Hk & H)%bind_inv.
  apply bind_inv in H as (wl & s2 & Hwl & H).
  apply bind_inv in H as (wd & s3 & Hwd & H).
  apply bind_inv in H as (rl & s4 & Hrl & H).
  apply bind_inv in H as (rd & s5 & Hrd & H).
  apply ret_inv in H as [-> ->].
  destruct (Decode_PublicKey_inv _ _ _ Hs Hk) as (E1 & Hkt). unfold id in E1.
  pose proof (bytes_ok_app_r _ _ _ Hs E1) as Hs1.
  apply Decode_uint8_inv in Hwl.
  pose proof (byte_of_stream _ _ _ Hs1 Hwl) as Hwb.
  pose proof (bytes_ok_app_r _ _ _ Hs1 Hwl) as Hs2.
  destruct (Decode_bytes_inv _ _ _ _ Hs2 (proj1 Hwb) Hwd) as (E3 & Hlw & Hwdb).
  pose proof (bytes_ok_app_r _ _ _ Hs2 E3) as Hs3.
  apply Decode_uint8_inv in Hrl.
  pose proof (byte_of_stream _ _ _ Hs3 Hrl) as Hrb.
  pose proof (bytes_ok_app_r _ _ _ Hs3 Hrl) as Hs4.
  destruct (Decode_bytes_inv _ _ _ _ Hs4 (proj1 Hrb) Hrd) as (E5 & Hlr & Hrdb).
  unfold lookup_bytes, lookup_fits, lookup_typed. simpl.
  rewrite Hlw, Hlr, (uint8_small wl), (uint8_small rl) by lia.
  subst s s1 s2 s3 s4.
  split; [by repeat first [rewrite <- app_assoc | rewrite <- app_comm_cons]|].
  destruct Hkt as [Hk32 Hkb]. split; [split; [done|lia]|done].
Qed.

(** A successful decode consumed exactly the wire bytes of the message it
    returns, and that message fits the bounds and is well typed. *)
Lemma message_inv s tm r :
  bytes_ok s → TransactionMessage_DecodeWith s = (inr tm, r) →
  s = message_bytes tm ++ r ∧ message_fits tm ∧ message_typed tm.
Proof.
  intros Hs. unfold TransactionMessage_DecodeWith.
  intros (n1 & s1 & H1 & H)%bind_inv.
  apply bind_inv in H as (n2 & s2 & H2 & H).
  apply bind_inv in H as (n3 & s3 & H3 & H).
  apply bind_inv in H as (keys & s4 & H4 & H).
  apply bind_inv in H as (ixs & s5 & H5 & H).
  apply bind_inv in H as (lks & s6 & H6 & H).
  apply ret_inv in H as [-> ->].
  apply Decode_uint8_inv in H1, H2, H3.
  pose proof (byte_of_stream _ _ _ Hs H1) as B1.
  pose proof (bytes_ok_app_r _ _ _ Hs H1) as Hs1.
  pose proof (byte_of_stream _ _ _ Hs1 H2) as B2.
  pose proof (bytes_ok_app_r _ _ _ Hs1 H2) as Hs2.
  pose proof (byte_of_stream _ _ _ Hs2 H3) as B3.
  pose proof (bytes_ok_app_r _ _ _ Hs2 H3) as Hs3.
  destruct (Decode_SmallVec_inv _ _ _ Decode_PublicKey_inv _ _ _ Hs3 H4)
    as (E4 & L4 & P4).
  pose proof (bytes_ok_app_r _ _ _ Hs3 E4) as Hs4.
  destruct (Decode_SmallVec_inv _ _ _ instruction_inv _ _ _ Hs4 H5)
    as (E5 & L5 & P5).
  pose proof (bytes_ok_app_r _ _ _ Hs4 E5) as Hs5.
  destruct (Decode_SmallVec_inv _ _ _ lookup_inv _ _ _ Hs5 H6)
    as (E6 & L6 & P6).
  unfold message_bytes, message_fits, message_typed. simpl.
  subst s s1 s2 s3 s4 s5.
  split; [by repeat first [rewrite <- app_assoc | rewrite <- app_comm_cons]|].
  apply Forall_and in P5 as [P5f P5t]. apply Forall_and in P6 as [P6f P6t].
  split.
  - repeat split; try done. eapply Forall_impl; [exact P4|]. by intros k [? _].
  - repeat split; try done; lia.
Qed.

(** X2: decoding a byte stream and encoding the result gives back exactly the
    bytes that were consumed: a decoded message always fits the length
    prefixes and is well typed, and when it has no address-table lookup the
    encoder writes the consumed bytes for it. *)
Theorem decode_then_encode (s : list Z) (tm : TransactionMessage) (r : list Z)
    (Hs : bytes_ok s) (Hdec : TransactionMessage_DecodeWith s = (inr tm, r)) :
  message_fits tm ∧ message_typed tm ∧
  (AddressTableLookups tm = [] → ∃ w, encode tm = (inr tt, w) ∧ s = w ++ r).
Proof.
  destruct (message_inv s tm r Hs Hdec) as (E & Hfit & Htyped).
  split; [done|]. split; [done|]. intros Hnil.
  exists (message_bytes tm). split; [|done].
  apply (roundtrip_without_lookups tm Hfit Hnil).
Qed.

Lemma decode_then_encode_witness :
  bytes_ok (message_bytes test_message ++ [7]) ∧
  TransactionMessage_DecodeWith (message_bytes test_message ++ [7])
    = (inr test_message, [7]) ∧
  ∃ w, encode test_message = (inr tt, w) ∧ message_bytes test_message ++ [7] = w ++ [7].
Proof.
  assert (bytes_ok (message_bytes test_message ++ [7])) as Hs.
  { apply (bool_decide_unpack _). vm_compute. exact I. }
  assert (TransactionMessage_DecodeWith (message_bytes test_message ++ [7])
          = (inr test_message, [7])) as Hd by (vm_compute; reflexivity).
  split; [exact Hs|]. split; [exact Hd|].
  exact (proj2 (proj2 (decode_then_encode _ _ _ Hs Hd)) eq_refl).
Defined.

Lemma bytes_ok_concat (ls : list (list Z)) : Forall bytes_ok ls → bytes_ok (concat ls).
Proof.
  induction 1 as [|l ls Hl _ IH]; simpl; [constructor|]. by apply Forall_app.
Qed.

Lemma uint8_range x : 0 ≤ uint8 x < 256.
Proof. unfold uint8. apply Z.mod_pos_bound. lia. Qed.

Lemma bytes_ok_uint16_le x : bytes_ok (uint16_le x).
Proof.
  unfold uint16_le. repeat constructor; apply Z.mod_pos_bound; lia.
Qed.

Lemma bytes_ok_instruction ci : instruction_typed ci → bytes_ok (instruction_bytes ci).
Proof.
  intros (Hp & Ha & Hd). unfold instruction_bytes, bytes_ok, uint16_le.
  rewrite !Forall_app, !Forall_cons.
  pose proof (uint8_range (len (AccountIndexes ci))).
  pose proof (Z.mod_pos_bound (uint16 (len (Data ci))) 256).
  pose proof (Z.mod_pos_bound (uint16 (len (Data ci)) / 256) 256).
  repeat split; try done; try lia; apply Forall_nil_2.
Qed.

Lemma bytes_ok_lookup l : lookup_typed l → bytes_ok (lookup_bytes l).
Proof.
  intros ([_ Hk] & Hw & Hr). unfold lookup_bytes, bytes_ok.
  rewrite !Forall_app, !Forall_cons.
  pose proof (uint8_range (len (WritableIndexes l))).
  pose proof (uint8_range (len (ReadonlyIndexes l))).
  repeat split; try done; try lia; apply Forall_nil_2.
Qed.

Lemma bytes_ok_message tm : message_typed tm → bytes_ok (message_bytes tm).
Proof.
  intros (H1 & H2 & H3 & Hk & Hi & Hl). unfold message_bytes.
  assert (bytes_ok (concat (map id (AccountKeys tm)))) as Ck.
  { apply bytes_ok_concat, Forall_fmap. eapply Forall_impl; [exact Hk|].
    by intros k [_ ?]. }
  assert (bytes_ok (concat (map instruction_bytes (Instructions tm)))) as Ci.
  { apply bytes_ok_concat, Forall_fmap. eapply Forall_impl; [exact Hi|].
    apply bytes_ok_instruction. }
  assert (bytes_ok (concat (map lookup_bytes (AddressTableLookups tm)))) as Cl.
  { apply bytes_ok_concat, Forall_fmap. eapply Forall_impl; [exact Hl|].
    apply bytes_ok_lookup. }
  unfold bytes_ok in *. rewrite !Forall_app, !Forall_cons.
  pose proof (uint8_range (len (AccountKeys tm))).
  pose proof (uint8_range (len (Instructions tm))).
  pose proof (uint8_range (len (AddressTableLookups tm))).
  repeat split; try done; try lia; apply Forall_nil_2.
Qed.

(** X3: the encoder does not reject a list that is too long for its length
    prefix: on a well-typed message without lookups it always succeeds, and
    when some length does not fit, the bytes written never decode to the
    message that was encoded. *)
Theorem encode_truncates_length (tm : TransactionMessage)
    (Htyped : message_typed tm) (Hnil : AddressTableLookups tm = [])
    (Hlong : ¬ message_fits tm) :
  ∃ b, encode tm = (inr tt, b) ∧
       ∀ tm' r, TransactionMessage_DecodeWith b = (inr tm', r) → tm' ≠ tm.
Proof.
  exists (message_bytes tm). split.
  - unfold encode. by rewrite (emits_message tm Hnil []).
  - intros tm' r Hdec ->.
    by destruct (message_inv _ _ _ (bytes_ok_message tm Htyped) Hdec) as (_ & Hfit & _).
Qed.

Lemma long_message_typed : message_typed long_message.
Proof.
  unfold message_typed, long_message. cbn [NumSigners NumWritableSigners
    NumWritableNonSigners AccountKeys Instructions AddressTableLookups].
  split; [lia|]. split; [lia|]. split; [lia|].
  split; [|split; constructor].
  apply Forall_replicate. split; [done|]. apply Forall_replicate. lia.
Qed.

Lemma encode_truncates_length_witness :
  message_typed long_message ∧ AddressTableLookups long_message = [] ∧
  ¬ message_fits long_message ∧
  ∃ b, encode long_message = (inr tt, b) ∧
       ∀ tm' r, TransactionMessage_DecodeWith b = (inr tm', r) → tm' ≠ long_message.
Proof.
  assert (¬ message_fits long_message) as Hlong.
  { intros [H _]. revert H. vm_compute. tauto. }
  split; [apply long_message_typed|]. split; [reflexivity|]. split; [exact Hlong|].
  exact (encode_truncates_length long_message long_message_typed eq_refl Hlong).
Defined.

End CodecMore.

(** * Further properties of the resolver and the compiler *)
Module CompilerMore.
Import Compiler CompilerSpec CompilerProps.

(** *** The index map of [CompileInstructions] *)

Lemma uint16_succ i : uint16 (uint16 i + 1) = uint16 (i + 1).
Proof. unfold uint16. by rewrite Z.add_mod_idemp_l. Qed.

Lemma index_fold keys : ∀ (m : gmap PublicKey Z) (i : Z),
  (∀ k, k ∉ keys → (foldl index_step (m, uint16 i) keys).1 !! k = m !! k) ∧
  (foldl index_step (m, uint16 i) keys).2 = uint16 (i + len keys) ∧
  (NoDup keys → ∀ (j : nat) k, keys !! j = Some k →
     (foldl index_step (m, uint16 i) keys).1 !! k = Some (uint16 (i + Z.of_nat j))).
Proof.
  induction keys as [|key keys IH]; intros m i.
  - simpl. split; [done|]. split; [by rewrite Z.add_0_r|]. intros _ j k Hj. done.
  - assert (foldl index_step (m, uint16 i) (key :: keys)
            = foldl index_step (<[key := uint16 i]> m, uint16 (i + 1)) keys) as ->.
    { cbn [foldl]. f_equal. unfold index_step. cbn [fst snd]. by rewrite uint16_succ. }
    destruct (IH (<[key := uint16 i]> m) (i + 1)) as (Hout & Hidx & Hin).
    split; [|split].
    + intros k Hk. rewrite Hout by (intros ?; apply Hk; by right).
      apply lookup_insert_ne. intros ->. apply Hk. left.
    + rewrite Hidx. f_equal. unfold len. cbn [length]. lia.
    + intros Hnd j k Hj. apply NoDup_cons in Hnd as [Hnotin Hnd].
      destruct j as [|j]; simpl in Hj.
      * injection Hj as ->. rewrite Hout by done. rewrite lookup_insert_eq.
        by rewrite Z.add_0_r.
      * rewrite (Hin Hnd j k Hj). do 2 f_equal. lia.
Qed.

Lemma accountIndexMap_of mk :
  foldl index_step
    (foldl index_step (foldl index_step (∅, 0) (StaticAccountKeys mk))
       (Writable (FromLookups mk))) (Readonly (FromLookups mk))
  = foldl index_step (∅, uint16 0) (combined mk).
Proof. unfold combined. by rewrite !foldl_app. Qed.

Lemma index_of_resolves mk k :
  NoDup (combined mk) → len (combined mk) ≤ 65536 → k ∈ combined mk →
  resolves (combined mk) k
    (index_of (foldl index_step (∅, uint16 0) (combined mk)).1 k).
Proof.
  intros Hnd Hlen Hin. apply list_elem_of_lookup in Hin as [j Hj].
  destruct (index_fold (combined mk) ∅ 0) as (_ & _ & Hidx).
  unfold index_of. rewrite (Hidx Hnd j k Hj). unfold default, from_option, id.
  pose proof (lookup_lt_Some _ _ _ Hj) as Hlt. unfold len in Hlen.
  unfold uint16. rewrite Z.add_0_l. rewrite Z.mod_small by lia. split; [lia|].
  by rewrite Nat2Z.id.
Qed.

Lemma index_of_unknown mk k :
  k ∉ combined mk → index_of (foldl index_step (∅, uint16 0) (combined mk)).1 k = 0.
Proof.
  intros Hk. destruct (index_fold (combined mk) ∅ 0) as (Hout & _).
  unfold index_of. by rewrite (Hout k Hk), lookup_empty.
Qed.

Lemma compile_instructions_sound mk instructions :
  NoDup (combined mk) → len (combined mk) ≤ 65536 →
  (∀ ix, ix ∈ instructions →
     solana.ProgramID ix ∈ combined mk ∧
     ∀ am, am ∈ solana.Accounts ix → solana.AccountMeta_PublicKey am ∈ combined mk) →
  Forall2 (compiled_as (combined mk)) instructions
          (CompileInstructions mk instructions).
Proof.
  intros Hnodup Hlen Hknown.
  unfold CompileInstructions. rewrite accountIndexMap_of.
  apply Forall2_fmap_r, Forall_Forall2_diag, Forall_forall.
  intros ix Hix. destruct (Hknown ix Hix) as [Hp Ha].
  unfold compiled_as. simpl. split; [by apply index_of_resolves|]. split; [|done].
  apply Forall2_fmap_r, Forall_Forall2_diag, Forall_forall.
  intros am Ham. apply index_of_resolves; auto.
Qed.

(** X4: when the combined key list has no duplicate and at most 65536 keys, and
    names the program and the accounts of every instruction, every compiled
    instruction designates them by position in that list, in the same order,
    with the payload unchanged. *)
Theorem CompileInstructions_resolves (mk : MessageAccountKeys)
    (instructions : list solana.Instruction)
    (Hnodup : NoDup (combined mk)) (Hlen : len (combined mk) ≤ 65536)
    (Hknown : ∀ ix, ix ∈ instructions →
       solana.ProgramID ix ∈ combined mk ∧
       ∀ am, am ∈ solana.Accounts ix → solana.AccountMeta_PublicKey am ∈ combined mk) :
  Forall2 (compiled_as (combined mk)) instructions
          (CompileInstructions mk instructions).
Proof. by apply compile_instructions_sound. Qed.

Lemma CompileInstructions_resolves_witness :
  NoDup (combined sample_account_keys) ∧
  len (combined sample_account_keys) ≤ 65536 ∧
  Forall2 (compiled_as (combined sample_account_keys)) [sample_instruction]
          (CompileInstructions sample_account_keys [sample_instruction]).
Proof.
  assert (NoDup (combined sample_account_keys)) as Hnd.
  { apply (bool_decide_unpack _). vm_compute. exact I. }
  assert (len (combined sample_account_keys) ≤ 65536) as Hlen by (vm_compute; discriminate).
  split; [exact Hnd|]. split; [exact Hlen|].
  apply (CompileInstructions_resolves sample_account_keys [sample_instruction] Hnd Hlen).
  intros ix Hix. apply list_elem_of_singleton in Hix as ->. split.
  - apply (bool_decide_unpack _). vm_compute. exact I.
  - intros am Ham. simpl in Ham.
    apply elem_of_cons in Ham as [->|Ham];
      [|apply list_elem_of_singleton in Ham as ->];
      apply (bool_decide_unpack _); vm_compute; exact I.
Defined.

(** X5: an address that is in none of the key lists is not reported: it compiles
    to index 0, the index of the first key. *)
Theorem CompileInstructions_unknown_address (mk : MessageAccountKeys)
    (instructions : list solana.Instruction) :
  Forall2 (λ ix ci,
      (solana.ProgramID ix ∉ combined mk → solana.ProgramIDIndex ci = 0) ∧
      Forall2 (λ am index,
                 solana.AccountMeta_PublicKey am ∉ combined mk → index = 0)
              (solana.Accounts ix) (solana.CompiledInstruction_Accounts ci))
    instructions (CompileInstructions mk instructions).
Proof.
  unfold CompileInstructions. rewrite accountIndexMap_of.
  apply Forall2_fmap_r, Forall_Forall2_diag, Forall_forall.
  intros ix _. simpl. split; [apply index_of_unknown|].
  apply Forall2_fmap_r, Forall_Forall2_diag, Forall_forall.
  intros am _ Ham. by apply index_of_unknown.
Qed.

(** *** Draining into a lookup table: what is extracted *)

Lemma find_entry_Some entries key : ∀ o i,
  find_entry entries key o = Some i →
  o ≤ i ∧ entries !! Z.to_nat (i - o) = Some key.
Proof.
  induction entries as [|e entries IH]; intros o i; simpl; [done|].
  case_decide as He.
  - intros [= <-]. subst. rewrite Z.sub_diag. split; [lia|done].
  - intros H. apply IH in H as [Hle Hl]. split; [lia|].
    replace (Z.to_nat (i - o)) with (S (Z.to_nat (i - (o + 1)))) by lia. done.
Qed.

Lemma find_entry_resolves entries key i :
  len entries ≤ 256 → find_entry entries key 0 = Some i →
  resolves entries key (uint8 i).
Proof.
  intros Hlen H. apply find_entry_Some in H as [Hle Hl]. rewrite Z.sub_0_r in Hl.
  pose proof (lookup_lt_Some _ _ _ Hl). unfold len in Hlen.
  unfold resolves, uint8. rewrite Z.mod_small by lia. split; [lia|done].
Qed.

Lemma drain_fold entries f order : ∀ d,
  ∃ idx' keys',
    lookupTableIndexes (foldl (drain_step entries f) d order)
      = lookupTableIndexes d ++ idx' ∧
    drainedKeys (foldl (drain_step entries f) d order) = drainedKeys d ++ keys' ∧
    Forall2 (drained_by entries f order) keys' idx' ∧
    sublist keys' order.*1 ∧
    ∀ a, remaining (foldl (drain_step entries f) d order) !! a =
         if decide (a ∈ keys') then None else remaining d !! a.
Proof.
  induction order as [|[address keyMeta] order IH]; intros d.
  - exists [], []. simpl. rewrite !app_nil_r. split; [done|]. split; [done|].
    split; [constructor|]. split; [constructor|]. done.
  - cbn [foldl].
    destruct (IH (drain_step entries f d (address, keyMeta)))
      as (idx' & keys' & Hi & Hk & Hf & Hs & Hr).
    assert (Forall2 (drained_by entries f ((address, keyMeta) :: order)) keys' idx')
      as Hf'.
    { eapply Forall2_impl; [exact Hf|]. intros k ix (i & meta & Hin & ? & ? & ?).
      exists i, meta. split; [by right|done]. }
    rewrite Hi, Hk. unfold drain_step in Hr |- *. clear Hi Hk.
    destruct (f keyMeta) eqn:Ef;
      [destruct (find_entry entries address 0) as [i|] eqn:Efind|].
    + exists (uint8 i :: idx'), (address :: keys'). cbn [lookupTableIndexes drainedKeys].
      rewrite <- !app_assoc. split; [done|]. split; [done|]. split.
      { constructor; [|done]. exists i, keyMeta. split; [left|done]. }
      split; [by constructor|]. intros a. rewrite Hr. cbn [remaining].
      destruct (decide (a = address)) as [->|Hne].
      * rewrite lookup_delete_eq. rewrite (decide_True (P := address ∈ address :: keys'))
          by left. by case_decide.
      * rewrite lookup_delete_ne by done.
        destruct (decide (a ∈ keys')) as [Hin|Hin].
        -- rewrite decide_True; [done|by right].
        -- rewrite decide_False; [done|].
           intros [?|?]%elem_of_cons; done.
    + exists idx', keys'. split; [done|]. split; [done|]. split; [done|].
      split; [by constructor|done].
    + exists idx', keys'. split; [done|]. split; [done|]. split; [done|].
      split; [by constructor|done].
Qed.

Lemma elem_of_keys_of m a : a ∈ keys_of m ↔ is_Some (m !! a).
Proof.
  unfold keys_of. rewrite list_elem_of_fmap. split.
  - intros ([k v] & -> & Hin). apply elem_of_map_to_list in Hin. by exists v.
  - intros [v Hv]. exists (a, v). split; [done|]. by apply elem_of_map_to_list.
Qed.

Lemma NoDup_keys_of m : NoDup (keys_of m).
Proof. apply NoDup_fst_map_to_list. Qed.

(** One drain, from a map visited in [order]. *)
Lemma drain_facts m entries f order :
  map_range m order →
  let d := drainKeysFoundInLookupTable_on m entries f order in
  Forall2 (drained_by entries f order) (drainedKeys d) (lookupTableIndexes d) ∧
  NoDup (drainedKeys d) ∧
  (∀ a, remaining d !! a = if decide (a ∈ drainedKeys d) then None else m !! a) ∧
  (∀ a, a ∈ drainedKeys d → ∃ meta, m !! a = Some meta ∧ f meta = true).
Proof.
  intros Hr d. subst d. unfold drainKeysFoundInLookupTable_on.
  destruct (drain_fold entries f order
    {| lookupTableIndexes := []; drainedKeys := []; remaining := m |})
    as (idx' & keys' & -> & -> & Hf & Hs & Hrem).
  cbn [lookupTableIndexes drainedKeys remaining app] in *.
  split; [done|]. split; [|split; [done|]].
  - eapply sublist_NoDup; [|exact Hs]. rewrite Hr. apply NoDup_fst_map_to_list.
  - intros a Ha. apply list_elem_of_lookup in Ha as [j Hj].
    destruct (Forall2_lookup_l _ _ _ _ _ Hf Hj) as (ix & _ & (i & meta & Hin & Hfm & _)).
    exists meta. split; [|done]. rewrite Hr in Hin.
    by apply elem_of_map_to_list in Hin.
Qed.

Lemma filter_writable meta :
  writable_filter meta = true →
  IsSigner meta = false ∧ IsInvoked meta = false ∧ IsWritable meta = true.
Proof. unfold writable_filter. destruct meta as [[] [] []]; simpl; done. Qed.

Lemma filter_readonly meta :
  readonly_filter meta = true →
  IsSigner meta = false ∧ IsInvoked meta = false ∧ IsWritable meta = false.
Proof. unfold readonly_filter. destruct meta as [[] [] []]; simpl; done. Qed.

Lemma drained_resolves entries f order keys idx :
  len entries ≤ 256 →
  Forall2 (drained_by entries f order) keys idx →
  Forall2 (resolves entries) keys idx.
Proof.
  intros Hlen H. eapply Forall2_impl; [exact H|].
  intros k ix (i & meta & _ & _ & Hfind & ->). by apply find_entry_resolves.
Qed.

(** The two drains of [ExtractTableLookup]. *)
Lemma extract_facts m table o1 o2 :
  map_range m o1 →
  map_range (remaining (drainKeysFoundInLookupTable_on m
               (solana.Addresses table) writable_filter o1)) o2 →
  let d1 := drainKeysFoundInLookupTable_on m
              (solana.Addresses table) writable_filter o1 in
  let d2 := drainKeysFoundInLookupTable_on (remaining d1)
              (solana.Addresses table) readonly_filter o2 in
  Forall2 (drained_by (solana.Addresses table) writable_filter o1)
          (drainedKeys d1) (lookupTableIndexes d1) ∧
  Forall2 (drained_by (solana.Addresses table) readonly_filter o2)
          (drainedKeys d2) (lookupTableIndexes d2) ∧
  NoDup (drainedKeys d1 ++ drainedKeys d2) ∧
  (∀ a, a ∈ drainedKeys d1 → ∃ meta, m !! a = Some meta ∧ writable_filter meta = true) ∧
  (∀ a, a ∈ drainedKeys d2 → ∃ meta, m !! a = Some meta ∧ readonly_filter meta = true) ∧
  (∀ a, remaining d2 !! a =
        if decide (a ∈ drainedKeys d1 ++ drainedKeys d2) then None else m !! a).
Proof.
  intros H1 H2 d1 d2.
  destruct (drain_facts m (solana.Addresses table) writable_filter o1 H1)
    as (Hf1 & Hn1 & Hr1 & Hm1).
  destruct (drain_facts (remaining d1) (solana.Addresses table) readonly_filter o2 H2)
    as (Hf2 & Hn2 & Hr2 & Hm2).
  fold d1 in Hf1, Hn1, Hr1, Hm1. fold d2 in Hf2, Hn2, Hr2, Hm2.
  assert (∀ a, a ∈ drainedKeys d2 →
            (a ∉ drainedKeys d1) ∧
            ∃ meta, m !! a = Some meta ∧ readonly_filter meta = true)
    as Hm2'.
  { intros a Ha. destruct (Hm2 a Ha) as (meta & Hl & Hfm). rewrite Hr1 in Hl.
    case_decide; [done|]. split; [done|]. by exists meta. }
  split; [done|]. split; [done|].
  split; [|split; [done|split]].
  - apply NoDup_app. split; [done|]. split; [|done].
    intros a Ha1 Ha2. by destruct (Hm2' a Ha2).
  - intros a Ha. by destruct (Hm2' a Ha).
  - intros a. rewrite Hr2, Hr1.
    destruct (decide (a ∈ drainedKeys d2)) as [Hd2|Hd2].
    + rewrite decide_True; [done|]. apply elem_of_app. by right.
    + destruct (decide (a ∈ drainedKeys d1)) as [Hd1|Hd1].
      * rewrite decide_True; [done|]. apply elem_of_app. by left.
      * rewrite decide_False; [done|]. intros [?|?]%elem_of_app; done.
Qed.

(** Every result of [ExtractTableLookup]. *)
Lemma extract_run_facts m table res :
  ExtractTableLookup m table res →
  match res.1 with
  | None => res.2 = m
  | Some (lookup, keys) =>
      solana.AccountKey lookup = solana.Key table ∧
      (len (solana.Addresses table) ≤ 256 →
       Forall2 (resolves (solana.Addresses table)) (Writable keys)
               (solana.WritableIndexes lookup) ∧
       Forall2 (resolves (solana.Addresses table)) (Readonly keys)
               (solana.ReadonlyIndexes lookup)) ∧
      Writable keys ++ Readonly keys ≠ [] ∧
      NoDup (Writable keys ++ Readonly keys) ∧
      (∀ a, a ∈ Writable keys →
         ∃ meta, m !! a = Some meta ∧ IsSigner meta = false ∧ IsWritable meta = true) ∧
      (∀ a, a ∈ Readonly keys →
         ∃ meta, m !! a = Some meta ∧ IsSigner meta = false ∧ IsWritable meta = false) ∧
      (∀ a, res.2 !! a =
            if decide (a ∈ Writable keys ++ Readonly keys) then None else m !! a)
  end.
Proof.
  intros (o1 & o2 & H1 & H2 & ->).
  destruct (extract_facts m table o1 o2 H1 H2) as (Hf1 & Hf2 & Hnd & Hm1 & Hm2 & Hr).
  unfold ExtractTableLookup_on. cbv zeta. case_bool_decide as Hnil; cbn [fst snd].
  - destruct Hnil as [E1 E2]. rewrite E1 in Hf1. rewrite E2 in Hf2.
    apply Forall2_nil_inv_r in Hf1, Hf2. apply map_eq. intros a.
    rewrite Hr, Hf1, Hf2. by rewrite decide_False by apply not_elem_of_nil.
  - cbn [solana.AccountKey solana.WritableIndexes solana.ReadonlyIndexes
         Writable Readonly].
    split; [done|]. split.
    { intros Hlen. split; by eapply drained_resolves. }
    split; [|split; [done|]].
    + intros [E1 E2]%app_eq_nil. rewrite E1 in Hf1. rewrite E2 in Hf2.
      apply Forall2_nil_inv_l in Hf1, Hf2. by apply Hnil.
    + split; [|split; [|done]].
      * intros a Ha. destruct (Hm1 a Ha) as (meta & Hl & Hfm).
        apply filter_writable in Hfm as (? & ? & ?). by exists meta.
      * intros a Ha. destruct (Hm2 a Ha) as (meta & Hl & Hfm).
        apply filter_readonly in Hfm as (? & ? & ?). by exists meta.
Qed.

(** X6: for a table of at most 256 addresses, [ExtractTableLookup] either finds
    nothing and leaves the map as it is, or returns a lookup on the table's
    key whose writable and readonly indexes designate, position by position,
    the extracted keys in the table; the extracted keys are distinct
    non-signer entries of the map, writable ones in the writable list and the
    others in the readonly list, and they are exactly the entries the map
    loses. *)
Theorem ExtractTableLookup_sound (m : gmap PublicKey CompiledKeyMeta)
    (table : solana.KeyedAddressLookupTable)
    (res : option (solana.MessageAddressTableLookup * AccountKeysFromLookups)
           * gmap PublicKey CompiledKeyMeta)
    (Hsize : len (solana.Addresses table) ≤ 256)
    (Hrun : ExtractTableLookup m table res) :
  match res.1 with
  | None => res.2 = m
  | Some (lookup, keys) =>
      solana.AccountKey lookup = solana.Key table ∧
      Forall2 (resolves (solana.Addresses table)) (Writable keys)
              (solana.WritableIndexes lookup) ∧
      Forall2 (resolves (solana.Addresses table)) (Readonly keys)
              (solana.ReadonlyIndexes lookup) ∧
      Writable keys ++ Readonly keys ≠ [] ∧
      NoDup (Writable keys ++ Readonly keys) ∧
      (∀ a, a ∈ Writable keys →
         ∃ meta, m !! a = Some meta ∧ IsSigner meta = false ∧ IsWritable meta = true) ∧
      (∀ a, a ∈ Readonly keys →
         ∃ meta, m !! a = Some meta ∧ IsSigner meta = false ∧ IsWritable meta = false) ∧
      (∀ a, res.2 !! a =
            if decide (a ∈ Writable keys ++ Readonly keys) then None else m !! a)
  end.
Proof.
  pose proof (extract_run_facts m table res Hrun) as H.
  destruct res as [[[lookup keys]|] m']; cbn [fst snd] in *; [|done].
  destruct H as (Hk & Hres & Hrest). destruct (Hres Hsize) as [Hw Hro].
  split; [done|]. split; [done|]. split; [done|]. exact Hrest.
Qed.

Lemma ExtractTableLookup_sound_witness :
  len (solana.Addresses sample_table) ≤ 256 ∧
  ∃ lookup keys m',
    ExtractTableLookup (KeyMetaMap (CompileKeys [sample_instruction] sample_payer))
      sample_table (Some (lookup, keys), m') ∧
    Forall2 (resolves (solana.Addresses sample_table)) (Readonly keys)
            (solana.ReadonlyIndexes lookup).
Proof.
  assert (len (solana.Addresses sample_table) ≤ 256) as Hsize
    by (vm_compute; discriminate).
  split; [exact Hsize|].
  pose (m := KeyMetaMap (CompileKeys [sample_instruction] sample_payer)).
  pose (o1 := map_to_list m).
  pose (o2 := map_to_list (remaining (drainKeysFoundInLookupTable_on m
                 (solana.Addresses sample_table) writable_filter o1))).
  assert (ExtractTableLookup m sample_table (ExtractTableLookup_on m sample_table o1 o2))
    as Hrun.
  { exists o1, o2. split; [by unfold map_range|]. split; [by unfold map_range|done]. }
  pose proof (ExtractTableLookup_sound m sample_table _ Hsize Hrun) as Hs.
  destruct (ExtractTableLookup_on m sample_table o1 o2) as [[[lookup keys]|] m'] eqn:E;
    [|vm_compute in E; discriminate E].
  exists lookup, keys, m'. split; [exact Hrun|].
  exact (proj1 (proj2 (proj2 Hs))).
Defined.

(** *** The loop over the lookup tables *)

Lemma removed_perm (m m' : gmap PublicKey CompiledKeyMeta) (ks : list PublicKey) :
  NoDup ks → (∀ a, a ∈ ks → is_Some (m !! a)) →
  (∀ a, m' !! a = if decide (a ∈ ks) then None else m !! a) →
  ks ++ keys_of m' ≡ₚ keys_of m.
Proof.
  intros Hnd Hin Hr. apply NoDup_Permutation.
  - apply NoDup_app. split; [done|]. split; [|apply NoDup_keys_of].
    intros a Ha [v Hv]%elem_of_keys_of. rewrite Hr, decide_True in Hv by done. done.
  - apply NoDup_keys_of.
  - intros a. rewrite elem_of_app, !elem_of_keys_of, Hr.
    destruct (decide (a ∈ ks)) as [Hd|Hd]; split.
    + intros _. by apply Hin.
    + by left.
    + intros [?|?]; done.
    + by right.
Qed.

Lemma keys_inv_initial m0 : keys_inv m0 (initial_extraction m0).
Proof. unfold keys_inv, initial_extraction. simpl. done. Qed.

Lemma extract_tables_keys_inv m0 st tables st' :
  extract_tables st tables st' → keys_inv m0 st → keys_inv m0 st'.
Proof.
  induction 1 as [st|st t tables m' st' Hx _ IH|st t tables lookup keys m' st' Hx _ IH];
    intros Hinv; [done| |]; apply IH; clear IH.
  - apply extract_run_facts in Hx. cbn [fst snd] in Hx. subst m'.
    unfold keys_inv in *. by cbn [accountKeysFromLookups keys_left].
  - apply extract_run_facts in Hx as (_ & _ & _ & Hnd & Hw & Hro & Hr).
    cbn [fst snd] in Hr. destruct Hinv as (Hp & Hsub & Hsig).
    unfold keys_inv. cbn [accountKeysFromLookups keys_left Writable Readonly].
    split; [|split].
    + assert ((Writable keys ++ Readonly keys) ++ keys_of m' ≡ₚ keys_of (keys_left st))
        as P1.
      { apply removed_perm; [done| |done].
        intros a [Ha|Ha]%elem_of_app;
          [destruct (Hw a Ha) as (meta & -> & _)|destruct (Hro a Ha) as (meta & -> & _)];
          done. }
      unfold keys_of in P1. rewrite <- Hp, <- P1. rewrite <- !app_assoc. f_equiv.
      rewrite !app_assoc. do 2 f_equiv. apply Permutation_app_comm.
    + apply map_subseteq_spec. intros a meta Hm'. rewrite Hr in Hm'.
      case_decide; [done|]. by eapply lookup_weaken.
    + intros a meta Hm0 Hs. rewrite Hr. pose proof (Hsig a meta Hm0 Hs) as Hl.
      case_decide as Hd; [|done]. exfalso.
      apply elem_of_app in Hd as [Hd|Hd];
        [destruct (Hw a Hd) as (meta' & Hl' & Hs' & _)
        |destruct (Hro a Hd) as (meta' & Hl' & Hs' & _)];
        rewrite Hl in Hl'; injection Hl' as <-; congruence.
Qed.

Lemma extract_tables_loads_inv tables0 st tables st' :
  extract_tables st tables st' →
  (∀ t, t ∈ tables → t ∈ tables0 ∧ len (solana.Addresses t) ≤ 256) →
  ∀ loaded, loads_inv tables0 st loaded → ∃ loaded', loads_inv tables0 st' loaded'.
Proof.
  induction 1 as [st|st t tables m' st' Hx _ IH|st t tables lookup keys m' st' Hx _ IH];
    intros Hall loaded Hinv.
  - by exists loaded.
  - apply (IH ltac:(intros t' Ht'; apply Hall; by right) loaded). exact Hinv.
  - apply (IH ltac:(intros t' Ht'; apply Hall; by right) (loaded ++ [keys])).
    apply extract_run_facts in Hx as (Hk & Hres & _).
    destruct (Hall t ltac:(left)) as [Hin Hlen]. destruct (Hres Hlen) as [Hw Hro].
    destruct Hinv as (Hl & HW & HR). unfold loads_inv.
    cbn [addressTableLookups accountKeysFromLookups Writable Readonly].
    rewrite !fmap_app, !concat_app. simpl. rewrite !app_nil_r, HW, HR.
    split; [|done]. apply Forall2_app; [done|]. constructor; [|constructor].
    exists t. by rewrite Hk.
Qed.

(** *** The static account keys *)

Lemma buckets_perm order :
  bucket writableSigners order ++ bucket readonlySigners order ++
  bucket writableNonSigners order ++ bucket readonlyNonSigners order ≡ₚ order.*1.
Proof.
  induction order as [|[address meta] order IH]; [done|].
  rewrite !bucket_cons. cbn [fmap list_fmap fst]. rewrite <- IH.
  destruct (bucket_of meta); simpl.
  - done.
  - by rewrite <- Permutation_middle.
  - rewrite (app_assoc (bucket writableSigners order)).
    rewrite <- Permutation_middle. by rewrite <- app_assoc.
  - rewrite !app_assoc. rewrite <- Permutation_middle. by rewrite <- !app_assoc.
Qed.

Lemma static_keys_perm m order :
  map_range m order → (GetMessageComponents_on order).2 ≡ₚ keys_of m.
Proof.
  intros Hr. rewrite GetMessageComponents_on_buckets. cbn [snd].
  rewrite buckets_perm. unfold keys_of. by rewrite Hr.
Qed.

Lemma elem_of_bucket c order key :
  key ∈ bucket c order → ∃ meta, (key, meta) ∈ order ∧ bucket_of meta = c.
Proof.
  unfold bucket. intros ([k meta] & -> & [Hb Hin]%list_elem_of_filter)%list_elem_of_fmap.
  by exists meta.
Qed.

Lemma bucket_of_flags meta :
  match bucket_of meta with
  | writableSigners => IsSigner meta = true ∧ IsWritable meta = true
  | readonlySigners => IsSigner meta = true ∧ IsWritable meta = false
  | writableNonSigners => IsSigner meta = false ∧ IsWritable meta = true
  | readonlyNonSigners => IsSigner meta = false ∧ IsWritable meta = false
  end.
Proof. unfold bucket_of. destruct meta as [[] [] ?]; simpl; done. Qed.

Lemma bucket_has_flags m m0 order c :
  map_range m order → m ⊆ m0 →
  Forall (has_flags m0
            (bool_decide (c = writableSigners ∨ c = readonlySigners))
            (bool_decide (c = writableSigners ∨ c = writableNonSigners)))
         (bucket c order).
Proof.
  intros Hr Hsub. apply Forall_forall. intros key (meta & Hin & Hb)%elem_of_bucket.
  rewrite Hr in Hin. apply elem_of_map_to_list in Hin.
  exists meta. split; [by eapply lookup_weaken|].
  pose proof (bucket_of_flags meta) as Hfl. rewrite Hb in Hfl.
  destruct c; destruct Hfl as [-> ->]; done.
Qed.

Lemma referenced_in_map instructions payer ix :
  ix ∈ instructions →
  is_Some (KeyMetaMap (CompileKeys instructions payer) !! solana.ProgramID ix) ∧
  ∀ am, am ∈ solana.Accounts ix →
    is_Some (KeyMetaMap (CompileKeys instructions payer)
               !! solana.AccountMeta_PublicKey am).
Proof.
  intros Hix. split.
  - rewrite CompileKeys_lookup, decide_True; [done|]. right. left.
    apply list_elem_of_fmap. by exists ix.
  - intros am Ham. rewrite CompileKeys_lookup, decide_True; [done|]. right. right.
    unfold occurrences, listed. intros Hnil.
    assert (am ∈ filter
      (λ am', solana.AccountMeta_PublicKey am' = solana.AccountMeta_PublicKey am)
      (concat (map solana.Accounts instructions))) as Hin.
    { apply list_elem_of_filter. split; [done|]. apply list_elem_of_In, in_concat.
      exists (solana.Accounts ix). split; [|by apply list_elem_of_In].
      apply in_map. by apply list_elem_of_In. }
    rewrite Hnil in Hin. by apply elem_of_nil in Hin.
Qed.

(** *** Every run of the compiler *)

Lemma run_combined_perm m0 st order :
  keys_inv m0 st → map_range (keys_left st) order →
  combined {| StaticAccountKeys := (GetMessageComponents_on order).2;
              FromLookups := accountKeysFromLookups st |} ≡ₚ keys_of m0.
Proof.
  intros (Hp & _) Hr. unfold combined. cbn [StaticAccountKeys FromLookups].
  rewrite (static_keys_perm _ _ Hr). unfold keys_of. rewrite <- Hp.
  apply Permutation_app_comm.
Qed.

Lemma encoded_of_compiled keys ix ci :
  len keys ≤ 256 → compiled_as keys ix ci →
  encoded_as keys ix
    {| Codec.ProgramIdIndex := uint8 (solana.ProgramIDIndex ci);
       Codec.AccountIndexes :=
         Propose.convertToUint8Slice (solana.CompiledInstruction_Accounts ci);
       Codec.Data := solana.CompiledInstruction_Data ci |}.
Proof.
  intros Hlen (Hp & Ha & Hd).
  assert (∀ a i, resolves keys a i → resolves keys a (uint8 i)) as Hres.
  { intros a i [H0 Hl]. pose proof (lookup_lt_Some _ _ _ Hl).
    unfold uint8, len in *. by rewrite Z.mod_small by lia. }
  split; [by apply Hres|]. split; [|done].
  cbn [Codec.AccountIndexes]. unfold Propose.convertToUint8Slice.
  apply Forall2_fmap_r. eapply Forall2_impl; [exact Ha|].
  intros am i Hi. by apply Hres.
Qed.

(** X7: whatever the order of the map visits, when the instructions reference at
    most 256 addresses and every lookup table holds at most 256, the compiled
    message designates the accounts it was compiled from: the keys loaded by
    the lookups from their tables, appended to the static keys (writable ones
    first), form a list without duplicates in which every compiled
    instruction, also after its indexes are narrowed to uint8 for the
    [TransactionMessage], designates the program and the accounts of the
    original instruction, in order, with the same payload. *)
Theorem CompileToWrappedMessageV0_resolves (payer : PublicKey) (hash : solana.Hash)
    (instructions : list solana.Instruction)
    (tables : list solana.KeyedAddressLookupTable) (message : solana.Message)
    (Hsize : (size (KeyMetaMap (CompileKeys instructions payer)) ≤ 256)%nat)
    (Htables : Forall (λ t, len (solana.Addresses t) ≤ 256) tables)
    (Hrun : CompileToWrappedMessageV0 payer hash instructions tables message) :
  ∃ loaded : list AccountKeysFromLookups,
    Forall2 (loads tables) (solana.AddressTableLookups message) loaded ∧
    NoDup (solana.AccountKeys message ++ concat (Writable <$> loaded)
             ++ concat (Readonly <$> loaded)) ∧
    Forall2 (compiled_as (solana.AccountKeys message ++ concat (Writable <$> loaded)
                            ++ concat (Readonly <$> loaded)))
            instructions (solana.Instructions message) ∧
    Forall2 (encoded_as (solana.AccountKeys message ++ concat (Writable <$> loaded)
                           ++ concat (Readonly <$> loaded)))
            instructions (Codec.Instructions (Propose.to_TransactionMessage message)).
Proof.
  destruct Hrun as (st & header & static & Hx & (order & Ho & Hg) & ->).
  cbn [NewCompiledKeys KeyMetaMap] in Ho.
  set (m0 := KeyMetaMap (CompileKeys instructions payer)) in *.
  pose proof (extract_tables_keys_inv m0 _ _ _ Hx (keys_inv_initial m0)) as Hinv.
  destruct (extract_tables_loads_inv tables _ _ _ Hx
              ltac:(intros t Ht; split; [done|];
                    by apply (proj1 (Forall_forall _ _) Htables))
              [] ltac:(by split; [constructor|]))
    as (loaded & Hl & HW & HR).
  exists loaded.
  assert (static = (GetMessageComponents_on order).2) as -> by (by rewrite <- Hg).
  pose proof (run_combined_perm m0 st order Hinv Ho) as Hperm.
  cbn [solana.AccountKeys solana.Instructions solana.AddressTableLookups
       Propose.to_TransactionMessage Codec.Instructions].
  set (mk := {| StaticAccountKeys := (GetMessageComponents_on order).2;
                FromLookups := accountKeysFromLookups st |}) in *.
  assert ((GetMessageComponents_on order).2 ++ concat (Writable <$> loaded)
            ++ concat (Readonly <$> loaded) = combined mk) as ->.
  { unfold combined, mk. cbn [StaticAccountKeys FromLookups]. by rewrite HW, HR. }
  assert (NoDup (combined mk)) as Hnd by (rewrite Hperm; apply NoDup_keys_of).
  assert (len (combined mk) ≤ 256) as Hlen.
  { rewrite (len_Permutation _ _ Hperm). unfold len, keys_of.
    rewrite length_fmap, length_map_to_list. lia. }
  assert (Forall2 (compiled_as (combined mk)) instructions
            (CompileInstructions mk instructions)) as Hc.
  { apply compile_instructions_sound; [done|lia|].
    intros ix Hix. destruct (referenced_in_map instructions payer ix Hix) as [Hp Ha].
    rewrite Hperm. split; [by apply elem_of_keys_of|].
    intros am Ham. rewrite Hperm. apply elem_of_keys_of. by apply Ha. }
  split; [done|]. split; [done|]. split; [done|].
  apply Forall2_fmap_r. eapply Forall2_impl; [exact Hc|].
  intros ix ci Hci. by apply encoded_of_compiled.
Qed.

Lemma sample_table_run_runs :
  CompileToWrappedMessageV0 sample_payer Propose.sample_hash [sample_instruction]
    [sample_table] sample_table_run.
Proof.
  pose (m := KeyMetaMap (CompileKeys [sample_instruction] sample_payer)).
  pose (o1 := map_to_list m).
  pose (o2 := map_to_list (remaining (drainKeysFoundInLookupTable_on m
                 (solana.Addresses sample_table) writable_filter o1))).
  assert (ExtractTableLookup m sample_table (ExtractTableLookup_on m sample_table o1 o2))
    as Hx.
  { exists o1, o2. split; [by unfold map_range|]. split; [by unfold map_range|done]. }
  unfold sample_table_run. fold m. fold o1. fold o2. cbv zeta.
  destruct (ExtractTableLookup_on m sample_table o1 o2) as [[[lookup keys]|] m'] eqn:E;
    [|vm_compute in E; discriminate E].
  cbn [fst snd from_option].
  exists {| addressTableLookups := [] ++ [lookup];
            accountKeysFromLookups :=
              {| Writable := [] ++ Writable keys; Readonly := [] ++ Readonly keys |};
            keys_left := m' |},
         (GetMessageComponents_on (map_to_list m')).1,
         (GetMessageComponents_on (map_to_list m')).2.
  split; [|split].
  - eapply extract_found; [exact Hx|]. apply extract_done.
  - exists (map_to_list m'). split; [by unfold map_range|].
    by destruct (GetMessageComponents_on (map_to_list m')).
  - cbn [addressTableLookups accountKeysFromLookups app]. by destruct keys.
Qed.

Lemma CompileToWrappedMessageV0_resolves_witness :
  (size (KeyMetaMap (CompileKeys [sample_instruction] sample_payer)) ≤ 256)%nat ∧
  Forall (λ t, len (solana.Addresses t) ≤ 256) [sample_table] ∧
  CompileToWrappedMessageV0 sample_payer Propose.sample_hash [sample_instruction]
    [sample_table] sample_table_run ∧
  ∃ loaded : list AccountKeysFromLookups,
    Forall2 (loads [sample_table]) (solana.AddressTableLookups sample_table_run) loaded ∧
    NoDup (solana.AccountKeys sample_table_run ++ concat (Writable <$> loaded)
             ++ concat (Readonly <$> loaded)).
Proof.
  assert ((size (KeyMetaMap (CompileKeys [sample_instruction] sample_payer)) ≤ 256)%nat)
    as Hsize by (apply (bool_decide_unpack _); vm_compute; exact I).
  assert (Forall (λ t, len (solana.Addresses t) ≤ 256) [sample_table]) as Htables
    by (constructor; [vm_compute; discriminate|constructor]).
  split; [exact Hsize|]. split; [exact Htables|].
  split; [exact sample_table_run_runs|].
  destruct (CompileToWrappedMessageV0_resolves sample_payer Propose.sample_hash
              [sample_instruction] [sample_table] sample_table_run Hsize Htables
              sample_table_run_runs) as (loaded & Hl & Hnd & _).
  exists loaded. split; [exact Hl|exact Hnd].
Defined.

(** *** The counts of the [TransactionMessage] *)

Lemma counts_mod a b c d :
  uint8 (uint8 (a + b)) = uint8 (a + b) ∧
  uint8 (uint8 (a + b) - uint8 b) = uint8 a ∧
  uint8 (uint8 (a + b + c + d) - uint8 (a + b) - uint8 d) = uint8 c.
Proof. unfold uint8. repeat split; Z.div_mod_to_equations; lia. Qed.

Lemma len_buckets order :
  len (bucket writableSigners order ++ bucket readonlySigners order ++
       bucket writableNonSigners order ++ bucket readonlyNonSigners order)
  = len (bucket writableSigners order) + len (bucket readonlySigners order)
    + len (bucket writableNonSigners order) + len (bucket readonlyNonSigners order).
Proof. unfold len. rewrite !length_app. lia. Qed.

(** The lookup tables take no signer out of the map. *)
Lemma keys_in_signers c m m0 :
  c = writableSigners ∨ c = readonlySigners →
  m ⊆ m0 →
  (∀ a meta, m0 !! a = Some meta → IsSigner meta = true → m !! a = Some meta) →
  keys_in c m = keys_in c m0.
Proof.
  intros Hc Hsub Hsig. unfold keys_in. f_equal. f_equal.
  apply map_eq. intros a. apply option_eq. intros meta.
  rewrite !map_lookup_filter_Some. cbn [snd]. split.
  - intros [Hm Hb]. split; [by eapply lookup_weaken|done].
  - intros [Hm Hb]. split; [|done]. apply Hsig; [done|].
    pose proof (bucket_of_flags meta) as Hfl. rewrite Hb in Hfl.
    by destruct Hc as [-> | ->]; destruct Hfl.
Qed.

(** X8: in every run, with or without lookup tables and whatever the number of
    keys, the account keys of the [TransactionMessage] are, in this order,
    the writable signers and the readonly signers of the resolved map and the
    writable non-signers and the readonly non-signers that the lookup tables
    leave in it (all of them without lookup tables): each of the four parts
    is a permutation of the keys of its class.  Its three counts, computed by
    uint8 subtraction from the message header, are the number of signers, of
    writable signers and of writable non-signers, each reduced modulo 256. *)
Theorem to_TransactionMessage_counts (payer : PublicKey) (hash : solana.Hash)
    (instructions : list solana.Instruction)
    (tables : list solana.KeyedAddressLookupTable) (message : solana.Message)
    (Hrun : CompileToWrappedMessageV0 payer hash instructions tables message) :
  let resolved := KeyMetaMap (CompileKeys instructions payer) in
  let keysLeft := foldl after_table resolved tables in
  ∃ ws rs wn rn,
    Codec.AccountKeys (Propose.to_TransactionMessage message) = ws ++ rs ++ wn ++ rn ∧
    Codec.NumSigners (Propose.to_TransactionMessage message) = uint8 (len ws + len rs) ∧
    Codec.NumWritableSigners (Propose.to_TransactionMessage message) = uint8 (len ws) ∧
    Codec.NumWritableNonSigners (Propose.to_TransactionMessage message) = uint8 (len wn) ∧
    ws ≡ₚ keys_in writableSigners resolved ∧
    rs ≡ₚ keys_in readonlySigners resolved ∧
    wn ≡ₚ keys_in writableNonSigners keysLeft ∧
    rn ≡ₚ keys_in readonlyNonSigners keysLeft ∧
    keysLeft ⊆ resolved ∧
    (tables = [] → keysLeft = resolved) ∧
    Forall (has_flags resolved true true) ws ∧
    Forall (has_flags resolved true false) rs ∧
    Forall (has_flags resolved false true) wn ∧
    Forall (has_flags resolved false false) rn.
Proof.
  intros resolved keysLeft.
  destruct Hrun as (st & header & static & Hx & (order & Ho & Hg) & ->).
  cbn [NewCompiledKeys KeyMetaMap] in Ho. fold resolved in Hx.
  destruct (extract_tables_keys_inv resolved _ _ _ Hx (keys_inv_initial resolved))
    as (_ & Hsub & Hsig).
  apply extract_tables_keys in Hx. cbn [keys_left] in Hx. fold keysLeft in Hx.
  rewrite Hx in Ho, Hsub, Hsig.
  rewrite GetMessageComponents_on_buckets in Hg. injection Hg as -> ->.
  exists (bucket writableSigners order), (bucket readonlySigners order),
         (bucket writableNonSigners order), (bucket readonlyNonSigners order).
  cbn [Propose.to_TransactionMessage Codec.AccountKeys Codec.NumSigners
       Codec.NumWritableSigners Codec.NumWritableNonSigners solana.Header
       solana.AccountKeys solana.NumRequiredSignatures
       solana.NumReadonlySignedAccounts solana.NumReadonlyUnsignedAccounts].
  rewrite len_buckets.
  destruct (counts_mod (len (bucket writableSigners order))
              (len (bucket readonlySigners order))
              (len (bucket writableNonSigners order))
              (len (bucket readonlyNonSigners order))) as (H1 & H2 & H3).
  split; [done|]. split; [done|]. split; [done|]. split; [done|].
  split.
  { rewrite <- (keys_in_signers writableSigners keysLeft resolved) by auto.
    exact (bucket_map_range _ _ _ Ho). }
  split.
  { rewrite <- (keys_in_signers readonlySigners keysLeft resolved) by auto.
    exact (bucket_map_range _ _ _ Ho). }
  split; [exact (bucket_map_range _ _ _ Ho)|].
  split; [exact (bucket_map_range _ _ _ Ho)|].
  split; [done|]. split; [by intros ->|].
  split; [exact (bucket_has_flags _ resolved order writableSigners Ho Hsub)|].
  split; [exact (bucket_has_flags _ resolved order readonlySigners Ho Hsub)|].
  split; [exact (bucket_has_flags _ resolved order writableNonSigners Ho Hsub)|].
  exact (bucket_has_flags _ resolved order readonlyNonSigners Ho Hsub).
Qed.

Lemma to_TransactionMessage_counts_witness :
  CompileToWrappedMessageV0 sample_payer Propose.sample_hash [sample_instruction] []
    Propose.sample_run2 ∧
  ∃ ws rs wn rn,
    Codec.AccountKeys (Propose.to_TransactionMessage Propose.sample_run2)
      = ws ++ rs ++ wn ++ rn ∧
    Codec.NumSigners (Propose.to_TransactionMessage Propose.sample_run2)
      = uint8 (len ws + len rs) ∧
    ws ≡ₚ keys_in writableSigners
            (KeyMetaMap (CompileKeys [sample_instruction] sample_payer)) ∧
    rn ≡ₚ keys_in readonlyNonSigners
            (KeyMetaMap (CompileKeys [sample_instruction] sample_payer)).
Proof.
  assert (CompileToWrappedMessageV0 sample_payer Propose.sample_hash
            [sample_instruction] [] Propose.sample_run2) as Hrun.
  { apply message_for_order_run, sample_rotated_range. }
  split; [exact Hrun|].
  destruct (to_TransactionMessage_counts _ _ _ _ _ Hrun)
    as (ws & rs & wn & rn & Hk & Hn & _ & _ & Hws & _ & _ & Hrn & _).
  exists ws, rs, wn, rn. split; [exact Hk|]. split; [exact Hn|].
  split; [exact Hws|exact Hrn].
Defined.

(** *** The partition of the account keys *)

Lemma static_position order (i : nat) key :
  (bucket writableSigners order ++ bucket readonlySigners order ++
   bucket writableNonSigners order ++ bucket readonlyNonSigners order) !! i = Some key →
  ∃ meta, (key, meta) ∈ order ∧
    (IsSigner meta = true ↔
     Z.of_nat i < len (bucket writableSigners order) + len (bucket readonlySigners order)) ∧
    (IsWritable meta = true ↔
     (Z.of_nat i < len (bucket writableSigners order) ∨
      len (bucket writableSigners order) + len (bucket readonlySigners order) ≤ Z.of_nat i
      < len (bucket writableSigners order) + len (bucket readonlySigners order)
        + len (bucket writableNonSigners order))).
Proof.
  intros H.
  apply lookup_app_Some in H as [H|[Hge H]];
    [|apply lookup_app_Some in H as [H|[Hge2 H]];
      [|apply lookup_app_Some in H as [H|[Hge3 H]]]];
    pose proof (lookup_lt_Some _ _ _ H) as Hlt;
    apply list_elem_of_lookup_2 in H;
    apply elem_of_bucket in H as (meta & Hin & Hb);
    exists meta; (split; [done|]);
    pose proof (bucket_of_flags meta) as Hfl; rewrite Hb in Hfl;
    destruct Hfl as [-> ->]; unfold len;
    split; split; intros; try done; try lia.
Qed.

(** X9: when the instructions reference at most 255 addresses, in every run the
    position of a key among the account keys of the [TransactionMessage]
    tells its flags in the resolved map: it is a signer exactly when its
    position is below [NumSigners], and writable exactly when its position is
    below [NumWritableSigners] or among the [NumWritableNonSigners] positions
    that follow the signers; and the fee payer is among the writable
    signers. *)
Theorem compiled_message_partition (payer : PublicKey) (hash : solana.Hash)
    (instructions : list solana.Instruction)
    (tables : list solana.KeyedAddressLookupTable) (message : solana.Message)
    (Hsize : (size (KeyMetaMap (CompileKeys instructions payer)) ≤ 255)%nat)
    (Hrun : CompileToWrappedMessageV0 payer hash instructions tables message) :
  (∀ (i : nat) key,
     Codec.AccountKeys (Propose.to_TransactionMessage message) !! i = Some key →
     ∃ meta, KeyMetaMap (CompileKeys instructions payer) !! key = Some meta ∧
       (IsSigner meta = true ↔
        signer_at (Propose.to_TransactionMessage message) (Z.of_nat i)) ∧
       (IsWritable meta = true ↔
        writable_at (Propose.to_TransactionMessage message) (Z.of_nat i))) ∧
  ∃ i : nat,
    Codec.AccountKeys (Propose.to_TransactionMessage message) !! i = Some payer ∧
    Z.of_nat i < Codec.NumWritableSigners (Propose.to_TransactionMessage message).
Proof.
  destruct Hrun as (st & header & static & Hx & (order & Ho & Hg) & ->).
  cbn [NewCompiledKeys KeyMetaMap] in Ho.
  set (m0 := KeyMetaMap (CompileKeys instructions payer)) in *.
  destruct (extract_tables_keys_inv m0 _ _ _ Hx (keys_inv_initial m0))
    as (Hp & Hsub & Hsig).
  rewrite GetMessageComponents_on_buckets in Hg. injection Hg as -> ->.
  assert (len order ≤ 255) as Hlen.
  { apply Permutation_length in Hp. rewrite length_app, !length_fmap in Hp.
    rewrite !length_map_to_list in Hp.
    rewrite (map_range_length _ _ Ho). lia. }
  pose proof (buckets_length order) as Hsum.
  unfold signer_at, writable_at.
  cbn [Propose.to_TransactionMessage Codec.AccountKeys Codec.NumSigners
       Codec.NumWritableSigners Codec.NumWritableNonSigners solana.Header
       solana.AccountKeys solana.NumRequiredSignatures
       solana.NumReadonlySignedAccounts solana.NumReadonlyUnsignedAccounts].
  rewrite len_buckets.
  destruct (counts_mod (len (bucket writableSigners order))
              (len (bucket readonlySigners order))
              (len (bucket writableNonSigners order))
              (len (bucket readonlyNonSigners order))) as (-> & -> & ->).
  assert (∀ l : list PublicKey, 0 ≤ len l) as Hpos by (intros l; unfold len; lia).
  pose proof (Hpos (bucket writableSigners order)).
  pose proof (Hpos (bucket readonlySigners order)).
  pose proof (Hpos (bucket writableNonSigners order)).
  pose proof (Hpos (bucket readonlyNonSigners order)).
  unfold uint8. rewrite !Z.mod_small by lia.
  split.
  - intros i key Hi. apply static_position in Hi as (meta & Hin & Hs & Hw).
    exists meta. split; [|done]. rewrite Ho in Hin.
    apply elem_of_map_to_list in Hin. by eapply lookup_weaken.
  - assert (∃ meta, m0 !! payer = Some meta ∧ bucket_of meta = writableSigners)
      as (meta & Hm & Hb).
    { unfold m0. rewrite CompileKeys_lookup, decide_True by (by left).
      eexists. split; [done|]. cbn. by rewrite bool_decide_true. }
    assert (IsSigner meta = true) as Hs.
    { pose proof (bucket_of_flags meta) as Hfl. rewrite Hb in Hfl. by destruct Hfl. }
    pose proof (Hsig payer meta Hm Hs) as Hl.
    assert (payer ∈ bucket writableSigners order) as Hin.
    { unfold bucket. apply list_elem_of_fmap. exists (payer, meta). split; [done|].
      apply list_elem_of_filter. split; [done|]. rewrite Ho.
      by apply elem_of_map_to_list. }
    apply list_elem_of_lookup_1 in Hin as [i Hi]. exists i.
    pose proof (lookup_lt_Some _ _ _ Hi). split; [by apply lookup_app_l_Some|].
    unfold len. lia.
Qed.

Lemma compiled_message_partition_witness :
  (size (KeyMetaMap (CompileKeys [sample_instruction] sample_payer)) ≤ 255)%nat ∧
  CompileToWrappedMessageV0 sample_payer Propose.sample_hash [sample_instruction] []
    Propose.sample_run1 ∧
  ∃ i : nat,
    Codec.AccountKeys (Propose.to_TransactionMessage Propose.sample_run1) !! i
      = Some sample_payer ∧
    Z.of_nat i < Codec.NumWritableSigners (Propose.to_TransactionMessage Propose.sample_run1).
Proof.
  assert ((size (KeyMetaMap (CompileKeys [sample_instruction] sample_payer)) ≤ 255)%nat)
    as Hsize by (apply (bool_decide_unpack _); vm_compute; exact I).
  assert (CompileToWrappedMessageV0 sample_payer Propose.sample_hash
            [sample_instruction] [] Propose.sample_run1) as Hrun.
  { apply message_for_order_run, sample_order_range. }
  split; [exact Hsize|]. split; [exact Hrun|].
  exact (proj2 (compiled_message_partition _ _ _ _ _ Hsize Hrun)).
Defined.

End CompilerMore.

(** * Further properties of the transfer proposal *)
Module ProposeMore.
Import Compiler CompilerSpec CompilerProps CompilerMore Propose ProposeSpec.

(** *** The transfer instruction through the compiler *)

Lemma transfer_map vault recipient lamports :
  vault ≠ recipient → vault ≠ solana.SystemProgramID →
  recipient ≠ solana.SystemProgramID →
  KeyMetaMap (CompileKeys [transferIx vault recipient lamports] vault) =
  <[recipient := {| IsSigner := false; IsWritable := true; IsInvoked := false |}]>
    (<[vault := {| IsSigner := true; IsWritable := true; IsInvoked := false |}]>
       (<[solana.SystemProgramID :=
            {| IsSigner := false; IsWritable := false; IsInvoked := false |}]> ∅)).
Proof.
  intros Hvr Hvs Hrs.
  unfold CompileKeys, getOrInsertDefault. rewrite lookup_empty.
  cbn [KeyMetaMap NewCompiledKeys foldl IsInvoked].
  unfold compile_instruction, getOrInsertDefault.
  cbn [transferIx solana.ProgramID solana.Accounts].
  rewrite !lookup_insert_ne by done. rewrite lookup_empty.
  cbn [foldl IsSigner IsWritable].
  unfold compile_account at 2. unfold getOrInsertDefault.
  cbn [solana.AccountMeta_PublicKey].
  rewrite !lookup_insert_ne by done. rewrite lookup_insert_eq.
  cbn [IsSigner IsWritable IsInvoked solana.IsSigner solana.IsWritable orb].
  unfold compile_account, getOrInsertDefault. cbn [solana.AccountMeta_PublicKey].
  rewrite !lookup_insert_ne by done. rewrite lookup_empty.
  cbn [IsSigner IsWritable IsInvoked solana.IsSigner solana.IsWritable orb].
  rewrite !insert_insert_eq.
  rewrite (insert_insert_ne _ solana.SystemProgramID vault) by done.
  by rewrite insert_insert_eq.
Qed.

Lemma transfer_order vault recipient lamports order :
  vault ≠ recipient → vault ≠ solana.SystemProgramID →
  recipient ≠ solana.SystemProgramID →
  map_range (KeyMetaMap (CompileKeys [transferIx vault recipient lamports] vault)) order →
  bucket writableSigners order = [vault] ∧ bucket readonlySigners order = [] ∧
  bucket writableNonSigners order = [recipient] ∧
  bucket readonlyNonSigners order = [solana.SystemProgramID].
Proof.
  intros Hvr Hvs Hrs Ho. rewrite transfer_map in Ho by done. unfold map_range in Ho.
  rewrite map_to_list_insert in Ho
    by (rewrite !lookup_insert_ne by done; apply lookup_empty).
  rewrite map_to_list_insert in Ho
    by (rewrite !lookup_insert_ne by done; apply lookup_empty).
  rewrite map_to_list_insert, map_to_list_empty in Ho by apply lookup_empty.
  repeat split.
  - apply Permutation_singleton_r. by rewrite (bucket_Permutation _ _ _ Ho).
  - apply Permutation_nil_r. by rewrite (bucket_Permutation _ _ _ Ho).
  - apply Permutation_singleton_r. by rewrite (bucket_Permutation _ _ _ Ho).
  - apply Permutation_singleton_r. by rewrite (bucket_Permutation _ _ _ Ho).
Qed.

(** X10: for a vault, a recipient and the system program that are three distinct
    addresses, compiling the transfer instruction with the vault as fee payer
    and no lookup table gives, in every run, the message that
    [createTransactionMessageBytes(ix, vaultPDA, recipientPubkey, lamports)]
    writes by hand: one signer, one writable signer, one writable non-signer,
    the keys vault, recipient, system program, and one instruction of program
    index 2 on the accounts 0 and 1 with the transfer payload. *)
Theorem transfer_message_compiled (vault recipient : PublicKey) (lamports : Z)
    (hash : solana.Hash) (message : solana.Message)
    (Hvr : vault ≠ recipient) (Hvs : vault ≠ solana.SystemProgramID)
    (Hrs : recipient ≠ solana.SystemProgramID)
    (Hrun : CompileToWrappedMessageV0 vault hash
              [transferIx vault recipient lamports] [] message) :
  to_TransactionMessage message
  = as_TransactionMessage (createTransactionMessage vault recipient lamports).
Proof.
  destruct Hrun as (st & header & static & Hx & (order & Ho & Hg) & ->).
  inversion Hx; subst. cbn [NewCompiledKeys KeyMetaMap keys_left] in Ho.
  rewrite GetMessageComponents_on_buckets in Hg.
  destruct (transfer_order _ _ _ _ Hvr Hvs Hrs Ho) as (E1 & E2 & E3 & E4).
  rewrite E1, E2, E3, E4 in Hg. injection Hg as -> ->.
  unfold to_TransactionMessage, as_TransactionMessage, createTransactionMessage.
  cbn [solana.Header solana.AccountKeys solana.Instructions solana.AddressTableLookups
       squads.NumSigners squads.NumWritableSigners squads.NumWritableNonSigners
       squads.AccountKeys squads.Instructions squads.AddressTableLookups
       solana.NumRequiredSignatures solana.NumReadonlySignedAccounts
       solana.NumReadonlyUnsignedAccounts accountKeysFromLookups app map].
  set (mk := {| StaticAccountKeys := [vault; recipient; solana.SystemProgramID];
                FromLookups := {| Writable := []; Readonly := [] |} |}).
  assert (NoDup (combined mk)) as Hnd.
  { unfold combined, mk. cbn. rewrite !NoDup_cons, !elem_of_cons.
    split; [intros [?|[?|?%elem_of_nil]]; done|].
    split; [intros [?|?%elem_of_nil]; done|].
    split; [apply not_elem_of_nil|apply NoDup_nil_2]. }
  destruct (index_fold (combined mk) ∅ 0) as (_ & _ & Hidx).
  unfold CompileInstructions. rewrite accountIndexMap_of. unfold index_of.
  cbn [map transferIx solana.ProgramID solana.Accounts solana.AccountMeta_PublicKey
       solana.Data].
  rewrite (Hidx Hnd 2%nat solana.SystemProgramID eq_refl).
  rewrite (Hidx Hnd 0%nat vault eq_refl).
  rewrite (Hidx Hnd 1%nat recipient eq_refl).
  reflexivity.
Qed.

Lemma transfer_message_compiled_witness :
  sample_key 1 ≠ sample_key 3 ∧
  CompileToWrappedMessageV0 (sample_key 1) sample_hash
    [transferIx (sample_key 1) (sample_key 3) 1000000000] []
    (message_for_order (sample_key 1) sample_hash
       [transferIx (sample_key 1) (sample_key 3) 1000000000]
       (map_to_list (KeyMetaMap (CompileKeys
          [transferIx (sample_key 1) (sample_key 3) 1000000000] (sample_key 1))))) ∧
  to_TransactionMessage
    (message_for_order (sample_key 1) sample_hash
       [transferIx (sample_key 1) (sample_key 3) 1000000000]
       (map_to_list (KeyMetaMap (CompileKeys
          [transferIx (sample_key 1) (sample_key 3) 1000000000] (sample_key 1)))))
  = as_TransactionMessage
      (createTransactionMessage (sample_key 1) (sample_key 3) 1000000000).
Proof.
  assert (sample_key 1 ≠ sample_key 3) as Hvr by (vm_compute; discriminate).
  assert (sample_key 1 ≠ solana.SystemProgramID) as Hvs by (vm_compute; discriminate).
  assert (sample_key 3 ≠ solana.SystemProgramID) as Hrs by (vm_compute; discriminate).
  assert (CompileToWrappedMessageV0 (sample_key 1) sample_hash
    [transferIx (sample_key 1) (sample_key 3) 1000000000] []
    (message_for_order (sample_key 1) sample_hash
       [transferIx (sample_key 1) (sample_key 3) 1000000000]
       (map_to_list (KeyMetaMap (CompileKeys
          [transferIx (sample_key 1) (sample_key 3) 1000000000] (sample_key 1))))))
    as Hrun.
  { apply message_for_order_run. by unfold map_range. }
  split; [exact Hvr|]. split; [exact Hrun|].
  exact (transfer_message_compiled _ _ _ _ _ Hvr Hvs Hrs Hrun).
Defined.

(** *** Lookup tables and the encoder *)

Lemma find_entry_is_Some entries key : ∀ o,
  key ∈ entries → is_Some (find_entry entries key o).
Proof.
  induction entries as [|e entries IH]; intros o Hin; [by apply elem_of_nil in Hin|].
  simpl. case_decide; [done|]. apply IH.
  apply elem_of_cons in Hin as [->|Hin]; done.
Qed.

Lemma extract_tables_found st tables st' :
  extract_tables st tables st' →
  addressTableLookups st ≠ [] ∨ extractable tables (keys_left st) →
  addressTableLookups st' ≠ [].
Proof.
  induction 1 as [st|st t tables m' st' Hx _ IH|st t tables lookup keys m' st' Hx _ IH];
    intros Hor.
  - destruct Hor as [H|(table & a & meta & Hin & _)]; [done|].
    by apply elem_of_nil in Hin.
  - apply IH. cbn [addressTableLookups keys_left].
    destruct Hor as [H|(table & a & meta & Hin & Ha & Hm & Hs & Hi)]; [by left|].
    right. pose proof (extract_run_facts _ _ _ Hx) as Hsame. cbn [fst snd] in Hsame.
    subst m'. apply elem_of_cons in Hin as [->|Hin]; [|by exists table, a, meta].
    exfalso. apply ExtractTableLookup_keys in Hx. cbn [snd] in Hx.
    rewrite Hx in Hm. unfold after_table, after_drain in Hm.
    apply map_lookup_filter_Some in Hm as [Hm Hnr].
    apply map_lookup_filter_Some in Hm as [Hm Hnw].
    pose proof (find_entry_is_Some (solana.Addresses t) a 0 Ha) as Hfind.
    destruct (IsWritable meta) eqn:Ew.
    + apply Hnw. split; [|done]. cbn [snd]. unfold writable_filter.
      by rewrite Hs, Hi, Ew.
    + apply Hnr. split; [|done]. cbn [snd]. unfold readonly_filter.
      by rewrite Hs, Hi, Ew.
  - apply IH. left. cbn [addressTableLookups]. by intros [? ?]%app_eq_nil.
Qed.

(** X11: as soon as one of the lookup tables passed to
    [createTransactionMessageBytes] holds an address that the instructions
    reference as a non-signer, every run returns the encoder's
    "unsupported type" error and no bytes: a message compiled with a lookup
    cannot be serialised. *)
Theorem createTransactionMessageBytes_table_fails (payer : PublicKey)
    (instructions : list solana.Instruction) (hash : solana.Hash)
    (tables : list solana.KeyedAddressLookupTable)
    (res : Codec.CodecError + list Z)
    (Hfound : ∃ table a meta, table ∈ tables ∧ a ∈ solana.Addresses table ∧
       KeyMetaMap (CompileKeys instructions payer) !! a = Some meta ∧
       IsSigner meta = false)
    (Hrun : createTransactionMessageBytes payer instructions hash tables res) :
  res = inl (Codec.ErrUnsupportedType "*solana.PublicKey").
Proof.
  destruct Hfound as (table & a & meta & Hin & Ha & Hm & Hs).
  destruct Hrun as (message & (st & header & static & Hx & _ & ->) & ->).
  assert (addressTableLookups st ≠ []) as Hne.
  { apply (extract_tables_found _ _ _ Hx). right. cbn [keys_left].
    exists table, a, meta. repeat (split; [done|]).
    rewrite CompileKeys_lookup in Hm. case_decide; [|done]. by injection Hm as <-. }
  set (tm := to_TransactionMessage _).
  assert (Codec.AddressTableLookups tm ≠ []) as Hl.
  { unfold tm, to_TransactionMessage.
    cbn [Codec.AddressTableLookups solana.AddressTableLookups].
    destruct (addressTableLookups st); done. }
  unfold Codec.encode. by rewrite (CodecProps.fails_message tm Hl []).
Qed.

Lemma createTransactionMessageBytes_table_fails_witness :
  createTransactionMessageBytes sample_payer [sample_instruction] sample_hash
    [sample_table] sample_table_result ∧
  sample_table_result = inl (Codec.ErrUnsupportedType "*solana.PublicKey").
Proof.
  assert (createTransactionMessageBytes sample_payer [sample_instruction] sample_hash
            [sample_table] sample_table_result) as Hrun.
  { exists sample_table_run. split; [exact sample_table_run_runs|reflexivity]. }
  split; [exact Hrun|].
  apply (createTransactionMessageBytes_table_fails sample_payer [sample_instruction]
           sample_hash [sample_table] sample_table_result); [|exact Hrun].
  exists sample_table, (sample_key 3),
    {| IsSigner := false; IsWritable := false; IsInvoked := false |}.
  split; [left|]. split; [right; left|]. split; [|reflexivity].
  vm_compute. reflexivity.
Defined.

(** *** Without lookup tables *)

Lemma no_table_fits payer instructions hash message :
  (size (KeyMetaMap (CompileKeys instructions payer)) ≤ 255)%nat →
  len instructions ≤ 255 →
  Forall (λ ix, len (solana.Accounts ix) ≤ 255 ∧ len (solana.Data ix) ≤ 65535)
         instructions →
  (∀ k, referenced k payer instructions → length k = 32%nat) →
  CompileToWrappedMessageV0 payer hash instructions [] message →
  Codec.message_fits (to_TransactionMessage message) ∧
  Codec.AddressTableLookups (to_TransactionMessage message) = [].
Proof.
  intros Hsize Hcount Hfit Hkeys (st & header & static & Hx & (order & Ho & Hg) & ->).
  inversion Hx; subst. cbn [NewCompiledKeys KeyMetaMap keys_left] in Ho.
  assert (static = (GetMessageComponents_on order).2) as -> by (by rewrite <- Hg).
  pose proof (static_keys_perm _ _ Ho) as Hperm.
  unfold Codec.message_fits, to_TransactionMessage.
  cbn [Codec.AccountKeys Codec.Instructions Codec.AddressTableLookups
       solana.AccountKeys solana.Instructions solana.AddressTableLookups
       addressTableLookups map].
  split; [|done]. split; [|split; [|split; [|split; [|split]]]].
  - rewrite (len_Permutation _ _ Hperm). unfold len, keys_of.
    rewrite length_fmap, length_map_to_list. lia.
  - unfold len. rewrite length_map, CompileInstructions_length. exact Hcount.
  - done.
  - apply Forall_forall. intros k Hk. rewrite Hperm in Hk.
    apply elem_of_keys_of in Hk as [meta Hm]. apply Hkeys.
    rewrite CompileKeys_lookup in Hm. by case_decide.
  - unfold CompileInstructions. rewrite map_map. apply Forall_fmap.
    eapply Forall_impl; [exact Hfit|]. intros ix [Ha Hd].
    unfold Codec.instruction_fits, convertToUint8Slice. simpl.
    unfold len in *. by rewrite !length_map.
  - constructor.
Qed.

Lemma sample_keys_typed k :
  referenced k sample_payer [sample_instruction] → length k = 32%nat.
Proof.
  intros [->|[H|H]]; [done| |].
  - cbn in H. by apply list_elem_of_singleton in H as ->.
  - unfold occurrences, listed in H.
    cbn [map concat sample_instruction solana.Accounts app] in H.
    rewrite !filter_cons, filter_nil in H. cbn [solana.AccountMeta_PublicKey] in H.
    repeat case_decide; subst; done.
Qed.

(** X12: without lookup tables, when the instructions reference at most 255
    addresses of 32 bytes each, there are at most 255 instructions, and each
    lists at most 255 accounts and carries at most 65535 bytes,
    [createTransactionMessageBytes] never fails: it returns the bytes of the
    message some run compiled, and decoding these bytes consumes them all and
    gives that message back. *)
Theorem createTransactionMessageBytes_decodes (payer : PublicKey)
    (instructions : list solana.Instruction) (hash : solana.Hash)
    (res : Codec.CodecError + list Z)
    (Hsize : (size (KeyMetaMap (CompileKeys instructions payer)) ≤ 255)%nat)
    (Hcount : len instructions ≤ 255)
    (Hfit : Forall (λ ix, len (solana.Accounts ix) ≤ 255 ∧ len (solana.Data ix) ≤ 65535)
                   instructions)
    (Hkeys : ∀ k, referenced k payer instructions → length k = 32%nat)
    (Hrun : createTransactionMessageBytes payer instructions hash [] res) :
  ∃ message b,
    CompileToWrappedMessageV0 payer hash instructions [] message ∧
    res = inr b ∧
    Codec.decode b = (inr (to_TransactionMessage message), []).
Proof.
  destruct Hrun as (message & Hc & ->).
  destruct (no_table_fits _ _ _ _ Hsize Hcount Hfit Hkeys Hc) as [Hf Hnil].
  destruct (CodecProps.roundtrip_without_lookups _ Hf Hnil) as [He Hd].
  exists message, (Codec.message_bytes (to_TransactionMessage message)).
  split; [done|]. by rewrite He.
Qed.

Lemma createTransactionMessageBytes_decodes_witness :
  (size (KeyMetaMap (CompileKeys [sample_instruction] sample_payer)) ≤ 255)%nat ∧
  createTransactionMessageBytes sample_payer [sample_instruction] sample_hash []
    (inr (bytes_of sample_run1)) ∧
  ∃ message b,
    CompileToWrappedMessageV0 sample_payer sample_hash [sample_instruction] [] message ∧
    inr (bytes_of sample_run1) = inr b (A := Codec.CodecError) ∧
    Codec.decode b = (inr (to_TransactionMessage message), []).
Proof.
  assert ((size (KeyMetaMap (CompileKeys [sample_instruction] sample_payer)) ≤ 255)%nat)
    as Hsize by (apply (bool_decide_unpack _); vm_compute; exact I).
  assert (createTransactionMessageBytes sample_payer [sample_instruction] sample_hash []
            (inr (bytes_of sample_run1))) as Hrun.
  { exists sample_run1. split; [|vm_compute; reflexivity].
    apply message_for_order_run, CompilerProps.sample_order_range. }
  split; [exact Hsize|]. split; [exact Hrun|].
  apply (createTransactionMessageBytes_decodes sample_payer [sample_instruction]
           sample_hash _ Hsize);
    [vm_compute; discriminate| |exact sample_keys_typed|exact Hrun].
  constructor; [|constructor]. split; vm_compute; discriminate.
Defined.

End ProposeMore.

(** * Properties of the create command *)
Module CreateProps.
Import Create CreateSpec.

(** *** Permission masks *)

Lemma land_low_bits mask :
  0 ≤ Z.land mask 7 < 8 ∧
  Z.land (Z.land mask 7) PermissionPropose = Z.land mask PermissionPropose ∧
  Z.land (Z.land mask 7) PermissionVote = Z.land mask PermissionVote ∧
  Z.land (Z.land mask 7) PermissionExecute = Z.land mask PermissionExecute.
Proof.
  split.
  - change 7 with (Z.ones 3). rewrite Z.land_ones by lia.
    apply Z.mod_pos_bound. lia.
  - rewrite <- !Z.land_assoc. done.
Qed.

Lemma describePermissions_low mask :
  describePermissions mask = describePermissions (Z.land mask 7).
Proof.
  destruct (land_low_bits mask) as (_ & H1 & H2 & H3).
  unfold describePermissions. by rewrite H1, H2, H3.
Qed.

Lemma describePermissions_injective m1 m2 :
  0 ≤ m1 < 8 → 0 ≤ m2 < 8 →
  describePermissions m1 = describePermissions m2 → m1 = m2.
Proof.
  intros H1 H2.
  assert (∀ m, 0 ≤ m < 8 → m = 0 ∨ m = 1 ∨ m = 2 ∨ m = 3 ∨ m = 4 ∨ m = 5 ∨ m = 6 ∨ m = 7)
    as Hc by (intros; lia).
  destruct (Hc m1 H1) as [->|[->|[->|[->|[->|[->|[->| ->]]]]]]];
    destruct (Hc m2 H2) as [->|[->|[->|[->|[->|[->|[->| ->]]]]]]];
    vm_compute; intros E; first [reflexivity|discriminate E].
Qed.

(** X13: the text [describePermissions] returns names exactly the three low bits
    of the mask: two masks get the same text exactly when they agree on the
    propose, vote and execute bits, and the text is "No Permissions" exactly
    when none of the three is set. *)
Theorem describePermissions_low_bits (mask1 mask2 : Z) :
  (describePermissions mask1 = describePermissions mask2 ↔
   Z.land mask1 7 = Z.land mask2 7) ∧
  (describePermissions mask1 = "No Permissions" ↔ Z.land mask1 7 = 0).
Proof.
  assert (∀ m1 m2, describePermissions m1 = describePermissions m2 ↔
                   Z.land m1 7 = Z.land m2 7) as H.
  { intros m1 m2. split.
    - rewrite (describePermissions_low m1), (describePermissions_low m2).
      apply describePermissions_injective; apply land_low_bits.
    - intros E. by rewrite (describePermissions_low m1), E, <- describePermissions_low. }
  split; [apply H|]. apply (H mask1 0).
Qed.

(** *** The counters *)

Lemma count_votes_from c permissions :
  count_votes c permissions = c + count_votes 0 permissions.
Proof.
  unfold count_votes. revert c.
  induction permissions as [|p ps IH]; intros c; simpl; [lia|].
  rewrite IH, (IH (if votes p then 0 + 1 else 0)). destruct (votes p); lia.
Qed.

Lemma count_votes_cons p ps :
  count_votes 0 (p :: ps) = (if votes p then 1 else 0) + count_votes 0 ps.
Proof.
  unfold count_votes at 1. simpl. fold (count_votes (if votes p then 0 + 1 else 0) ps).
  rewrite count_votes_from. by destruct (votes p).
Qed.

Lemma count_votes_bounds ps : 0 ≤ count_votes 0 ps ≤ len ps.
Proof.
  unfold len. induction ps as [|p ps IH]; [done|].
  rewrite count_votes_cons. cbn [length]. destruct (votes p); lia.
Qed.

Lemma countVotingMembers_from ms : ∀ c,
  foldl (λ count member,
           if bool_decide (Z.land (squads.Mask (squads.Permissions_of member))
                                  PermissionVote ≠ 0)
           then count + 1 else count) c ms
  = c + countVotingMembers ms.
Proof.
  unfold countVotingMembers.
  induction ms as [|m ms IH]; intros c; simpl; [lia|].
  rewrite IH. rewrite (IH (if bool_decide _ then 0 + 1 else 0)).
  case_bool_decide; lia.
Qed.

Lemma countVotingMembers_cons m ms :
  countVotingMembers (m :: ms) =
  (if bool_decide (Z.land (squads.Mask (squads.Permissions_of m)) PermissionVote ≠ 0)
   then 1 else 0) + countVotingMembers ms.
Proof.
  unfold countVotingMembers at 1. simpl. rewrite countVotingMembers_from.
  case_bool_decide; lia.
Qed.

(** *** The loop over the member keys *)

Lemma members_loop_inr parse permissions keys : ∀ i c ms c',
  members_loop parse permissions i keys c = inr (ms, c') →
  length ms = length keys ∧
  (∀ (j : nat) keyStr, keys !! j = Some keyStr →
     ∃ permission member,
       permissions !! (i + j)%nat = Some permission ∧ ms !! j = Some member ∧
       member_of parse keyStr permission member) ∧
  c' = c + countVotingMembers ms ∧
  countVotingMembers ms = count_votes 0 (take (length keys) (drop i permissions)).
Proof.
  induction keys as [|keyStr keys IH]; intros i c ms c' H; simpl in H.
  - injection H as <- <-. split; [done|]. split; [intros j k Hj; done|].
    split; [unfold countVotingMembers; simpl; lia|done].
  - destruct (parse keyStr) as [cause|memberKey] eqn:Ep; [done|].
    destruct (permissions !! i) as [permission|] eqn:Ei; [|done].
    case_bool_decide as Hrange; [done|].
    destruct (members_loop parse permissions (S i) keys _) as [f|[ms' c'']] eqn:El;
      [done|].
    injection H as <- <-.
    destruct (IH _ _ _ _ El) as (Hlen & Hidx & Hc & Hcount).
    assert (uint8 permission = permission) as Hu
      by (unfold uint8; apply Z.mod_small; lia).
    split; [simpl; by rewrite Hlen|]. split; [|split].
    + intros [|j] k Hj; simpl in Hj.
      * injection Hj as <-. exists permission, {| squads.Key := memberKey;
          squads.Permissions_of := {| squads.Mask := uint8 permission |} |}.
        rewrite Nat.add_0_r. split; [done|]. split; [done|].
        unfold member_of. simpl. split; [done|]. split; [lia|done].
      * destruct (Hidx j k Hj) as (p & m & Hp & Hm & Hmem).
        exists p, m. split; [|done]. by replace (i + S j)%nat with (S i + j)%nat by lia.
    + rewrite countVotingMembers_cons. cbn [squads.Permissions_of squads.Mask].
      rewrite Hc. unfold votes. case_bool_decide; lia.
    + rewrite countVotingMembers_cons. cbn [squads.Permissions_of squads.Mask length].
      rewrite (drop_S _ _ _ Ei). cbn [take]. rewrite count_votes_cons, Hcount.
      unfold votes. by rewrite Hu.
Qed.

Lemma members_loop_total parse permissions keys : ∀ i c,
  (∀ (j : nat) keyStr, keys !! j = Some keyStr →
     (∃ key, parse keyStr = inr key) ∧
     ∃ permission, permissions !! (i + j)%nat = Some permission ∧ 0 ≤ permission ≤ 7) →
  ∃ ms c', members_loop parse permissions i keys c = inr (ms, c').
Proof.
  induction keys as [|keyStr keys IH]; intros i c H; simpl; [by eauto|].
  destruct (H 0%nat keyStr eq_refl) as ((key & ->) & p & Hp & Hr).
  rewrite Nat.add_0_r in Hp. rewrite Hp.
  rewrite bool_decide_false by lia.
  destruct (IH (S i) (if votes p then c + 1 else c)) as (ms & c' & ->); [|by eauto].
  intros j k Hj. destruct (H (S j) k Hj) as (Hk & p' & Hp' & Hr').
  split; [done|]. exists p'. split; [|done].
  by replace (S i + j)%nat with (i + S j)%nat by lia.
Qed.

(** *** The explanation of a threshold error *)

Lemma explain_loop_spec keys permissions : ∀ i voting nonVoting,
  (i + length permissions ≤ length keys)%nat →
  explain_loop keys i permissions voting nonVoting =
  Some (voting ++ keys_voting true (drop i keys) permissions,
        nonVoting ++ keys_voting false (drop i keys) permissions).
Proof.
  unfold keys_voting.
  induction permissions as [|p ps IH]; intros i voting nonVoting Hlen; simpl in *.
  - destruct (drop i keys); simpl; by rewrite !app_nil_r.
  - destruct (keys !! i) as [key|] eqn:Ek;
      [|apply lookup_ge_None in Ek; lia].
    rewrite (drop_S _ _ _ Ek). cbn [zip zip_with]. rewrite !filter_cons. cbn [snd].
    destruct (votes p) eqn:Ev; rewrite IH by lia.
    + rewrite decide_True by done. rewrite decide_False by done.
      cbn [fmap list_fmap fst]. by rewrite <- app_assoc.
    + rewrite decide_False by done. rewrite decide_True by done.
      cbn [fmap list_fmap fst]. by rewrite <- app_assoc.
Qed.

Lemma keys_voting_length keys permissions :
  length keys = length permissions →
  len (keys_voting true keys permissions) = count_votes 0 permissions.
Proof.
  unfold keys_voting, len. revert permissions.
  induction keys as [|k keys IH]; intros [|p ps] Hlen; try done.
  cbn [zip zip_with]. rewrite filter_cons, count_votes_cons. cbn [snd].
  destruct (votes p) eqn:Ev.
  - rewrite decide_True by done. cbn [fmap list_fmap length].
    rewrite Nat2Z.inj_succ. rewrite IH; [lia|]. by injection Hlen.
  - rewrite decide_False by done. rewrite IH; [lia|]. by injection Hlen.
Qed.

Lemma keys_voting_perm keys permissions :
  length keys = length permissions →
  keys_voting true keys permissions ++ keys_voting false keys permissions ≡ₚ keys.
Proof.
  unfold keys_voting. revert permissions.
  induction keys as [|k keys IH]; intros [|p ps] Hlen; try done.
  cbn [zip zip_with]. rewrite !filter_cons. cbn [snd].
  injection Hlen as Hlen. destruct (votes p) eqn:Ev.
  - rewrite decide_True by done. rewrite decide_False by done.
    cbn [fmap list_fmap fst app]. by rewrite (IH ps Hlen).
  - rewrite decide_False by done. rewrite decide_True by done.
    cbn [fmap list_fmap fst]. rewrite <- Permutation_middle. by rewrite (IH ps Hlen).
Qed.

Lemma explainThresholdError_spec keys permissions threshold :
  length keys = length permissions →
  explainThresholdError keys permissions threshold =
  Some {| RequestedThreshold := threshold;
          votingMembers := keys_voting true keys permissions;
          nonVotingMembers := keys_voting false keys permissions |}.
Proof.
  intros Hlen. unfold explainThresholdError.
  rewrite explain_loop_spec by (simpl; lia). by rewrite drop_0.
Qed.

Lemma small_count permissions :
  len permissions < 32768 →
  uint16 (count_votes 0 permissions) = count_votes 0 permissions ∧
  uint16 (count_votes 0 permissions + count_votes 0 permissions)
    = count_votes 0 permissions + count_votes 0 permissions.
Proof.
  intros Hmany. pose proof (count_votes_bounds permissions) as Hb.
  unfold len in *. unfold uint16. split; apply Z.mod_small; lia.
Qed.

Lemma runCreate_inr parse payer wsConnect threshold timeLock memberKeys
    memberPermissions request :
  len memberPermissions < 32768 →
  runCreate parse payer wsConnect threshold timeLock memberKeys memberPermissions
    = inr request →
  payer = inr (request_payer request) ∧
  wsConnect = inr tt ∧
  request_threshold request = threshold ∧
  request_timeLock request = timeLock ∧
  length memberKeys = length memberPermissions ∧
  length (request_members request) = length memberKeys ∧
  (∀ (j : nat) keyStr permission,
     memberKeys !! j = Some keyStr → memberPermissions !! j = Some permission →
     ∃ member, request_members request !! j = Some member ∧
               member_of parse keyStr permission member) ∧
  threshold ≤ countVotingMembers (request_members request).
Proof.
  intros Hmany. unfold runCreate. destruct payer as [cause|key]; [done|].
  case_bool_decide as Hlen; [done|].
  assert (length memberKeys = length memberPermissions) as Hlen'
    by (destruct (decide (length memberKeys = length memberPermissions)); done).
  case_bool_decide as Ht1; [by destruct (explainThresholdError _ _ _)|].
  destruct (members_loop parse memberPermissions 0 memberKeys _) as [f|[ms c']] eqn:El;
    [done|].
  case_bool_decide as Ht2; [done|]. destruct wsConnect as [cause|[]]; [done|].
  intros [= <-].
  cbn [request_payer request_members request_threshold request_timeLock].
  destruct (members_loop_inr _ _ _ _ _ _ _ El) as (Hl & Hidx & Hc & Hcount).
  rewrite drop_0, Hlen', take_ge in Hcount by lia.
  destruct (small_count memberPermissions Hmany) as [Hs _]. rewrite Hs in Ht1.
  do 6 (split; [done|]). split; [|lia].
  intros j keyStr permission Hj Hp.
  destruct (Hidx j keyStr Hj) as (p & m & Hp' & Hm & Hmem).
  cbn [Nat.add] in Hp'. rewrite Hp in Hp'. injection Hp' as <-. by exists m.
Qed.

(** When every check passes, the outcome is that of the connection. *)
Lemma runCreate_total parse key wsConnect threshold timeLock memberKeys
    memberPermissions :
  len memberPermissions < 32768 →
  length memberKeys = length memberPermissions →
  Forall (λ keyStr, ∃ memberKey, parse keyStr = inr memberKey) memberKeys →
  Forall (λ permission, 0 ≤ permission ≤ 7) memberPermissions →
  threshold ≤ count_votes 0 memberPermissions →
  match wsConnect with
  | inl cause =>
      runCreate parse (inr key) wsConnect threshold timeLock memberKeys
        memberPermissions = inl (FatalWsConnect cause)
  | inr _ =>
      ∃ request,
        runCreate parse (inr key) wsConnect threshold timeLock memberKeys
          memberPermissions = inr request
  end.
Proof.
  intros Hmany Hlen Hkeys Hperms Ht. unfold runCreate.
  rewrite bool_decide_false by (intros H; by apply H).
  destruct (small_count memberPermissions Hmany) as [Hs Hs2].
  rewrite Hs. rewrite bool_decide_false by lia.
  destruct (members_loop_total parse memberPermissions memberKeys 0
              (count_votes 0 memberPermissions)) as (ms & c' & El).
  { intros j keyStr Hj. split.
    - by apply (proj1 (Forall_lookup _ _) Hkeys j keyStr).
    - destruct (lookup_lt_is_Some_2 memberPermissions j) as [p Hp].
      { rewrite <- Hlen. by eapply lookup_lt_Some. }
      exists p. split; [done|]. by apply (proj1 (Forall_lookup _ _) Hperms j p). }
  rewrite El.
  destruct (members_loop_inr _ _ _ _ _ _ _ El) as (_ & _ & Hc & Hcount).
  rewrite drop_0, Hlen, take_ge in Hcount by lia.
  rewrite Hc, Hcount, Hs2. pose proof (count_votes_bounds memberPermissions).
  rewrite bool_decide_false by lia. destruct wsConnect; by eauto.
Qed.

Lemma members_loop_no_panic parse permissions keys : ∀ i c,
  (i + length keys ≤ length permissions)%nat →
  members_loop parse permissions i keys c ≠ inl FatalPanic.
Proof.
  induction keys as [|keyStr keys IH]; intros i c Hlen; simpl in *; [done|].
  destruct (parse keyStr) as [cause|memberKey]; [done|].
  destruct (permissions !! i) as [p|] eqn:Ei; [|apply lookup_ge_None in Ei; lia].
  case_bool_decide; [done|].
  specialize (IH (S i) (if votes p then c + 1 else c) ltac:(lia)).
  by destruct (members_loop parse permissions (S i) keys _) as [f|[ms c']].
Qed.

Lemma members_loop_no_threshold parse permissions keys t c0 : ∀ i c,
  members_loop parse permissions i keys c ≠ inl (FatalInvalidThreshold t c0).
Proof.
  induction keys as [|keyStr keys IH]; intros i c; simpl; [done|].
  destruct (parse keyStr) as [cause|memberKey]; [done|].
  destruct (permissions !! i) as [p|]; [|done].
  case_bool_decide; [done|].
  specialize (IH (S i) (if votes p then c + 1 else c)).
  by destruct (members_loop parse permissions (S i) keys _) as [f|[ms c']].
Qed.

Lemma runCreate_never parse payer wsConnect threshold timeLock memberKeys
    memberPermissions :
  len memberPermissions < 32768 →
  (∀ t c, runCreate parse payer wsConnect threshold timeLock memberKeys
            memberPermissions ≠ inl (FatalInvalidThreshold t c)) ∧
  runCreate parse payer wsConnect threshold timeLock memberKeys memberPermissions
    ≠ inl FatalPanic.
Proof.
  intros Hmany. unfold runCreate. destruct payer as [cause|key]; [done|].
  case_bool_decide as Hlen; [done|].
  assert (length memberKeys = length memberPermissions) as Hlen'
    by (destruct (decide (length memberKeys = length memberPermissions)); done).
  rewrite (explainThresholdError_spec _ _ _ Hlen').
  case_bool_decide as Ht1; [done|].
  pose proof (members_loop_no_panic parse memberPermissions memberKeys 0
                (count_votes 0 memberPermissions) ltac:(simpl; lia)) as Hnp.
  pose proof (λ t c, members_loop_no_threshold parse memberPermissions memberKeys t c 0%nat
                (count_votes 0 memberPermissions)) as Hnt.
  destruct (members_loop parse memberPermissions 0 memberKeys
              (count_votes 0 memberPermissions)) as [f|[ms c']] eqn:El.
  { split.
    - intros t c [= ->]. by apply (Hnt t c).
    - intros [= ->]. by apply Hnp. }
  destruct (members_loop_inr _ _ _ _ _ _ _ El) as (_ & _ & Hc & Hcount).
  rewrite drop_0, Hlen', take_ge in Hcount by lia.
  destruct (small_count memberPermissions Hmany) as [Hs Hs2]. rewrite Hs in Ht1.
  rewrite Hc, Hcount, Hs2. pose proof (count_votes_bounds memberPermissions).
  rewrite bool_decide_false by lia. by destruct wsConnect.
Qed.

(** X14: with fewer than 32768 members, [runCreate] goes on to create the multisig
    exactly when the payer key pair loads, there are as many permissions as
    member keys, every key parses, every permission is between 0 and 7, the
    threshold is at most the number of permissions with the vote bit (a
    threshold of 0 passes), and the web-socket connection, made after these
    checks, succeeds; when the checks pass and the connection fails,
    [runCreate] stops with the connection error.  The request then holds the
    given threshold and time lock and, in order, one member per key with its
    parsed key and its permission as mask, so that the threshold is at most
    what [countVotingMembers] counts; and the second threshold check of the
    source never fails. *)
Theorem runCreate_accepts (parse : string → string + PublicKey)
    (payer : string + list Z) (wsConnect : string + unit) (threshold timeLock : Z)
    (memberKeys : list string) (memberPermissions : list Z)
    (Hmany : len memberPermissions < 32768) :
  (∀ request,
     runCreate parse payer wsConnect threshold timeLock memberKeys memberPermissions
       = inr request →
     payer = inr (request_payer request) ∧
     wsConnect = inr tt ∧
     request_threshold request = threshold ∧
     request_timeLock request = timeLock ∧
     length memberKeys = length memberPermissions ∧
     length (request_members request) = length memberKeys ∧
     (∀ (j : nat) keyStr permission,
        memberKeys !! j = Some keyStr → memberPermissions !! j = Some permission →
        ∃ member, request_members request !! j = Some member ∧
                  member_of parse keyStr permission member) ∧
     threshold ≤ countVotingMembers (request_members request)) ∧
  (∀ key,
     payer = inr key →
     length memberKeys = length memberPermissions →
     Forall (λ keyStr, ∃ memberKey, parse keyStr = inr memberKey) memberKeys →
     Forall (λ permission, 0 ≤ permission ≤ 7) memberPermissions →
     threshold ≤ count_votes 0 memberPermissions →
     match wsConnect with
     | inl cause =>
         runCreate parse payer wsConnect threshold timeLock memberKeys
           memberPermissions = inl (FatalWsConnect cause)
     | inr _ =>
         ∃ request,
           runCreate parse payer wsConnect threshold timeLock memberKeys
             memberPermissions = inr request
     end) ∧
  (∀ t c, runCreate parse payer wsConnect threshold timeLock memberKeys
            memberPermissions ≠ inl (FatalInvalidThreshold t c)) ∧
  runCreate parse payer wsConnect threshold timeLock memberKeys memberPermissions
    ≠ inl FatalPanic.
Proof.
  split; [|split].
  - intros request. by apply runCreate_inr.
  - intros key ->. by apply runCreate_total.
  - by apply runCreate_never.
Qed.

Lemma runCreate_accepts_witness :
  len sample_permissions < 32768 ∧
  (∃ request,
     runCreate sample_parse (inr [1]) (inr tt) 1 0 sample_members sample_permissions
     = inr request) ∧
  runCreate sample_parse (inr [1]) (inl "connection refused") 1 0 sample_members
    sample_permissions
  = inl (FatalWsConnect "connection refused").
Proof.
  assert (len sample_permissions < 32768) as Hmany by (vm_compute; reflexivity).
  assert (Forall (λ keyStr, ∃ memberKey, sample_parse keyStr = inr memberKey)
            sample_members) as Hkeys by (repeat constructor; by eexists).
  assert (Forall (λ permission, 0 ≤ permission ≤ 7) sample_permissions) as Hperms
    by (repeat constructor; lia).
  assert (1 ≤ count_votes 0 sample_permissions) as Ht by (vm_compute; discriminate).
  split; [exact Hmany|]. split.
  - exact (proj1 (proj2 (runCreate_accepts sample_parse (inr [1]) (inr tt) 1 0
                           sample_members sample_permissions Hmany))
             [1] eq_refl eq_refl Hkeys Hperms Ht).
  - exact (proj1 (proj2 (runCreate_accepts sample_parse (inr [1])
                           (inl "connection refused") 1 0
                           sample_members sample_permissions Hmany))
             [1] eq_refl eq_refl Hkeys Hperms Ht).
Defined.

(** X15: with fewer than 32768 members and as many permissions as keys, a
    threshold above the number of permissions with the vote bit is reported
    before any key is parsed or any permission is range-checked, and before
    the web-socket connection is made: [runCreate] stops with the explanation
    of [explainThresholdError], which lists the keys of the voting members
    and those of the others, in order, every key in exactly one list, the
    first list shorter than the threshold. *)
Theorem runCreate_threshold_error (parse : string → string + PublicKey)
    (key : list Z) (wsConnect : string + unit) (threshold timeLock : Z)
    (memberKeys : list string) (memberPermissions : list Z)
    (Hmany : len memberPermissions < 32768)
    (Hlen : length memberKeys = length memberPermissions)
    (Hthreshold : count_votes 0 memberPermissions < threshold) :
  runCreate parse (inr key) wsConnect threshold timeLock memberKeys memberPermissions
  = inl (FatalThreshold
           {| RequestedThreshold := threshold;
              votingMembers := keys_voting true memberKeys memberPermissions;
              nonVotingMembers := keys_voting false memberKeys memberPermissions |}) ∧
  len (keys_voting true memberKeys memberPermissions) < threshold ∧
  keys_voting true memberKeys memberPermissions
    ++ keys_voting false memberKeys memberPermissions ≡ₚ memberKeys.
Proof.
  split; [|split].
  - unfold runCreate. rewrite bool_decide_false by (intros H; by apply H).
    destruct (small_count memberPermissions Hmany) as [-> _].
    rewrite bool_decide_true by done.
    by rewrite explainThresholdError_spec.
  - by rewrite keys_voting_length.
  - by apply keys_voting_perm.
Qed.

Lemma runCreate_threshold_error_witness :
  len sample_permissions < 32768 ∧
  count_votes 0 sample_permissions < 2 ∧
  runCreate sample_parse (inr [1]) (inr tt) 2 0 sample_members sample_permissions
  = inl (FatalThreshold
           {| RequestedThreshold := 2;
              votingMembers := ["6tBou5MHL5aWpDy6cgf3wiwGGK2mR8qs68ujtpaoWrf2"];
              nonVotingMembers := ["Hy5oibb1cYdmjyPJ2fiypDtKYvp1uZTuPkmFzVy7TL8c"] |}).
Proof.
  assert (len sample_permissions < 32768) as Hmany by (vm_compute; reflexivity).
  assert (count_votes 0 sample_permissions < 2) as Ht by (vm_compute; reflexivity).
  split; [exact Hmany|]. split; [exact Ht|].
  exact (proj1 (runCreate_threshold_error sample_parse [1] (inr tt) 2 0 sample_members
                  sample_permissions Hmany eq_refl Ht)).
Defined.

End CreateProps.

(** * Further properties of voting and executing *)
Module TransactionMore.
Import Transaction TransactionSpec TransactionProps.

(** *** The accounts appended to the execute instruction *)

Lemma isWritable_partition message i :
  0 ≤ squads.NumWritableNonSigners message →
  isWritable message i = true ↔
  writable_by_partition message i ∨
  squads.NumWritableSigners message ≤ i < squads.NumSigners message.
Proof.
  intros Hnn. rewrite isWritable_true. unfold writable_by_partition. lia.
Qed.

(** X16: the account metas [ExecuteProposal] appends are the stored account keys,
    in order; none is marked signer; and the one at position [i] is marked
    writable exactly when the partition invariant makes position [i]
    writable or [i] is the position of a readonly signer.  On a stored
    message without readonly signers the writable flags are those of the
    partition invariant. *)
Theorem additionalAccountMetas_flags (message : squads.VaultTransactionMessage)
    (Hnn : 0 ≤ squads.NumWritableNonSigners message) :
  map solana.AccountMeta_PublicKey (additionalAccountMetas message)
    = squads.AccountKeys message ∧
  Forall (λ am, solana.IsSigner am = false) (additionalAccountMetas message) ∧
  (∀ (i : nat) am, additionalAccountMetas message !! i = Some am →
     (solana.IsWritable am = true ↔
      writable_by_partition message (Z.of_nat i) ∨
      squads.NumWritableSigners message ≤ Z.of_nat i < squads.NumSigners message)) ∧
  (squads.NumSigners message ≤ squads.NumWritableSigners message →
   ∀ (i : nat) am, additionalAccountMetas message !! i = Some am →
     (solana.IsWritable am = true ↔ writable_by_partition message (Z.of_nat i))).
Proof.
  assert (∀ (i : nat) am, additionalAccountMetas message !! i = Some am →
            solana.IsSigner am = false ∧
            solana.IsWritable am = isWritable message (Z.of_nat i)) as Hmeta.
  { intros i am. unfold additionalAccountMetas. rewrite list_lookup_imap.
    destruct (squads.AccountKeys message !! i); [|done]. by intros [= <-]. }
  split; [|split; [|split]].
  - unfold additionalAccountMetas. apply list_eq. intros i.
    rewrite list_lookup_fmap, list_lookup_imap.
    by destruct (squads.AccountKeys message !! i).
  - apply Forall_lookup. intros i am Hi. by destruct (Hmeta i am Hi).
  - intros i am Hi. destruct (Hmeta i am Hi) as [_ ->]. by apply isWritable_partition.
  - intros Hro i am Hi. destruct (Hmeta i am Hi) as [_ ->].
    rewrite isWritable_partition by done. split; [|by left].
    intros [H|H]; [done|lia].
Qed.

Lemma additionalAccountMetas_flags_witness :
  0 ≤ squads.NumWritableNonSigners
        (Propose.createTransactionMessage (key_of 1) (key_of 2) 5) ∧
  map solana.AccountMeta_PublicKey
      (additionalAccountMetas (Propose.createTransactionMessage (key_of 1) (key_of 2) 5))
    = [key_of 1; key_of 2; solana.SystemProgramID].
Proof.
  assert (0 ≤ squads.NumWritableNonSigners
                (Propose.createTransactionMessage (key_of 1) (key_of 2) 5)) as Hnn
    by (simpl; lia).
  split; [exact Hnn|].
  exact (proj1 (additionalAccountMetas_flags _ Hnn)).
Defined.

(** *** The network events of a run *)

Ltac answer_cases :=
  repeat match goal with
  | |- context [match ?x with _ => _ end] =>
      match type of x with
      | sum _ _ => destruct x eqn:?
      | option _ => destruct x eqn:?
      | bool => destruct x eqn:?
      | squads.ProposalStatus => destruct x eqn:?
      | sumbool _ _ => destruct x
      end;
      cbn -[take drop invalid_transaction_account not_initialized
            additionalAccountMetas hasExecutePermission votingIx
            PrivateKey_Validate ed25519_Public Time_Before timelockEnd_of]
  | |- context [if ?x then _ else _] =>
      destruct x eqn:?;
      cbn -[take drop invalid_transaction_account not_initialized
            additionalAccountMetas hasExecutePermission votingIx
            PrivateKey_Validate ed25519_Public Time_Before timelockEnd_of]
  end.

Ltac no_send H :=
  repeat (apply elem_of_cons in H as [H|H]; [discriminate H|]);
  by apply elem_of_nil in H.

Ltac early n :=
  by (exists no_transaction, n; repeat split; intros; try done; simpl in *; lia).

Ltac decided :=
  repeat match goal with
  | H : bool_decide _ = false |- _ => apply bool_decide_eq_false in H
  end.

Lemma submit_execute_trace env input :
  ∃ tx (n : nat),
    (submit_execute env input).2 = take n (drop 2 (execute_steps env input tx)) ∧
    (∀ out, (submit_execute env input).1 = inr out →
       n = 3%nat ∧ SendTransaction env tx = inr (Execute_Signature out) ∧
       TransactionPDA out
         = GetTransactionPDA env (multisigPDA input) (transactionIndex input) ∧
       Execute_ProposalPDA out
         = GetProposalPDA env (multisigPDA input) (transactionIndex input) ∧
       Execute_TransactionIndex out = transactionIndex input) ∧
    (∀ e, (submit_execute env input).1 = inl e → (3 ≤ n)%nat →
       ∃ cause, SendTransaction env tx = inl cause ∧ e = ErrExecuteTransaction cause) ∧
    ((3 ≤ n)%nat →
     ∃ txAccountInfo vaultTx hash unsigned,
       GetAccountInfo env
         (GetTransactionPDA env (multisigPDA input) (transactionIndex input))
         = inr txAccountInfo ∧
       invalid_transaction_account txAccountInfo = false ∧
       VaultTransaction_Unmarshal env (default [] txAccountInfo) = inr vaultTx ∧
       length (squads.Instructions (squads.Message vaultTx)) ≠ 0%nat ∧
       GetLatestBlockhash env = inr hash ∧
       NewTransaction env
         [squads.VaultTransactionExecute (multisigPDA input)
            (GetProposalPDA env (multisigPDA input) (transactionIndex input))
            (GetTransactionPDA env (multisigPDA input) (transactionIndex input))
            (ed25519_Public (executor input))
            (additionalAccountMetas (squads.Message vaultTx))]
         hash (ed25519_Public (executor input)) = inr unsigned ∧
       Sign env unsigned (ed25519_Public (executor input)) = inr tx).
Proof.
  unfold submit_execute, execute_steps, PrivateKey_PublicKey, call, run_bind, throw,
    run_ret.
  cbn -[take invalid_transaction_account additionalAccountMetas PrivateKey_Validate
        ed25519_Public].
  answer_cases.
  all: first [early 0%nat | early 1%nat | early 2%nat | idtac].
  all: eexists _, 3%nat; (split; [reflexivity|]);
    (split; [intros ? [= <-]; eauto|]); (split; [intros ? [= <-]; eauto|]);
    intros _; decided; do 4 eexists; repeat split; eassumption.
Qed.

(** X17: every run of [ExecuteProposal] makes its network calls in one fixed
    order and stops at the first failure: its events are a prefix of
    multisig account, proposal account, transaction account, latest
    blockhash, send, between the web-socket connection and its close when the
    caller passed no web-socket client.  It sends at most one transaction,
    nothing follows the send, and the only error reported after a send is
    the failure of that send.  A transaction is sent only if the transaction
    account holds at least eight bytes that decode to a vault transaction
    with at least one instruction, and it is the transaction built from the
    single execute instruction, with the stored account keys appended, for the
    latest blockhash, with the executor as payer and signer.  A successful
    run returns the signature of the send and the two derived addresses. *)
Theorem ExecuteProposal_trace (env : Env) (input : ExecuteInput) :
  ∃ tx (n : nat),
    (ExecuteProposal env input).2
      = ws_frame env (has_wsClient input) (take n (execute_steps env input tx)) ∧
    (∀ out, (ExecuteProposal env input).1 = inr out →
       n = 5%nat ∧ SendTransaction env tx = inr (Execute_Signature out) ∧
       TransactionPDA out
         = GetTransactionPDA env (multisigPDA input) (transactionIndex input) ∧
       Execute_ProposalPDA out
         = GetProposalPDA env (multisigPDA input) (transactionIndex input) ∧
       Execute_TransactionIndex out = transactionIndex input) ∧
    (∀ e, (ExecuteProposal env input).1 = inl e →
       submitted (ExecuteProposal env input) →
       ∃ cause, SendTransaction env tx = inl cause ∧ e = ErrExecuteTransaction cause) ∧
    (submitted (ExecuteProposal env input) →
     ∃ txAccountInfo vaultTx hash unsigned,
       GetAccountInfo env
         (GetTransactionPDA env (multisigPDA input) (transactionIndex input))
         = inr txAccountInfo ∧
       invalid_transaction_account txAccountInfo = false ∧
       VaultTransaction_Unmarshal env (default [] txAccountInfo) = inr vaultTx ∧
       length (squads.Instructions (squads.Message vaultTx)) ≠ 0%nat ∧
       GetLatestBlockhash env = inr hash ∧
       NewTransaction env
         [squads.VaultTransactionExecute (multisigPDA input)
            (GetProposalPDA env (multisigPDA input) (transactionIndex input))
            (GetTransactionPDA env (multisigPDA input) (transactionIndex input))
            (ed25519_Public (executor input))
            (additionalAccountMetas (squads.Message vaultTx))]
         hash (ed25519_Public (executor input)) = inr unsigned ∧
       Sign env unsigned (ed25519_Public (executor input)) = inr tx).
Proof.
  destruct (submit_execute_trace env input) as (tx & n & Ht & Hok & Herr & Htx).
  unfold ExecuteProposal, submitted.
  destruct (submit_execute env input) as [r t]. cbn [fst snd] in Ht, Hok, Herr. subst t.
  unfold with_ws_client, ws_frame, deferred_close, fetchMultisigAccount,
    fetchProposalAccount, fetchAccount, wrap_error, check_executable,
    PrivateKey_PublicKey, call, run_bind, throw, run_ret.
  cbn -[take drop execute_steps PrivateKey_Validate ed25519_Public Time_Before
        timelockEnd_of].
  answer_cases.
  all: first
    [ by (exists tx, 0%nat; split; [reflexivity|]; split; [intros ? [=]|]; split;
          [intros ? _ [? H]|intros [? H]]; cbn in H; no_send H)
    | by (exists tx, 1%nat; split; [reflexivity|]; split; [intros ? [=]|]; split;
          [intros ? _ [? H]|intros [? H]]; cbn in H; no_send H)
    | by (exists tx, 2%nat; split; [reflexivity|]; split; [intros ? [=]|]; split;
          [intros ? _ [? H]|intros [? H]]; cbn in H; no_send H)
    | idtac ].
  all: exists tx, (2 + n)%nat; (split; [reflexivity|]).
  all: split; [intros out E; destruct (Hok out E) as (-> & ?); done|].
  all: split; [intros e E [tx' H]; apply (Herr e E)|intros [tx' H]; apply Htx];
    (destruct n as [|[|[|n]]]; [cbn in H; no_send H..|lia]).
Qed.

Lemma submit_vote_trace env input action :
  ∃ tx (n : nat),
    (submit_vote env input action).2 = take n (vote_steps env input tx) ∧
    (∀ out, (submit_vote env input action).1 = inr out →
       n = 4%nat ∧ SendTransaction env tx = inr (Signature out) ∧
       ProposalPDA out = GetProposalPDA env (Multisig input) (TransactionIndex input) ∧
       Output_Action out = action) ∧
    (∀ e, (submit_vote env input action).1 = inl e → (4 ≤ n)%nat →
       ∃ cause, SendTransaction env tx = inl cause ∧
                e = ErrSendVotingTransaction cause) ∧
    ((4 ≤ n)%nat →
     ∃ hash unsigned,
       GetLatestBlockhash env = inr hash ∧
       NewTransaction env
         [votingIx action
            {| squads.Memo :=
                 if decide (Memo input = "") then None else Some (Memo input) |}
            (Multisig input) (ed25519_Public (Voter input))
            (GetProposalPDA env (Multisig input) (TransactionIndex input))]
         hash (ed25519_Public (Voter input)) = inr unsigned ∧
       Sign env unsigned (ed25519_Public (Voter input)) = inr tx).
Proof.
  unfold submit_vote, vote_steps, PrivateKey_PublicKey, call, run_bind, throw, run_ret.
  cbn -[take not_initialized votingIx PrivateKey_Validate ed25519_Public]. answer_cases.
  all: first [early 0%nat | early 1%nat | early 2%nat | early 3%nat | idtac].
  all: eexists _, 4%nat; (split; [reflexivity|]);
    (split; [intros ? [= <-]; eauto|]); (split; [intros ? [= <-]; eauto|]);
    intros _; do 2 eexists; repeat split; eassumption.
Qed.

(** X18: every run of [VoteOnProposal] with a valid action makes its network calls
    in one fixed order and stops at the first failure: its events are a
    prefix of multisig account, proposal account, latest blockhash, send,
    between the web-socket connection and its close when the caller passed no
    web-socket client; with an invalid action there is no event at all.  It
    sends at most one transaction, the only error reported after a send is
    the failure of that send, and the transaction sent is the one built from
    the single instruction of the action, for the latest blockhash, with the
    voter as payer and signer.  A successful run returns the signature of the
    send, the derived proposal address and the action, the empty action
    reported as approve. *)
Theorem VoteOnProposal_trace (env : Env) (input : ProposalVoteInput) :
  let action := if decide (Action input = "") then "approve" else Action input in
  ∃ tx (n : nat),
    (VoteOnProposal env input).2
      = (if decide (valid_action action)
         then ws_frame env (has_WsClient input) (take n (vote_steps env input tx))
         else []) ∧
    (∀ out, (VoteOnProposal env input).1 = inr out →
       n = 4%nat ∧ SendTransaction env tx = inr (Signature out) ∧
       ProposalPDA out = GetProposalPDA env (Multisig input) (TransactionIndex input) ∧
       Output_Action out = action ∧ valid_action action) ∧
    (∀ e, (VoteOnProposal env input).1 = inl e →
       submitted (VoteOnProposal env input) →
       ∃ cause, SendTransaction env tx = inl cause ∧
                e = ErrSendVotingTransaction cause) ∧
    (submitted (VoteOnProposal env input) →
     ∃ hash unsigned,
       GetLatestBlockhash env = inr hash ∧
       NewTransaction env
         [votingIx action
            {| squads.Memo :=
                 if decide (Memo input = "") then None else Some (Memo input) |}
            (Multisig input) (ed25519_Public (Voter input))
            (GetProposalPDA env (Multisig input) (TransactionIndex input))]
         hash (ed25519_Public (Voter input)) = inr unsigned ∧
       Sign env unsigned (ed25519_Public (Voter input)) = inr tx).
Proof.
  intros action. unfold VoteOnProposal. fold action.
  destruct (submit_vote_trace env input action) as (tx & n & Ht & Hok & Herr & Htx).
  destruct (decide (action ≠ "approve" ∧ action ≠ "reject" ∧ action ≠ "cancel"))
    as [Hinv|Hval].
  { exists tx, 0%nat.
    rewrite (decide_False (P := valid_action action)) by (unfold valid_action; tauto).
    split; [done|]. unfold submitted, throw. cbn. split; [intros ? [=]|].
    split; [intros ? _ [? H]|intros [? H]]; no_send H. }
  assert (valid_action action) as Hv.
  { unfold valid_action. destruct (decide (action = "approve")); [tauto|].
    destruct (decide (action = "reject")); [tauto|].
    destruct (decide (action = "cancel")); tauto. }
  exists tx, n. rewrite (decide_True (P := valid_action action)) by done.
  unfold submitted.
  destruct (submit_vote env input action) as [r t]. cbn [fst snd] in Ht, Hok, Herr.
  subst t. unfold with_ws_client, ws_frame, deferred_close, call, run_bind.
  cbn -[take vote_steps]. answer_cases.
  all: (split; [reflexivity|]).
  all: split;
    [intros out' E'; first [discriminate E'|destruct (Hok out' E') as (-> & ? & ? & ?); done]|].
  all: split; [intros err' E' [tx' H]|intros [tx' H]]; try (by (cbn in H; no_send H)).
  all: first [apply (Herr err' E')|apply Htx];
    (destruct n as [|[|[|[|n]]]]; [cbn in H; no_send H..|lia]).
Qed.

End TransactionMore.

(** * Properties of the approve command *)
Module ApproveProps.
Import Approve.

(** X19: whenever the approve command gets as far as printing a result, it
    prints an empty status, "Approvals: 0/0", that the approval threshold is
    reached and that the transaction is ready for execution, with the command
    to execute it: [VoteOnProposal] fills in the signature, the proposal
    address and the action only, so the report does not depend on the
    proposal, its votes, the threshold or the time lock. *)
Theorem runApproveTransaction_report (env : Transaction.Env)
    (multisig : string + PublicKey) (payer : string + list Z)
    (transactionIndex : Z) (payerPath memo : string) (lines : list Line)
    (Hprinted : (runApproveTransaction env multisig payer transactionIndex
                   payerPath memo).1 = inr lines) :
  ∃ multisigPDA signature,
    multisig = inr multisigPDA ∧
    lines = [ PrintBanner; PrintSignature signature; PrintStatus "";
              PrintApprovals 0 0; PrintThresholdReached; PrintReady;
              PrintExecuteCommand multisigPDA transactionIndex payerPath ].
Proof.
  unfold runApproveTransaction in Hprinted.
  destruct multisig as [cause|multisigPDA]; [done|].
  destruct payer as [cause|key]; [done|].
  destruct (Transaction.ws_Connect env) as [cause|u]; [done|].
  destruct (Transaction.VoteOnProposal env _) as [[err|output] events];
    [by destruct err|].
  cbn [fst] in Hprinted. injection Hprinted as <-.
  exists multisigPDA, (Transaction.Signature output). split; [done|].
  unfold display, returned. cbn [Signature CurrentStatus Approvals Threshold ExecutableAfter].
  by rewrite bool_decide_true by lia.
Qed.

Lemma runApproveTransaction_report_witness :
  let env := Transaction.sample_env (Transaction.sample_multisig 0 7)
               (Transaction.sample_proposal (squads.ProposalStatusExecuted 100) [])
               Transaction.sample_vault_transaction 0 in
  ∃ lines,
    (runApproveTransaction env (inr (Transaction.key_of 9))
       (inr (Transaction.private_key_of 1)) 1 "payer.json" "").1 = inr lines ∧
    lines = [ PrintBanner; PrintSignature "signature"; PrintStatus "";
              PrintApprovals 0 0; PrintThresholdReached; PrintReady;
              PrintExecuteCommand (Transaction.key_of 9) 1 "payer.json" ].
Proof.
  intros env.
  assert (∃ lines, (runApproveTransaction env (inr (Transaction.key_of 9))
            (inr (Transaction.private_key_of 1)) 1 "payer.json" "").1 = inr lines)
    as [lines Hl] by (eexists; vm_compute; reflexivity).
  exists lines. split; [exact Hl|].
  destruct (runApproveTransaction_report env _ _ _ _ _ lines Hl)
    as (multisigPDA & signature & Hm & ->).
  injection Hm as <-. vm_compute in Hl. by injection Hl as <-.
Defined.

End ApproveProps.
